(** * gcc-map-visualizer: the map-file parser and its reports

    A shallow embedding of [vis.py]: the line patterns of
    [MapFileParser.parse] run on a small backtracking matcher, the parser
    state is the three dictionaries of the class, and the four reports of
    [Visualizer] return the numbers they print.  Python's [int / int] and
    [float * int] are binary64 operations and are modelled on
    [SpecFloat]. *)

From Stdlib Require Import ZArith String Ascii List Bool Lia.
From Stdlib Require Import Permutation Sorted.
From Stdlib Require Import Floats.SpecFloat.
Import ListNotations.

Open Scope Z_scope.

(** ** Exceptions *)

Inductive exn := ValueError | TypeError | ZeroDivisionError | OverflowError.

Inductive result (A : Type) : Type :=
| Ok (a : A)
| Raise (e : exn).

Arguments Ok {A} a.
Arguments Raise {A} e.

Definition bind {A B} (x : result A) (f : A -> result B) : result B :=
  match x with
  | Ok a => f a
  | Raise e => Raise e
  end.

Notation "x <- e ;; k" := (bind e (fun x => k))
  (at level 61, e at next level, right associativity).

Fixpoint mapM {A B} (f : A -> result B) (l : list A) : result (list B) :=
  match l with
  | [] => Ok []
  | a :: l' => b <- f a ;; bs <- mapM f l' ;; Ok (b :: bs)
  end.

Fixpoint foldM {A S} (f : S -> A -> result S) (l : list A) (s : S)
  : result S :=
  match l with
  | [] => Ok s
  | a :: l' => s' <- f s a ;; foldM f l' s'
  end.

(** ** Text

    A Python [str] is a sequence of code points; the model takes the code
    points U+0000..U+00FF, one [ascii] each. *)

Module Text.

Definition str := list ascii.

Definition str_of (x : string) : str := list_ascii_of_string x.

Definition nl : ascii := "010"%char.

Definition code (c : ascii) : N := N_of_ascii c.

Definition between (lo hi : N) (c : ascii) : bool :=
  (N.leb lo (code c) && N.leb (code c) hi)%bool.

Definition is_code (n : N) (c : ascii) : bool := N.eqb (code c) n.

(** [\s] and [str.isspace]: TAB..CR, FS..US, space, NEL, NBSP. *)
Definition is_space (c : ascii) : bool :=
  between 9 13 c || between 28 32 c || is_code 133 c || is_code 160 c.

(** [\w]: the alphanumeric code points and the underscore. *)
Definition is_word (c : ascii) : bool :=
  between 48 57 c || between 65 90 c || is_code 95 c || between 97 122 c
  || is_code 170 c || between 178 179 c || is_code 181 c || between 185 186 c
  || between 188 190 c || between 192 214 c || between 216 246 c
  || between 248 255 c.

(** [[\w.]] *)
Definition is_word_or_dot (c : ascii) : bool := is_word c || is_code 46 c.

(** [[0-9a-fA-F]] *)
Definition is_hex (c : ascii) : bool :=
  between 48 57 c || between 97 102 c || between 65 70 c.

(** [.] without DOTALL: anything but a newline. *)
Definition not_newline (c : ascii) : bool := negb (is_code 10 c).

Fixpoint str_eqb (a b : str) : bool :=
  match a, b with
  | [], [] => true
  | x :: a', y :: b' => Ascii.eqb x y && str_eqb a' b'
  | _, _ => false
  end.

Fixpoint lstrip (x : str) : str :=
  match x with
  | c :: x' => if is_space c then lstrip x' else x
  | [] => []
  end.

Definition rstrip (x : str) : str := rev (lstrip (rev x)).

(** [str.strip()] *)
Definition strip (x : str) : str := rstrip (lstrip x).

(** [x.startswith(p)] *)
Fixpoint startswith (x p : str) : bool :=
  match p, x with
  | [], _ => true
  | c :: p', d :: x' => Ascii.eqb c d && startswith x' p'
  | _ :: _, [] => false
  end.

Definition hex_digit (c : ascii) : option Z :=
  if between 48 57 c then Some (Z.of_N (code c) - 48)
  else if between 97 102 c then Some (Z.of_N (code c) - 87)
  else if between 65 70 c then Some (Z.of_N (code c) - 55)
  else None.

Fixpoint hex_digits (acc : Z) (x : str) : option Z :=
  match x with
  | [] => Some acc
  | c :: x' =>
      match hex_digit c with
      | Some d => hex_digits (16 * acc + d) x'
      | None => None
      end
  end.

(** [int(x, 16)] on the texts the patterns capture: [0x] and at least one
    hexadecimal digit; any other text is a [ValueError] here. *)
Definition int16 (x : str) : result Z :=
  match x with
  | z :: h :: ((_ :: _) as ds) =>
      if (is_code 48 z && (is_code 120 h || is_code 88 h))%bool then
        match hex_digits 0 ds with
        | Some v => Ok v
        | None => Raise ValueError
        end
      else Raise ValueError
  | _ => Raise ValueError
  end.

(** [f.readlines()] on text whose line ends are already [\n]: every line
    keeps its newline, the last one may lack it. *)
Fixpoint readlines_from (cur : str) (text : str) : list str :=
  match text with
  | [] => match cur with [] => [] | _ => [rev cur] end
  | c :: text' =>
      if is_code 10 c then rev (c :: cur) :: readlines_from [] text'
      else readlines_from (c :: cur) text'
  end.

Definition readlines (text : str) : list str := readlines_from [] text.

End Text.

Import Text.

(** ** Regular expressions

    The fragment of [re] the three patterns use, matched the way [re]
    does: left to right, greedy repetition tried longest first, the first
    success wins. *)

Module Re.

Inductive regex : Type :=
| Bol                          (* ^ *)
| Eol                          (* $ *)
| Lit (w : str)                (* literal text *)
| Chr (p : ascii -> bool)      (* one character of a class *)
| Star (p : ascii -> bool)     (* class*  *)
| Plus (p : ascii -> bool)     (* class+  *)
| Grp (n : nat) (r : regex)    (* the n-th capturing group *)
| Cat (r1 r2 : regex).

Notation "a @@ b" := (Cat a b) (at level 60, right associativity).

Definition captures := list (nat * str).

Section Engine.
Context {R : Type}.
Variable subject : str.

(** the longest run of [p] first, then one character less, ... *)
Fixpoint greedy (p : ascii -> bool) (k : str -> option R) (x : str)
  : option R :=
  match x with
  | c :: x' =>
      if p c then
        match greedy p k x' with
        | Some r => Some r
        | None => k x
        end
      else k x
  | [] => k x
  end.

Fixpoint run (r : regex) (x : str) (caps : captures)
         (k : str -> captures -> option R) : option R :=
  match r with
  | Bol => if Nat.eqb (length x) (length subject) then k x caps else None
  | Eol =>
      match x with
      | [] => k x caps
      | [c] => if is_code 10 c then k x caps else None
      | _ => None
      end
  | Lit w =>
      if startswith x w then k (skipn (length w) x) caps else None
  | Chr p =>
      match x with
      | c :: x' => if p c then k x' caps else None
      | [] => None
      end
  | Star p => greedy p (fun x' => k x' caps) x
  | Plus p =>
      match x with
      | c :: x' => if p c then greedy p (fun x'' => k x'' caps) x' else None
      | [] => None
      end
  | Grp n r1 =>
      run r1 x caps
        (fun x' caps' =>
           k x' ((n, firstn (length x - length x') x) :: caps'))
  | Cat r1 r2 => run r1 x caps (fun x' caps' => run r2 x' caps' k)
  end.
End Engine.

(** [re.match(r, x)] *)
Definition re_match (r : regex) (x : str) : option captures :=
  run x r x [] (fun _ caps => Some caps).

Fixpoint search_from (subject : str) (r : regex) (x : str)
  : option captures :=
  match run subject r x [] (fun _ caps => Some caps) with
  | Some caps => Some caps
  | None =>
      match x with
      | [] => None
      | _ :: x' => search_from subject r x'
      end
  end.

(** [re.search(r, x)] *)
Definition re_search (r : regex) (x : str) : option captures :=
  search_from x r x.

(** [m.group(n)] *)
Fixpoint group (m : captures) (n : nat) : option str :=
  match m with
  | [] => None
  | (i, w) :: m' => if Nat.eqb i n then Some w else group m' n
  end.

End Re.

Import Re.

(** ** Dictionaries, sorting, slices

    A [dict] keeps its keys in insertion order, and assigning to a key
    that is present keeps the key where it is; the reports sort the items
    with a stable sort, so the order is part of the data. *)

Module Py.

Definition dict (V : Type) := list (str * V).

Section Dict.
Context {V : Type}.

(** [d.get(k)] *)
Fixpoint get (k : str) (d : dict V) : option V :=
  match d with
  | [] => None
  | (k', v) :: d' => if str_eqb k k' then Some v else get k d'
  end.

(** [k in d] *)
Definition mem (k : str) (d : dict V) : bool :=
  match get k d with Some _ => true | None => false end.

(** [d[k] = v] *)
Fixpoint set (k : str) (v : V) (d : dict V) : dict V :=
  match d with
  | [] => [(k, v)]
  | (k', v') :: d' =>
      if str_eqb k k' then (k', v) :: d' else (k', v') :: set k v d'
  end.

(** [d[k]] of a [defaultdict] whose factory gives [dflt] *)
Definition get_default (dflt : V) (k : str) (d : dict V) : V :=
  match get k d with Some v => v | None => dflt end.

Definition keys (d : dict V) : list str := map fst d.
Definition values (d : dict V) : list V := map snd d.
End Dict.

Section Sorting.
Context {A : Type}.
Variable key : A -> Z.

Fixpoint insert_asc (x : A) (l : list A) : list A :=
  match l with
  | [] => [x]
  | y :: l' => if key x <=? key y then x :: l else y :: insert_asc x l'
  end.

(** [sorted(l, key=key)]: ascending, equal keys in their first order *)
Definition sorted (l : list A) : list A := fold_right insert_asc [] l.

Fixpoint insert_desc (x : A) (l : list A) : list A :=
  match l with
  | [] => [x]
  | y :: l' => if key y <=? key x then x :: l else y :: insert_desc x l'
  end.

(** [sorted(l, key=key, reverse=True)]: descending, equal keys in their
    first order *)
Definition sorted_reverse (l : list A) : list A :=
  fold_right insert_desc [] l.
End Sorting.

(** [l[:n]] *)
Definition slice_to {A} (n : Z) (l : list A) : list A :=
  if 0 <=? n then firstn (Z.to_nat n) l
  else firstn (length l - Z.to_nat (- n)) l.

(** [l[-n:]] for [n > 0] *)
Definition slice_last {A} (n : nat) (l : list A) : list A :=
  skipn (length l - n) l.

(** [sum(l)] *)
Definition sum (l : list Z) : Z := fold_left Z.add l 0.

(** [max(l)] of a list that is not empty *)
Definition max (l : list Z) : Z :=
  match l with
  | [] => 0
  | x :: l' => fold_left Z.max l' x
  end.

(** [c * n] for a one-character string [c] *)
Definition repeat_chr (c : ascii) (n : Z) : str := repeat c (Z.to_nat n).

End Py.

(** ** binary64

    [a / b] on two [int]s is the quotient rounded once to binary64, and
    [OverflowError] beyond the range; [float * int] converts the [int]
    first; [int(x)] cuts the fraction off. *)

Module F64.

Definition prec : Z := 53.
Definition emax : Z := 1024.

Definition float := spec_float.

Definition finite_or_overflow (x : float) : result float :=
  match x with
  | S754_infinity _ => Raise OverflowError
  | _ => Ok x
  end.

(** [float(z)] *)
Definition of_int (z : Z) : result float :=
  finite_or_overflow (binary_normalize prec emax z 0 false).

Definition int_operand (z : Z) : float :=
  match z with
  | Z0 => S754_zero false
  | Zpos p => S754_finite false p 0
  | Zneg p => S754_finite true p 0
  end.

(** [a / b] *)
Definition truediv (a b : Z) : result float :=
  if b =? 0 then Raise ZeroDivisionError
  else finite_or_overflow (SFdiv prec emax (int_operand a) (int_operand b)).

(** [x * y] *)
Definition mul (x y : float) : float := SFmul prec emax x y.

(** [x * n] *)
Definition mul_int (x : float) (n : Z) : result float :=
  y <- of_int n ;; Ok (mul x y).

(** [int(x)] *)
Definition to_int (x : float) : result Z :=
  match x with
  | S754_zero _ => Ok 0
  | S754_finite sg m e =>
      let a := if 0 <=? e then Zpos m * 2 ^ e else Zpos m / 2 ^ (- e) in
      Ok (if sg then - a else a)
  | S754_infinity _ => Raise OverflowError
  | S754_nan => Raise ValueError
  end.

End F64.

(** ** MapFileParser *)

Module item.
(** one element of [self.sections[name]] *)
Record t := mk { subsection : str; address : Z; size : Z; file : str }.
End item.

Module info.
(** one value of [self.section_addresses] *)
Record t := mk { vma : Z; lma : Z; size : Z }.
End info.

Module MapFileParser.

Record t := mk {
  sections : Py.dict (list item.t);       (* defaultdict(list) *)
  total_sizes : Py.dict Z;                (* defaultdict(int) *)
  section_addresses : Py.dict info.t
}.

(** [__init__] *)
Definition init : t :=
  {| sections := []; total_sizes := []; section_addresses := [] |}.

(** [\.\w+[\w.]*], called NAME below *)
Definition name_re : regex :=
  Lit (str_of ".") @@ Plus is_word @@ Star is_word_or_dot.

(** [0x[0-9a-fA-F]+], called HEX below *)
Definition hex_re : regex := Lit (str_of "0x") @@ Plus is_hex.

(** [^(NAME)\s+(HEX)\s+(HEX)] *)
Definition main_section_re : regex :=
  Bol @@ Grp 1 name_re @@ Plus is_space @@ Grp 2 hex_re
      @@ Plus is_space @@ Grp 3 hex_re.

(** [load address (HEX)] *)
Definition load_re : regex := Lit (str_of "load address ") @@ Grp 1 hex_re.

(** [^\s+(NAME)\s+(HEX)\s+(HEX)\s+(.+)$] *)
Definition symbol_re : regex :=
  Bol @@ Plus is_space @@ Grp 1 name_re @@ Plus is_space @@ Grp 2 hex_re
      @@ Plus is_space @@ Grp 3 hex_re @@ Plus is_space
      @@ Grp 4 (Plus not_newline) @@ Eol.

(** [m.group(n)] where the code goes on to use the text; every group of
    the three patterns takes part in every match, so the [None] of a
    group that did not is an error here. *)
Definition group_text (m : captures) (n : nat) : result str :=
  match group m n with
  | Some w => Ok w
  | None => Raise TypeError
  end.

(** [int(m.group(n), 16)] *)
Definition group_int (m : captures) (n : nat) : result Z :=
  w <- group_text m n ;; int16 w.

(** the truth value of [current_section] *)
Definition truthy (current_section : option str) : option str :=
  match current_section with
  | Some ((_ :: _) as name) => Some name
  | _ => None
  end.

(** lines 46-49: the load address when the line names one *)
Definition load_address (line : str) (vma_address : Z) : result Z :=
  match re_search load_re line with
  | Some load_match => group_int load_match 1
  | None => Ok vma_address
  end.

(** lines 52-58: a header whose size is not zero is stored *)
Definition store_section (self : t) (section_name : str) (i : info.t) : t :=
  if 0 <? info.size i then
    {| sections := sections self;
       total_sizes := Py.set section_name (info.size i) (total_sizes self);
       section_addresses := Py.set section_name i (section_addresses self) |}
  else self.

(** the branch of a main section header, lines 40-61 *)
Definition parse_header (self : t) (line : str) (m : captures)
  : result (t * option str) :=
  section_name <- group_text m 1 ;;
  vma_address <- group_int m 2 ;;
  size <- group_int m 3 ;;
  lma_address <- load_address line vma_address ;;
  Ok (store_section self section_name
        {| info.vma := vma_address; info.lma := lma_address;
           info.size := size |},
      Some section_name).

(** lines 74-80: [self.sections[current_section].append(...)] when the
    size is not zero *)
Definition store_item (self : t) (current_section : str) (e : item.t) : t :=
  if 0 <? item.size e then
    {| sections :=
         Py.set current_section
           (Py.get_default [] current_section (sections self) ++ [e])
           (sections self);
       total_sizes := total_sizes self;
       section_addresses := section_addresses self |}
  else self.

(** the rest of the loop body, lines 63-82 *)
Definition parse_symbol (self : t) (current_section : option str)
           (line : str) : result (t * option str) :=
  match truthy current_section with
  | Some name =>
      match re_match symbol_re line with
      | Some m =>
          subsection <- group_text m 1 ;;
          address <- group_int m 2 ;;
          size <- group_int m 3 ;;
          rest <- group_text m 4 ;;
          let source_file := strip rest in
          Ok (store_item self name
                {| item.subsection := subsection; item.address := address;
                   item.size := size; item.file := source_file |},
              current_section)
      | None => Ok (self, current_section)
      end
  | None => Ok (self, current_section)
  end.

(** one turn of the [while] loop of [parse] *)
Definition parse_line (st : t * option str) (line : str)
  : result (t * option str) :=
  let (self, current_section) := st in
  match re_match main_section_re line with
  | Some m =>
      if negb (startswith line (str_of " ")) then parse_header self line m
      else parse_symbol self current_section line
  | None => parse_symbol self current_section line
  end.

Fixpoint parse_loop (st : t * option str) (lines : list str)
  : result (t * option str) :=
  match lines with
  | [] => Ok st
  | line :: lines' => st' <- parse_line st line ;; parse_loop st' lines'
  end.

(** [parse], from the lines that [readlines] gave *)
Definition parse (lines : list str) : result t :=
  st <- parse_loop (init, None) lines ;; Ok (fst st).

(** [get_summary] *)
Definition get_summary (self : t) : Py.dict Z := total_sizes self.

(** line 96: [file_sizes[item['file']] += item['size']] *)
Definition group_step (file_sizes : Py.dict Z) (it : item.t) : Py.dict Z :=
  Py.set (item.file it)
    (Py.get_default 0 (item.file it) file_sizes + item.size it) file_sizes.

(** the loop of lines 94-96 *)
Definition group_by_file (items : list item.t) : Py.dict Z :=
  fold_left group_step items [].

(** [get_top_contributors], a [{'file': f, 'size': s}] as a pair *)
Definition get_top_contributors (self : t) (section : str) (limit : Z)
  : list (str * Z) :=
  match Py.get section (sections self) with
  | None => []
  | Some items =>
      Py.slice_to limit (Py.sorted_reverse snd (group_by_file items))
  end.

(** [get_all_contributors] *)
Definition get_all_contributors (self : t) (section : str) : list item.t :=
  match Py.get section (sections self) with
  | None => []
  | Some items => Py.sorted_reverse item.size items
  end.

End MapFileParser.

(** ** Visualizer

    Every report returns what it prints: the rows with their numbers, in
    the order of the lines, or the exception that a division raises.
    Colours and column padding are left out, and a number that is printed
    with two decimals is given as the binary64 value that is rounded to
    them. *)

Module Visualizer.

Import MapFileParser.

(** what [format_size] prints: the bytes, or the number of KB or MB *)
Inductive size_text :=
| Bytes (n : Z)
| KB (x : F64.float)
| MB (x : F64.float).

(** [format_size] *)
Definition format_size (size : Z) : result size_text :=
  if size <? 1024 then Ok (Bytes size)
  else if size <? 1024 * 1024 then
    x <- F64.truediv size 1024 ;; Ok (KB x)
  else
    x <- F64.truediv size (1024 * 1024) ;; Ok (MB x).

(** the local [filled] of [draw_bar]: [int((value / max_value) * width)] *)
Definition filled (value max_value width : Z) : result Z :=
  q <- F64.truediv value max_value ;;
  x <- F64.mul_int q width ;;
  F64.to_int x.

(** [draw_bar] *)
Definition draw_bar (value max_value width : Z) : result str :=
  if max_value =? 0 then Ok []
  else
    n <- filled value max_value width ;;
    Ok (Py.repeat_chr "#" n ++ Py.repeat_chr "-" (width - n)).

(** [(size / total * 100) if total > 0 else 0] *)
Definition percentage (size total : Z) : result F64.float :=
  if 0 <? total then
    q <- F64.truediv size total ;; F64.mul_int q 100
  else Ok (S754_zero false).

Record summary_row := {
  s_section : str; s_size : Z; s_size_str : size_text;
  s_percentage : F64.float; s_bar : str
}.

Inductive summary_report :=
| NoSections                                  (* "No sections found ..." *)
| Summary (rows : list summary_row) (total_size : Z) (total_str : size_text).

(** the body of the loop of [print_section_summary], lines 175-189 *)
Definition summary_row_of (total_size max_size : Z) (sec : str * Z)
  : result summary_row :=
  let (section, size) := sec in
  pct <- percentage size total_size ;;
  bar <- draw_bar size max_size 40 ;;
  size_str <- format_size size ;;
  Ok {| s_section := section; s_size := size; s_size_str := size_str;
        s_percentage := pct; s_bar := bar |}.

(** [print_section_summary] *)
Definition print_section_summary (parser : MapFileParser.t)
  : result summary_report :=
  let summary := get_summary parser in
  match summary with
  | [] => Ok NoSections
  | _ :: _ =>
      let total_size := Py.sum (Py.values summary) in
      let sorted_sections := Py.sorted_reverse snd summary in
      let max_size := Py.max (Py.values summary) in
      rows <- mapM (summary_row_of total_size max_size) sorted_sections ;;
      total_str <- format_size total_size ;;
      Ok (Summary rows total_size total_str)
  end.

(** [enumerate(l, start)] *)
Fixpoint enumerate {A} (start : Z) (l : list A) : list (Z * A) :=
  match l with
  | [] => []
  | a :: l' => (start, a) :: enumerate (start + 1) l'
  end.

(** ["..." + x[-(n - 3):]] when [len(x) > n] *)
Definition keep_tail (n : nat) (x : str) : str :=
  if Nat.ltb n (length x) then str_of "..." ++ Py.slice_last (n - 3) x else x.

(** [x[:n - 3] + "..."] when [len(x) > n] *)
Definition keep_head (n : nat) (x : str) : str :=
  if Nat.ltb n (length x) then firstn (n - 3) x ++ str_of "..." else x.

Record contributor_row := {
  c_rank : Z; c_size : Z; c_size_str : size_text;
  c_percentage : F64.float; c_file : str
}.

Inductive contributors_report :=
| NoContributors (section : str)              (* "No data found ..." *)
| Contributors (rows : list contributor_row).

(** the body of the loop of [print_top_contributors], lines 211-231 *)
Definition contributor_row_of (total : Z) (ic : Z * (str * Z))
  : result contributor_row :=
  let '(i, (file, size)) := ic in
  pct <- percentage size total ;;
  size_str <- format_size size ;;
  Ok {| c_rank := i; c_size := size; c_size_str := size_str;
        c_percentage := pct; c_file := keep_tail 70 file |}.

(** [print_top_contributors] *)
Definition print_top_contributors (parser : MapFileParser.t) (section : str)
           (limit : Z) : result contributors_report :=
  let contributors := get_top_contributors parser section limit in
  match contributors with
  | [] => Ok (NoContributors section)
  | _ :: _ =>
      let total := Py.sum (map snd contributors) in
      rows <- mapM (contributor_row_of total) (enumerate 1 contributors) ;;
      Ok (Contributors rows)
  end.

Record breakdown_row := {
  b_address : Z; b_size : Z; b_size_str : size_text;
  b_subsection : str; b_file : str
}.

Inductive breakdown_report :=
| NoBreakdown (section : str)                 (* "No data found ..." *)
| Breakdown (rows : list breakdown_row).

(** the body of the loop of [print_detailed_breakdown], lines 251-261 *)
Definition breakdown_row_of (it : item.t) : result breakdown_row :=
  size_str <- format_size (item.size it) ;;
  Ok {| b_address := item.address it; b_size := item.size it;
        b_size_str := size_str;
        b_subsection := keep_head 28 (item.subsection it);
        b_file := keep_tail 50 (item.file it) |}.

(** [print_detailed_breakdown] *)
Definition print_detailed_breakdown (parser : MapFileParser.t)
           (section : str) (limit : Z) : result breakdown_report :=
  let items := get_all_contributors parser section in
  match items with
  | [] => Ok (NoBreakdown section)
  | _ :: _ =>
      rows <- mapM breakdown_row_of (Py.slice_to limit items) ;;
      Ok (Breakdown rows)
  end.

(** one element of [all_sections] *)
Record section := {
  name : str; start : Z; end_ : Z; size : Z; vma : Z; lma : Z
}.

Inductive other_address := LMA (a : Z) | VMA (a : Z).

Inductive layout_line :=
| Gap (from to gap_size : Z) (gap_str : size_text) (gap_bar : str)
| Sec (sec : section) (size_str : size_text)
      (other : option other_address) (bar : str).

Record walk_state := {
  prev_end : Z; total_used : Z; total_gaps : Z; printed : list layout_line
}.

(** [min(n, max(1, int(n * part / whole)))], the length of a bar *)
Definition cells (n part whole : Z) : result Z :=
  q <- F64.truediv (n * part) whole ;;
  k <- F64.to_int q ;;
  Ok (Z.min n (Z.max 1 k)).

(** lines 354-357: the address of the other kind, when the two differ *)
Definition other (use_vma : bool) (sec : section) : option other_address :=
  if (use_vma && negb (vma sec =? lma sec))%bool then Some (LMA (lma sec))
  else if (negb use_vma && negb (vma sec =? lma sec))%bool
       then Some (VMA (vma sec))
       else None.

(** lines 321-332: the gap, when the section starts above [prev_end] *)
Definition gap_lines (region_total : Z) (w : walk_state) (sec : section)
  : result (list layout_line) :=
  if prev_end w <? start sec then
    let gap_size := start sec - prev_end w in
    gap_str <- format_size gap_size ;;
    k <- cells 40 gap_size region_total ;;
    Ok [Gap (prev_end w) (start sec) gap_size gap_str (Py.repeat_chr "." k)]
  else Ok [].

(** the body of the [for] loop, lines 320-362 *)
Definition walk_step (use_vma : bool) (region_total : Z)
           (w : walk_state) (sec : section) : result walk_state :=
  let gap := prev_end w <? start sec in
  let gap_size := start sec - prev_end w in
  gap_printed <- gap_lines region_total w sec ;;
  size_str <- format_size (size sec) ;;
  k <- cells 60 (size sec) region_total ;;
  Ok {| prev_end := end_ sec;
        total_used := total_used w + size sec;
        total_gaps := if gap then total_gaps w + gap_size else total_gaps w;
        printed := printed w ++ gap_printed
                   ++ [Sec sec size_str (other use_vma sec)
                         (Py.repeat_chr "#" k)] |}.

Record layout := {
  region_start : Z; region_end : Z;
  region_total : Z; region_str : size_text;
  lines : list layout_line;
  used : Z; used_str : size_text;
  gaps : Z; gaps_str : size_text
}.

Inductive layout_report :=
| NoLayout                                    (* "No memory layout ..." *)
| Nothing                                     (* the bare [return] *)
| Layout (l : layout).

(** lines 278-293 *)
Definition collect (use_vma : bool) (addresses : Py.dict info.t)
  : list section :=
  map (fun ni : str * info.t =>
         let (n, i) := ni in
         let addr := if use_vma then info.vma i else info.lma i in
         {| name := n; start := addr; end_ := addr + info.size i;
            size := info.size i; vma := info.vma i; lma := info.lma i |})
      addresses.

(** [print_memory_map] *)
Definition print_memory_map (parser : MapFileParser.t) (use_vma : bool)
  : result layout_report :=
  match section_addresses parser with
  | [] => Ok NoLayout
  | _ :: _ =>
      let all_sections :=
        Py.sorted start (collect use_vma (section_addresses parser)) in
      match all_sections with
      | [] => Ok Nothing
      | first :: _ =>
          let region_start := start first in
          let region_end := end_ (last all_sections first) in
          let region_total := region_end - region_start in
          region_str <- format_size region_total ;;
          w <- foldM (walk_step use_vma region_total) all_sections
                 {| prev_end := region_start; total_used := 0;
                    total_gaps := 0; printed := [] |} ;;
          used_str <- format_size (total_used w) ;;
          gaps_str <- format_size (total_gaps w) ;;
          Ok (Layout {| region_start := region_start;
                        region_end := region_end;
                        region_total := region_total;
                        region_str := region_str;
                        lines := printed w;
                        used := total_used w; used_str := used_str;
                        gaps := total_gaps w; gaps_str := gaps_str |})
      end
  end.

End Visualizer.

(** ** What a match means

    [denote r pre w post c c']: the pattern [r] takes the text [w] out of
    [pre ++ w ++ post], between [pre] and [post], and turns the groups [c]
    into [c']. *)

Module ReSpec.

Definition all (p : ascii -> bool) (w : str) : Prop :=
  Forall (fun a => p a = true) w.

Fixpoint denote (r : regex) (pre w post : str) (c c' : captures) : Prop :=
  match r with
  | Bol => w = [] /\ pre = [] /\ c' = c
  | Eol => w = [] /\ (post = [] \/ post = [nl]) /\ c' = c
  | Lit l => w = l /\ c' = c
  | Chr p => (exists a, w = [a] /\ p a = true) /\ c' = c
  | Star p => all p w /\ c' = c
  | Plus p => (w <> [] /\ all p w) /\ c' = c
  | Grp n r1 => exists c1, denote r1 pre w post c c1 /\ c' = (n, w) :: c1
  | Cat r1 r2 =>
      exists w1 w2 c1,
        w = w1 ++ w2
        /\ denote r1 pre w1 (w2 ++ post) c c1
        /\ denote r2 (pre ++ w1) w2 post c1 c'
  end.

(** anything but white space *)
Definition non_space (c : ascii) : bool := negb (is_space c).

(** the text [r] does not go on with a character of the class [p] *)
Definition stops (p : ascii -> bool) (r : str) : Prop :=
  match r with
  | [] => True
  | c :: _ => p c = false
  end.

(** [\s+] *)
Definition spaces (w : str) : Prop := w <> [] /\ all is_space w.

(** NAME *)
Definition section_name (w : str) : Prop :=
  exists a b, w = str_of "." ++ a ++ b
              /\ a <> [] /\ all is_word a /\ all is_word_or_dot b.

(** HEX *)
Definition hex_number (w : str) : Prop :=
  exists ds, w = str_of "0x" ++ ds /\ ds <> [] /\ all is_hex ds.

End ReSpec.

Import ReSpec.

(** ** Reading a line

    [header line name i]: the header pattern matches [line] and the code
    reads the section [name] with the addresses and the size [i] from it.
    [sub_entry line e]: the sub-entry pattern matches [line] and the code
    reads the item [e] from it. *)

Module Lines.

Import MapFileParser.

Definition header (line : str) (name : str) (i : info.t) : Prop :=
  exists m,
    re_match main_section_re line = Some m
    /\ group m 1 = Some name
    /\ group_int m 2 = Ok (info.vma i)
    /\ group_int m 3 = Ok (info.size i)
    /\ load_address line (info.vma i) = Ok (info.lma i).

Definition sub_entry (line : str) (e : item.t) : Prop :=
  exists m rest,
    re_match symbol_re line = Some m
    /\ group m 1 = Some (item.subsection e)
    /\ group_int m 2 = Ok (item.address e)
    /\ group_int m 3 = Ok (item.size e)
    /\ group m 4 = Some rest
    /\ item.file e = strip rest.

(** a line written with its newline *)
Definition ln (x : string) : str := str_of x ++ [nl].

(** every value of a dictionary *)
Definition all_values {V} (Q : V -> Prop) (d : Py.dict V) : Prop :=
  Forall (fun kv => Q (snd kv)) d.

(** the bytes that the items of a list attribute to the file [f] *)
Definition file_total (f : str) (items : list item.t) : Z :=
  Py.sum (map item.size
            (filter (fun it => str_eqb (item.file it) f) items)).

(** some item of the list is attributed to the file [f] *)
Definition has_file (f : str) (items : list item.t) : bool :=
  existsb (fun it => str_eqb (item.file it) f) items.

(** the model holds the item [e] under the section [name] *)
Definition holds_item (name : str) (e : item.t) (self : MapFileParser.t)
  : Prop :=
  exists items, Py.get name (sections self) = Some items /\ In e items.

(** no address of the address information is below zero *)
Definition nonneg_addresses (self : t) : Prop :=
  all_values (fun i => 0 <= info.vma i /\ 0 <= info.lma i)
    (section_addresses self).

(** the address ranges end below 2^960, in both kinds of address, and
    the sizes add up to less than 2^960 *)
Definition within_range (self : t) : Prop :=
  all_values (fun i => info.vma i + info.size i < 2 ^ 960
                       /\ info.lma i + info.size i < 2 ^ 960)
    (section_addresses self)
  /\ Py.sum (map info.size (Py.values (section_addresses self))) < 2 ^ 960.

(** every size the model holds is above zero *)
Definition positive_sizes (self : t) : Prop :=
  all_values (fun v => 0 < v) (total_sizes self)
  /\ all_values (fun i => 0 < info.size i) (section_addresses self)
  /\ all_values (Forall (fun e => 0 < item.size e)) (sections self).

End Lines.

Import Lines.

(** ** The memory map, line by line *)

Module LayoutSpec.

Import Visualizer.

(** a line of the memory map without its texts *)
Inductive plain_line :=
| PGap (from to gap_size : Z)
| PSec (sec : section) (other : option other_address).

Definition plain (l : layout_line) : plain_line :=
  match l with
  | Gap from to gap_size _ _ => PGap from to gap_size
  | Sec sec _ o _ => PSec sec o
  end.

(** what is printed before the section [sec] when the section before it
    ended at [prev] *)
Definition gap_before (prev : Z) (sec : section) : list plain_line :=
  if prev <? start sec then [PGap prev (start sec) (start sec - prev)] else [].

(** the lines of the sections [secs], the one before them ending at
    [prev] *)
Fixpoint walk_lines (use_vma : bool) (prev : Z) (secs : list section)
  : list plain_line :=
  match secs with
  | [] => []
  | sec :: rest =>
      gap_before prev sec
      ++ PSec sec (other use_vma sec) :: walk_lines use_vma (end_ sec) rest
  end.

(** a section of a parsed model whose range ends below 2^960 *)
Definition small_section (sec : section) : Prop :=
  0 <= start sec /\ 0 < size sec /\ end_ sec = start sec + size sec
  /\ end_ sec < 2 ^ 960.

(** the sizes of the gaps among some lines *)
Fixpoint gap_sizes (ls : list plain_line) : list Z :=
  match ls with
  | [] => []
  | PGap _ _ g :: ls' => g :: gap_sizes ls'
  | PSec _ _ :: ls' => gap_sizes ls'
  end.

End LayoutSpec.

Import LayoutSpec.

(** ** Bounds on binary64 values *)

Module F64Spec.

Import F64.

(** some bit was shifted out of the record *)
Definition inexact (mrs : shr_record) : bool := (shr_r mrs || shr_s mrs)%bool.

(** the least integer that is not below what the record stands for *)
Definition upper (mrs : shr_record) : Z :=
  if inexact mrs then shr_m mrs + 1 else shr_m mrs.

(** the record, read at exponent [e], stands for at most [u * 2 ^ k] *)
Definition below (u k : Z) (mrs : shr_record) (e : Z) : Prop :=
  0 <= shr_m mrs /\ e <= k /\ upper mrs <= u * 2 ^ (k - e).

(** [x] is zero or a positive number of at most [u * 2 ^ k] *)
Definition at_most (u k : Z) (x : float) : Prop :=
  match x with
  | S754_zero _ => True
  | S754_finite false m e => e <= k /\ Zpos m <= u * 2 ^ (k - e)
  | _ => False
  end.

(** 1.0, 40.0 and 100.0 *)
Definition one : float := S754_finite false 4503599627370496 (-52).
Definition forty : float := S754_finite false 5629499534213120 (-47).
Definition hundred : float := S754_finite false 7036874417766400 (-46).

(** [round(a * w / b)] on the exact quotient, ties to even, for [b > 0]:
    the width the specification gives the bar *)
Definition round_exact (a w b : Z) : Z :=
  let q := (a * w) / b in
  let r := (a * w) mod b in
  if 2 * r <? b then q
  else if b <? 2 * r then q + 1
  else if Z.even q then q else q + 1.

End F64Spec.

Import F64Spec.

(** ** Sample inputs *)

Module Samples.

(** the end-to-end example of the specification *)
Definition text_ab : str :=
  ln ".text 0x00280180 0x000000a0"
  ++ ln "  .text.foo 0x00280180 0x00000050 a.o"
  ++ ln "  .text.bar 0x002801d0 0x00000050 b.o".

(** a header of size zero with one sub-entry under it *)
Definition zero_header : list str :=
  [ln ".bss 0x20000000 0x0"; ln " .bss.buf 0x20000000 0x20 a.o"].

(** the same section name twice, the second time with size zero *)
Definition twice : list str :=
  [ln ".text 0x0 0x10"; ln ".text 0x100 0x0"].

(** the same section name three times, with sizes 16, 32 and 0 *)
Definition thrice : list str :=
  [ln ".text 0x0 0x10"; ln ".text 0x100 0x20"; ln ".text 0x200 0x0"].

(** an indented line with two blanks after the size *)
Definition blank_file : list str :=
  [ln ".text 0x0 0x20"; ln " .text 0x0 0x10  "].

(** two sections, [0, 100) and [150, 200) *)
Definition two_ranges : list str := [ln ".a 0x0 0x64"; ln ".b 0x96 0x32"].

(** three sections, [0, 100), [10, 20) and [50, 60) *)
Definition overlapping : list str :=
  [ln ".a 0x0 0x64"; ln ".b 0xa 0xa"; ln ".c 0x32 0xa"].

(** two sections of sizes 3 and 2 *)
Definition thirds : list str := [ln ".a 0x0 0x3"; ln ".b 0x10 0x2"].

(** two sections of sizes 2^60 and 2^60 - 1 *)
Definition huge : list str :=
  [ln ".a 0x0 0x1000000000000000"; ln ".b 0x0 0xfffffffffffffff"].

(** the model that [parse] builds from some lines *)
Definition model (lines : list str) : MapFileParser.t :=
  match MapFileParser.parse lines with
  | Ok p => p
  | Raise _ => MapFileParser.init
  end.

End Samples.

(** ** Addresses as the reports print them

    [f"0x{n:08x}"]: the digits of [n] in lower case, filled with zeros to
    eight places; a minus sign takes one of the places and stands before
    the zeros. *)

Module Hex.

Definition digit (d : Z) : ascii :=
  ascii_of_N (Z.to_N (if d <? 10 then 48 + d else 87 + d)).

(** the digits of [n > 0], put before [acc] *)
Fixpoint digits_from (fuel : nat) (n : Z) (acc : str) : str :=
  match fuel with
  | O => acc
  | S fuel' =>
      let acc' := digit (n mod 16) :: acc in
      if n / 16 =? 0 then acc' else digits_from fuel' (n / 16) acc'
  end.

(** [format(n, 'x')] for [n >= 0] *)
Definition format_x (n : Z) : str :=
  if n =? 0 then str_of "0"
  else digits_from (S (Z.to_nat (Z.log2 n))) n [].

Definition zfill (width : nat) (x : str) : str :=
  repeat "0"%char (width - length x) ++ x.

(** [format(n, '08x')] *)
Definition format_08x (n : Z) : str :=
  if n <? 0 then "-"%char :: zfill 7 (format_x (- n))
  else zfill 8 (format_x n).

(** [f"0x{n:08x}"] *)
Definition addr_str (n : Z) : str := str_of "0x" ++ format_08x n.

End Hex.

(** ** The program *)

Module Program.

Import MapFileParser Visualizer.

(** [main], from the lines of the map file: the model is parsed, then
    the summary and the memory map of the runtime addresses are
    printed. *)
Definition main (lines : list str)
  : result (summary_report * layout_report) :=
  map_parser <- parse lines ;;
  summary <- print_section_summary map_parser ;;
  memory_map <- print_memory_map map_parser true ;;
  Ok (summary, memory_map).

End Program.

(** ** Words for the properties of the parser and the reports *)

Module Shapes.

Import MapFileParser Visualizer LayoutSpec.

(** [x.find(w)]: where the text [w] first stands in [x] *)
Fixpoint str_find (w x : str) : option nat :=
  if startswith x w then Some 0%nat
  else match x with
       | [] => None
       | _ :: x' => option_map S (str_find w x')
       end.

(** the text before a load address *)
Definition load_text : str := str_of "load address ".

(** the keys of a list in the order in which they are first seen *)
Fixpoint first_seen (l : list str) : list str :=
  match l with
  | [] => []
  | k :: l' => k :: filter (fun k' => negb (str_eqb k' k)) (first_seen l')
  end.

(** an item as the sub-entry pattern and [strip] leave it: a name, an
    address that is not negative, and a file without a newline and
    without white space at either end *)
Definition tidy_item (e : item.t) : Prop :=
  section_name (item.subsection e)
  /\ 0 <= item.address e
  /\ stops is_space (item.file e)
  /\ stops is_space (rev (item.file e))
  /\ all not_newline (item.file e).

(** the bytes by which the sections of a walk start below the end of the
    section before them, [prev] being the end before the first *)
Fixpoint overlap (prev : Z) (secs : list section) : Z :=
  match secs with
  | [] => 0
  | sec :: rest => Z.max 0 (prev - start sec) + overlap (end_ sec) rest
  end.

(** a line of the memory map is drawn for the span [region_total]: its
    size text is what [format_size] gives, and its bar has the cells
    that [cells] gives, from 1 to 40 dots for a gap and from 1 to 60
    hashes for a section *)
Definition drawn (region_total : Z) (line : layout_line) : Prop :=
  match line with
  | Gap _ _ gap_size gap_str gap_bar =>
      format_size gap_size = Ok gap_str
      /\ exists k, cells 40 gap_size region_total = Ok k /\ 1 <= k <= 40
                   /\ gap_bar = Py.repeat_chr "." k
  | Sec sec size_str _ bar =>
      format_size (size sec) = Ok size_str
      /\ exists k, cells 60 (size sec) region_total = Ok k /\ 1 <= k <= 60
                   /\ bar = Py.repeat_chr "#" k
  end.

(** the sections among the lines of a memory map, in their order *)
Fixpoint shown_sections (ls : list plain_line) : list section :=
  match ls with
  | [] => []
  | PGap _ _ _ :: ls' => shown_sections ls'
  | PSec sec _ :: ls' => sec :: shown_sections ls'
  end.

End Shapes.

(** * Proofs *)

(** ** The matcher is sound for [denote] *)

Lemma str_eqb_eq (a b : str) : str_eqb a b = true <-> a = b.
Proof.
  revert b; induction a as [|x a IH]; intros [|y b]; simpl;
    try (split; congruence).
  rewrite andb_true_iff, Ascii.eqb_eq, IH. split.
  - intros [-> ->]; reflexivity.
  - intros H; injection H; auto.
Qed.

Lemma str_eqb_refl (a : str) : str_eqb a a = true.
Proof. apply str_eqb_eq; reflexivity. Qed.

Lemma str_eqb_neq (a b : str) : str_eqb a b = false <-> a <> b.
Proof.
  rewrite <- str_eqb_eq. destruct (str_eqb a b); split; congruence.
Qed.

Lemma startswith_app (x p : str) :
  startswith x p = true -> x = p ++ skipn (length p) x.
Proof.
  revert x; induction p as [|c p IH]; intros x H; simpl in *.
  - reflexivity.
  - destruct x as [|d x]; [discriminate|].
    apply andb_true_iff in H as [Hc Hp].
    apply Ascii.eqb_eq in Hc; subst d. simpl. f_equal. apply IH, Hp.
Qed.

Lemma firstn_consumed {A} (w x' : list A) :
  firstn (length (w ++ x') - length x') (w ++ x') = w.
Proof.
  rewrite length_app, Nat.add_sub.
  rewrite firstn_app, Nat.sub_diag, firstn_all. simpl. apply app_nil_r.
Qed.

Lemma greedy_sound {R} (p : ascii -> bool) (k : str -> option R) x res :
  greedy p k x = Some res ->
  exists w x', x = w ++ x' /\ all p w /\ k x' = Some res.
Proof.
  induction x as [|c x IH]; simpl; intros H.
  - exists [], []. repeat split; auto. constructor.
  - destruct (p c) eqn:Hc.
    + destruct (greedy p k x) as [r|].
      * destruct (IH H) as (w & x' & -> & Hw & Hk).
        exists (c :: w), x'. repeat split; auto. constructor; auto.
      * exists [], (c :: x). repeat split; auto. constructor.
    + exists [], (c :: x). repeat split; auto. constructor.
Qed.

Lemma run_sound {R} (subject : str) (r : regex) :
  forall pre x caps (k : str -> captures -> option R) res,
    subject = pre ++ x ->
    run subject r x caps k = Some res ->
    exists w x' caps',
      x = w ++ x' /\ denote r pre w x' caps caps' /\ k x' caps' = Some res.
Proof.
  induction r as [| |l|p|p|p|n r1 IH1|r1 IH1 r2 IH2];
    intros pre x caps k res Hs H; simpl in H.
  - destruct (Nat.eqb (length x) (length subject)) eqn:E; [|discriminate].
    apply Nat.eqb_eq in E. rewrite Hs, length_app in E.
    assert (pre = []) by (destruct pre; simpl in E; [reflexivity|lia]).
    exists [], x, caps. simpl. repeat split; auto.
  - destruct x as [|c [|d x]]; try discriminate.
    + exists [], [], caps. simpl. repeat split; auto.
    + destruct (is_code 10 c) eqn:E; [|discriminate].
      apply N.eqb_eq in E. unfold code in E.
      assert (c = nl).
      { rewrite <- (ascii_N_embedding c), E. reflexivity. }
      subst c. exists [], [nl], caps. simpl. repeat split; auto.
  - destruct (startswith x l) eqn:E; [|discriminate].
    exists l, (skipn (length l) x), caps. simpl.
    repeat split; auto. apply startswith_app, E.
  - destruct x as [|c x]; [discriminate|].
    destruct (p c) eqn:E; [|discriminate].
    exists [c], x, caps. simpl. repeat split; eauto.
  - apply greedy_sound in H as (w & x' & -> & Hw & Hk).
    exists w, x', caps. simpl. repeat split; auto.
  - destruct x as [|c x]; [discriminate|].
    destruct (p c) eqn:E; [|discriminate].
    apply greedy_sound in H as (w & x' & -> & Hw & Hk).
    exists (c :: w), x', caps. simpl. repeat split; auto.
    + discriminate.
    + constructor; auto.
  - apply (IH1 pre) in H as (w & x' & c1 & -> & Hd & Hk); [|assumption].
    rewrite firstn_consumed in Hk.
    exists w, x', ((n, w) :: c1). simpl. repeat split; eauto.
  - apply (IH1 pre) in H as (w1 & x1 & c1 & -> & Hd1 & H); [|assumption].
    apply (IH2 (pre ++ w1)) in H as (w2 & x2 & c2 & -> & Hd2 & Hk);
      [|rewrite <- app_assoc; assumption].
    exists (w1 ++ w2), x2, c2. rewrite <- app_assoc.
    repeat split; auto. simpl. exists w1, w2, c1. auto.
Qed.

Lemma re_match_sound (r : regex) (x : str) (m : captures) :
  re_match r x = Some m ->
  exists w post, x = w ++ post /\ denote r [] w post [] m.
Proof.
  unfold re_match. intros H.
  apply (run_sound x r []) in H as (w & x' & c & -> & Hd & Hk);
    [|reflexivity].
  injection Hk as <-. eauto.
Qed.

Lemma search_from_sound (subject : str) (r : regex) (m : captures) :
  forall pre x,
    subject = pre ++ x ->
    search_from subject r x = Some m ->
    exists pre' w post, subject = pre' ++ w ++ post
                        /\ denote r pre' w post [] m.
Proof.
  intros pre x; revert pre; induction x as [|c x IH]; intros pre Hs H;
    simpl in H.
  - destruct (run subject r [] [] _) eqn:E; [|discriminate].
    injection H as ->.
    apply (run_sound subject r pre) in E as (w & x' & c & Hx & Hd & Hk);
      [|assumption].
    injection Hk as <-. exists pre, w, x'. rewrite <- Hx. auto.
  - destruct (run subject r (c :: x) [] _) eqn:E.
    + injection H as ->.
      apply (run_sound subject r pre) in E as (w & x' & c' & Hx & Hd & Hk);
        [|assumption].
      injection Hk as <-. exists pre, w, x'. rewrite <- Hx. auto.
    + apply (IH (pre ++ [c])); [|assumption].
      rewrite <- app_assoc. assumption.
Qed.

Lemma re_search_sound (r : regex) (x : str) (m : captures) :
  re_search r x = Some m ->
  exists pre w post, x = pre ++ w ++ post /\ denote r pre w post [] m.
Proof. apply (search_from_sound x r m []). reflexivity. Qed.

(** ** What the three patterns accept *)

Import MapFileParser.

Lemma name_re_denote pre w post c c' :
  denote name_re pre w post c c' -> c' = c /\ section_name w.
Proof.
  unfold name_re. simpl.
  intros (w1 & w2 & c1 & -> & [-> ->] & (w3 & w4 & c2 & -> & [[Hn Ha] ->]
          & [Hb ->])).
  split; [reflexivity|]. exists w3, w4. auto.
Qed.

Lemma hex_re_denote pre w post c c' :
  denote hex_re pre w post c c' -> c' = c /\ hex_number w.
Proof.
  unfold hex_re. simpl.
  intros (w1 & w2 & c1 & -> & [-> ->] & [[Hn Ha] ->]).
  split; [reflexivity|]. exists w2. auto.
Qed.

Lemma main_section_sound (line : str) (m : captures) :
  re_match main_section_re line = Some m ->
  exists nm ws1 a ws2 sz rest,
    line = nm ++ ws1 ++ a ++ ws2 ++ sz ++ rest
    /\ section_name nm /\ spaces ws1 /\ hex_number a /\ spaces ws2
    /\ hex_number sz
    /\ m = [(3%nat, sz); (2%nat, a); (1%nat, nm)].
Proof.
  intros H. apply re_match_sound in H as (w & post & -> & H).
  unfold main_section_re in H. cbn [denote] in H.
  destruct H as (w0 & t1 & c0 & -> & (-> & _ & ->) & H).
  destruct H as (nm & t2 & c1 & -> & (c1' & Hnm & ->) & H).
  apply name_re_denote in Hnm as [-> Hnm].
  destruct H as (ws1 & t3 & c2 & -> & [Hws1 ->] & H).
  destruct H as (a & t4 & c3 & -> & (c3' & Ha & ->) & H).
  apply hex_re_denote in Ha as [-> Ha].
  destruct H as (ws2 & sz & c4 & -> & [Hws2 ->] & (c4' & Hsz & ->)).
  apply hex_re_denote in Hsz as [-> Hsz].
  exists nm, ws1, a, ws2, sz, post. simpl.
  repeat rewrite <- app_assoc. repeat split; auto; apply Hws1 || apply Hws2.
Qed.

Lemma symbol_sound (line : str) (m : captures) :
  re_match symbol_re line = Some m ->
  exists ind nm ws1 a ws2 sz ws3 rest tail,
    line = ind ++ nm ++ ws1 ++ a ++ ws2 ++ sz ++ ws3 ++ rest ++ tail
    /\ spaces ind /\ section_name nm /\ spaces ws1 /\ hex_number a
    /\ spaces ws2 /\ hex_number sz /\ spaces ws3
    /\ rest <> [] /\ all not_newline rest
    /\ (tail = [] \/ tail = [nl])
    /\ m = [(4%nat, rest); (3%nat, sz); (2%nat, a); (1%nat, nm)].
Proof.
  intros H. apply re_match_sound in H as (w & post & -> & H).
  unfold symbol_re in H. cbn [denote] in H.
  destruct H as (w0 & t5 & c0 & -> & (-> & _ & ->) & H).
  destruct H as (ind & t6 & c1 & -> & [Hind ->] & H).
  destruct H as (nm & t7 & c2 & -> & (c2' & Hnm & ->) & H).
  apply name_re_denote in Hnm as [-> Hnm].
  destruct H as (ws1 & t8 & c3 & -> & [Hws1 ->] & H).
  destruct H as (a & t9 & c4 & -> & (c4' & Ha & ->) & H).
  apply hex_re_denote in Ha as [-> Ha].
  destruct H as (ws2 & t10 & c5 & -> & [Hws2 ->] & H).
  destruct H as (sz & t11 & c6 & -> & (c6' & Hsz & ->) & H).
  apply hex_re_denote in Hsz as [-> Hsz].
  destruct H as (ws3 & t12 & c7 & -> & [Hws3 ->] & H).
  destruct H as (rest & t13 & c8 & -> & (c8' & [Hrest ->] & ->)
                 & (-> & Htail & ->)).
  exists ind, nm, ws1, a, ws2, sz, ws3, rest, post. simpl.
  rewrite app_nil_r. repeat rewrite <- app_assoc.
  destruct Hrest as [Hne Hall].
  repeat split; auto;
    apply Hind || apply Hws1 || apply Hws2 || apply Hws3.
Qed.

Lemma load_sound (line : str) (m : captures) :
  re_search load_re line = Some m ->
  exists pre h post,
    line = pre ++ str_of "load address " ++ h ++ post
    /\ hex_number h /\ m = [(1%nat, h)].
Proof.
  intros H. apply re_search_sound in H as (pre & w & post & -> & H).
  unfold load_re in H. cbn [denote] in H.
  destruct H as (w1 & h & c1 & -> & [-> ->] & (c1' & Hh & ->)).
  apply hex_re_denote in Hh as [-> Hh].
  exists pre, h, post. rewrite <- app_assoc. auto.
Qed.

(** ** Reading a number and a line never fails *)

Lemma hex_digit_ok (c : ascii) :
  is_hex c = true -> exists d, hex_digit c = Some d /\ 0 <= d < 16.
Proof.
  unfold is_hex, hex_digit, between. intros H.
  destruct (N.leb 48 (code c) && N.leb (code c) 57)%bool eqn:E1.
  { apply andb_true_iff in E1 as [A B]. apply N.leb_le in A, B.
    eexists; split; [reflexivity|lia]. }
  destruct (N.leb 97 (code c) && N.leb (code c) 102)%bool eqn:E2.
  { apply andb_true_iff in E2 as [A B]. apply N.leb_le in A, B.
    eexists; split; [reflexivity|lia]. }
  destruct (N.leb 65 (code c) && N.leb (code c) 70)%bool eqn:E3.
  { apply andb_true_iff in E3 as [A B]. apply N.leb_le in A, B.
    eexists; split; [reflexivity|lia]. }
  discriminate.
Qed.

Lemma hex_digits_ok (ds : str) :
  all is_hex ds ->
  forall acc, 0 <= acc -> exists v, hex_digits acc ds = Some v /\ 0 <= v.
Proof.
  induction 1 as [|c ds Hc _ IH]; intros acc Hacc; cbn [hex_digits].
  - eauto.
  - destruct (hex_digit_ok c Hc) as (d & -> & Hd). apply IH. lia.
Qed.

Lemma int16_hex (w : str) :
  hex_number w -> exists v, int16 w = Ok v /\ 0 <= v.
Proof.
  intros (ds & -> & Hne & Hds).
  destruct ds as [|d ds]; [congruence|].
  destruct (hex_digits_ok (d :: ds) Hds 0) as (v & Hv & Hpos); [lia|].
  exists v. split; [|assumption].
  change (int16 (str_of "0x" ++ d :: ds))
    with (match hex_digits 0 (d :: ds) with
          | Some v => Ok v
          | None => @Raise Z ValueError
          end).
  rewrite Hv. reflexivity.
Qed.

Lemma section_name_not_nil (w : str) : section_name w -> w <> [].
Proof. intros (a & b & -> & _). discriminate. Qed.

Lemma section_name_starts (w rest : str) :
  section_name w -> startswith (w ++ rest) (str_of " ") = false.
Proof. intros (a & b & -> & _). reflexivity. Qed.

Lemma main_match_header (line : str) (m : captures) :
  re_match main_section_re line = Some m ->
  exists name i,
    header line name i /\ group m 1 = Some name
    /\ group_int m 2 = Ok (info.vma i) /\ group_int m 3 = Ok (info.size i)
    /\ load_address line (info.vma i) = Ok (info.lma i)
    /\ name <> [] /\ 0 <= info.size i
    /\ startswith line (str_of " ") = false.
Proof.
  intros H. pose proof H as H0.
  apply main_section_sound in H
    as (nm & ws1 & a & ws2 & sz & rest & Hl & Hnm & _ & Ha & _ & Hsz & ->).
  destruct (int16_hex a Ha) as (va & Hva & _).
  destruct (int16_hex sz Hsz) as (vs & Hvs & Hpos).
  assert (Hload : exists l, load_address line va = Ok l).
  { unfold load_address. destruct (re_search load_re line) as [lm|] eqn:E.
    - apply load_sound in E as (pre & h & post & _ & Hh & ->).
      destruct (int16_hex h Hh) as (vl & Hvl & _).
      exists vl. unfold group_int, group_text. simpl. assumption.
    - eauto. }
  destruct Hload as (l & Hload).
  assert (G2 : group_int [(3%nat, sz); (2%nat, a); (1%nat, nm)] 2 = Ok va)
    by (unfold group_int, group_text; simpl; assumption).
  assert (G3 : group_int [(3%nat, sz); (2%nat, a); (1%nat, nm)] 3 = Ok vs)
    by (unfold group_int, group_text; simpl; assumption).
  exists nm, {| info.vma := va; info.lma := l; info.size := vs |}. simpl.
  repeat split; auto.
  - eexists. simpl. repeat split; eauto.
  - apply section_name_not_nil, Hnm.
  - rewrite Hl. apply section_name_starts, Hnm.
Qed.

Lemma symbol_match_sub_entry (line : str) (m : captures) :
  re_match symbol_re line = Some m ->
  exists e rest,
    sub_entry line e /\ group m 1 = Some (item.subsection e)
    /\ group_int m 2 = Ok (item.address e)
    /\ group_int m 3 = Ok (item.size e)
    /\ group m 4 = Some rest /\ item.file e = strip rest.
Proof.
  intros H. pose proof H as H0.
  apply symbol_sound in H
    as (ind & nm & ws1 & a & ws2 & sz & ws3 & rest & tail & _ & _ & _ & _
        & Ha & _ & Hsz & _ & _ & _ & _ & ->).
  destruct (int16_hex a Ha) as (va & Hva & _).
  destruct (int16_hex sz Hsz) as (vs & Hvs & _).
  exists {| item.subsection := nm; item.address := va; item.size := vs;
            item.file := strip rest |}, rest.
  assert (G2 : group_int [(4%nat, rest); (3%nat, sz); (2%nat, a); (1%nat, nm)]
                 2 = Ok va)
    by (unfold group_int, group_text; simpl; assumption).
  assert (G3 : group_int [(4%nat, rest); (3%nat, sz); (2%nat, a); (1%nat, nm)]
                 3 = Ok vs)
    by (unfold group_int, group_text; simpl; assumption).
  simpl. repeat split; auto.
  eexists _, rest. simpl. repeat split; eauto.
Qed.

(** A line cannot match both patterns: one starts with a dot, the other
    with white space. *)
Lemma symbol_not_main (line : str) (m : captures) :
  re_match symbol_re line = Some m -> re_match main_section_re line = None.
Proof.
  intros H. destruct (re_match main_section_re line) as [m'|] eqn:E;
    [|reflexivity].
  apply symbol_sound in H as (ind & nm & ws1 & a & ws2 & sz & ws3 & rest
                              & tail & -> & [Hne Hsp] & _).
  apply main_section_sound in E
    as (nm' & ws1' & a' & ws2' & sz' & rest' & Hl & (x & y & -> & _) & _).
  destruct ind as [|c ind]; [congruence|].
  inversion Hsp as [|? ? Hc _]; subst.
  simpl in Hl. injection Hl as -> _. discriminate.
Qed.


(** ** One line, the three ways it is read *)

Lemma group_text_some (m : captures) (n : nat) (w : str) :
  group m n = Some w -> group_text m n = Ok w.
Proof. unfold group_text. intros ->. reflexivity. Qed.

Lemma parse_line_header self cur line name i :
  header line name i ->
  parse_line (self, cur) line = Ok (store_section self name i, Some name).
Proof.
  intros (m & Hm & G1 & G2 & G3 & Hl).
  destruct (main_match_header line m Hm) as (? & ? & _ & _ & _ & _ & _ & _ & _ & Hs).
  unfold parse_line. rewrite Hm, Hs. simpl negb. cbv iota.
  unfold parse_header. rewrite (group_text_some _ _ _ G1), G2, G3. simpl.
  rewrite Hl. simpl. destruct i; reflexivity.
Qed.

Lemma parse_line_sub_entry self cur line name e :
  truthy cur = Some name ->
  sub_entry line e ->
  parse_line (self, cur) line = Ok (store_item self name e, cur).
Proof.
  intros Hcur (m & rest & Hm & G1 & G2 & G3 & G4 & Hf).
  unfold parse_line. rewrite (symbol_not_main line m Hm).
  unfold parse_symbol. rewrite Hcur, Hm.
  rewrite (group_text_some _ _ _ G1), G2, G3, (group_text_some _ _ _ G4).
  simpl. rewrite <- Hf. destruct e; reflexivity.
Qed.

Lemma parse_line_cases self cur line :
  (exists name i,
      header line name i /\ name <> [] /\ 0 <= info.size i
      /\ parse_line (self, cur) line
         = Ok (store_section self name i, Some name))
  \/ (exists name e,
         truthy cur = Some name /\ sub_entry line e
         /\ re_match main_section_re line = None
         /\ parse_line (self, cur) line = Ok (store_item self name e, cur))
  \/ (re_match main_section_re line = None
      /\ (truthy cur = None \/ re_match symbol_re line = None)
      /\ parse_line (self, cur) line = Ok (self, cur)).
Proof.
  destruct (re_match main_section_re line) as [m|] eqn:Hm.
  - left. destruct (main_match_header line m Hm)
      as (name & i & Hh & _ & _ & _ & _ & Hne & Hpos & _).
    exists name, i. repeat split; auto. apply parse_line_header, Hh.
  - right. destruct (truthy cur) as [name|] eqn:Hcur.
    + destruct (re_match symbol_re line) as [m|] eqn:Hs.
      * left. destruct (symbol_match_sub_entry line m Hs)
          as (e & rest & He & _).
        exists name, e. repeat split; auto.
        apply parse_line_sub_entry; assumption.
      * right. repeat split; auto.
        unfold parse_line, parse_symbol. rewrite Hm, Hcur, Hs. reflexivity.
    + right. repeat split; auto.
      unfold parse_line, parse_symbol. rewrite Hm, Hcur. reflexivity.
Qed.

Lemma parse_line_total st line : exists st', parse_line st line = Ok st'.
Proof.
  destruct st as [self cur].
  destruct (parse_line_cases self cur line)
    as [(? & ? & _ & _ & _ & ->)|[(? & ? & _ & _ & _ & ->)|(_ & _ & ->)]];
    eauto.
Qed.

(** ** The loop *)

Lemma parse_loop_app l1 : forall st l2,
  parse_loop st (l1 ++ l2) = (st' <- parse_loop st l1 ;; parse_loop st' l2).
Proof.
  induction l1 as [|line l1 IH]; intros st l2; simpl.
  - reflexivity.
  - destruct (parse_line st line) as [st'|e]; simpl; auto.
Qed.

Lemma parse_loop_total lines : forall st, exists st', parse_loop st lines = Ok st'.
Proof.
  induction lines as [|line lines IH]; intros st; simpl.
  - eauto.
  - destruct (parse_line_total st line) as (st' & ->). simpl. apply IH.
Qed.

Lemma parse_total lines : exists p, parse lines = Ok p.
Proof.
  unfold parse. destruct (parse_loop_total lines (init, None)) as (st & ->).
  simpl. eauto.
Qed.

Lemma parse_loop_invariant (P : t * option str -> Prop) :
  (forall st line st', P st -> parse_line st line = Ok st' -> P st') ->
  forall lines st st', P st -> parse_loop st lines = Ok st' -> P st'.
Proof.
  intros Hstep. induction lines as [|line lines IH]; intros st st' HP H;
    simpl in H.
  - injection H as <-. assumption.
  - destruct (parse_line st line) as [st1|e] eqn:E; [|discriminate].
    simpl in H. eapply IH; [|eassumption]. eapply Hstep; eassumption.
Qed.

Lemma parse_loop_of_parse lines p :
  parse lines = Ok p -> exists cur, parse_loop (init, None) lines = Ok (p, cur).
Proof.
  unfold parse. destruct (parse_loop (init, None) lines) as [[p' cur]|e];
    simpl; [|discriminate].
  intros H; injection H as <-. eauto.
Qed.

(** ** Dictionaries *)

Lemma all_values_set {V} (Q : V -> Prop) k v (d : Py.dict V) :
  all_values Q d -> Q v -> all_values Q (Py.set k v d).
Proof.
  unfold all_values. intros Hd Hv.
  induction d as [|[k' v'] d IH]; simpl.
  - constructor; auto.
  - inversion Hd; subst. destruct (str_eqb k k'); constructor; auto.
Qed.

Lemma all_values_get {V} (Q : V -> Prop) k v (d : Py.dict V) :
  all_values Q d -> Py.get k d = Some v -> Q v.
Proof.
  unfold all_values. intros Hd.
  induction d as [|[k' v'] d IH]; simpl; [discriminate|].
  inversion Hd; subst. destruct (str_eqb k k').
  - intros H; injection H as <-. assumption.
  - auto.
Qed.

Lemma get_set_same {V} k v (d : Py.dict V) : Py.get k (Py.set k v d) = Some v.
Proof.
  induction d as [|[k' v'] d IH]; simpl.
  - rewrite str_eqb_refl. reflexivity.
  - destruct (str_eqb k k') eqn:E; simpl; rewrite E; auto.
Qed.

Lemma get_set_other {V} k k' v (d : Py.dict V) :
  k' <> k -> Py.get k' (Py.set k v d) = Py.get k' d.
Proof.
  intros Hne. apply str_eqb_neq in Hne.
  induction d as [|[k1 v1] d IH]; simpl.
  - rewrite Hne. reflexivity.
  - destruct (str_eqb k k1) eqn:E; simpl.
    + apply str_eqb_eq in E; subst k1. rewrite Hne. reflexivity.
    + rewrite IH. reflexivity.
Qed.

(** ** Sizes of a parsed model *)

Lemma positive_sizes_init : positive_sizes init.
Proof. repeat split; constructor. Qed.

Lemma positive_sizes_store_section self name i :
  positive_sizes self -> positive_sizes (store_section self name i).
Proof.
  intros (Ht & Ha & Hs). unfold store_section.
  destruct (0 <? info.size i) eqn:E; [|repeat split; assumption].
  apply Z.ltb_lt in E. repeat split; simpl; auto using all_values_set.
Qed.

Lemma positive_sizes_store_item self name e :
  positive_sizes self -> positive_sizes (store_item self name e).
Proof.
  intros (Ht & Ha & Hs). unfold store_item.
  destruct (0 <? item.size e) eqn:E; [|repeat split; assumption].
  apply Z.ltb_lt in E. repeat split; simpl; auto.
  apply all_values_set; [assumption|].
  apply Forall_app. split; [|constructor; auto].
  unfold Py.get_default.
  destruct (Py.get name (sections self)) as [items|] eqn:G; [|constructor].
  apply (all_values_get _ _ _ _ Hs G).
Qed.

Lemma positive_sizes_step st line st' :
  positive_sizes (fst st) -> parse_line st line = Ok st' ->
  positive_sizes (fst st').
Proof.
  destruct st as [self cur]. intros HP H. cbn [fst] in HP.
  destruct (parse_line_cases self cur line)
    as [(name & i & _ & _ & _ & E)|[(name & e & _ & _ & _ & E)|(_ & _ & E)]];
    rewrite E in H; injection H as <-; cbn [fst].
  - apply positive_sizes_store_section, HP.
  - apply positive_sizes_store_item, HP.
  - assumption.
Qed.

Lemma parse_positive_sizes lines p : parse lines = Ok p -> positive_sizes p.
Proof.
  intros H. apply parse_loop_of_parse in H as (cur & H).
  apply (parse_loop_invariant (fun st => positive_sizes (fst st))
           positive_sizes_step lines (init, None) (p, cur));
    [apply positive_sizes_init|assumption].
Qed.

(** C9: every size a parsed model holds is strictly positive: the values
    of the summary, the sizes of the address information and the sizes of
    the items of every section. *)
Theorem stored_sizes_positive (lines : list str) (p : MapFileParser.t) :
  parse lines = Ok p ->
  (forall name v, Py.get name (get_summary p) = Some v -> 0 < v)
  /\ (forall name i,
         Py.get name (section_addresses p) = Some i -> 0 < info.size i)
  /\ (forall name items e,
         Py.get name (sections p) = Some items -> In e items ->
         0 < item.size e).
Proof.
  intros H. destruct (parse_positive_sizes lines p H) as (Ht & Ha & Hs).
  repeat split.
  - intros name v G. apply (all_values_get _ _ _ _ Ht G).
  - intros name i G. apply (all_values_get _ _ _ _ Ha G).
  - intros name items e G Hin.
    pose proof (all_values_get _ _ _ _ Hs G) as Hall.
    rewrite Forall_forall in Hall. apply Hall, Hin.
Qed.

Lemma stored_sizes_positive_witness :
  exists p,
    parse (readlines Samples.text_ab) = Ok p
    /\ (forall name v, Py.get name (get_summary p) = Some v -> 0 < v)
    /\ (forall name i,
           Py.get name (section_addresses p) = Some i -> 0 < info.size i)
    /\ (forall name items e,
           Py.get name (sections p) = Some items -> In e items ->
           0 < item.size e).
Proof.
  eexists. split.
  - vm_compute. reflexivity.
  - apply (stored_sizes_positive (readlines Samples.text_ab)).
    vm_compute. reflexivity.
Defined.

(** ** The end-to-end example *)

(** C2: the three lines of the example give the summary [.text] = 160,
    and the top contributors of [.text] are [a.o] and [b.o] with 80 bytes
    and 50 percent each. *)
Theorem end_to_end_example :
  exists p fifty,
    readlines Samples.text_ab
    = [ln ".text 0x00280180 0x000000a0";
       ln "  .text.foo 0x00280180 0x00000050 a.o";
       ln "  .text.bar 0x002801d0 0x00000050 b.o"]
    /\ parse (readlines Samples.text_ab) = Ok p
    /\ get_summary p = [(str_of ".text", 160)]
    /\ get_top_contributors p (str_of ".text") 10
       = [(str_of "a.o", 80); (str_of "b.o", 80)]
    /\ F64.of_int 50 = Ok fifty
    /\ Visualizer.print_top_contributors p (str_of ".text") 10
       = Ok (Visualizer.Contributors
               [{| Visualizer.c_rank := 1; Visualizer.c_size := 80;
                   Visualizer.c_size_str := Visualizer.Bytes 80;
                   Visualizer.c_percentage := fifty;
                   Visualizer.c_file := str_of "a.o" |};
                {| Visualizer.c_rank := 2; Visualizer.c_size := 80;
                   Visualizer.c_size_str := Visualizer.Bytes 80;
                   Visualizer.c_percentage := fifty;
                   Visualizer.c_file := str_of "b.o" |}]).
Proof.
  eexists. eexists.
  split; [vm_compute; reflexivity|].
  split; [vm_compute; reflexivity|].
  split; [vm_compute; reflexivity|].
  split; [vm_compute; reflexivity|].
  split; vm_compute; reflexivity.
Qed.

(** ** binary64: a rounded value stays below a bound it can hold *)

Import F64.

Lemma shr_1_below u k mrs e :
  below u k mrs e -> e + 1 <= k -> below u k (shr_1 mrs) (e + 1).
Proof.
  intros (Hm & He & Hu) Hk.
  assert (E : u * 2 ^ (k - e) = 2 * (u * 2 ^ (k - (e + 1)))).
  { replace (k - e) with (Z.succ (k - (e + 1))) by lia.
    rewrite Z.pow_succ_r by lia. ring. }
  rewrite E in Hu. clear E. unfold below.
  generalize dependent (u * 2 ^ (k - (e + 1))). intros B Hu.
  destruct mrs as [m r s]. unfold upper, inexact in *.
  cbn [shr_m shr_r shr_s] in Hm, Hu.
  destruct m as [|[p|p|]|p]; destruct r, s;
    cbn [shr_1 shr_m shr_r shr_s orb] in *;
    try rewrite Pos2Z.inj_xI in Hu; try rewrite Pos2Z.inj_xO in Hu;
    try rewrite Pos2Z.inj_xI in Hm; try rewrite Pos2Z.inj_xO in Hm;
    repeat split; lia.
Qed.

Lemma iter_shr_1_below u k (p : positive) : forall mrs e,
  below u k mrs e -> e + Zpos p <= k ->
  below u k (iter_pos shr_1 p mrs) (e + Zpos p).
Proof.
  induction p as [p IH|p IH|]; intros mrs e H Hk; simpl iter_pos.
  - replace (e + Zpos p~1) with (e + 1 + Zpos p + Zpos p) by lia.
    apply IH; [apply IH; [apply shr_1_below; [assumption|lia]|lia]|lia].
  - replace (e + Zpos p~0) with (e + Zpos p + Zpos p) by lia.
    apply IH; [apply IH; [assumption|lia]|lia].
  - apply shr_1_below; assumption.
Qed.

Lemma shr_below u k mrs e n :
  below u k mrs e -> e + n <= k ->
  below u k (fst (shr mrs e n)) (snd (shr mrs e n)).
Proof.
  intros H Hk. destruct n as [|p|p]; simpl; try assumption.
  apply iter_shr_1_below; assumption.
Qed.

Lemma digits2_pos_bounds (p : positive) :
  2 ^ (Zpos (digits2_pos p) - 1) <= Zpos p < 2 ^ Zpos (digits2_pos p).
Proof.
  induction p as [p IH|p IH|]; simpl digits2_pos.
  - rewrite Pos2Z.inj_succ.
    replace (Z.succ (Zpos (digits2_pos p)) - 1) with (Z.succ (Zpos (digits2_pos p) - 1)) by lia.
    rewrite !Z.pow_succ_r by lia. lia.
  - rewrite Pos2Z.inj_succ.
    replace (Z.succ (Zpos (digits2_pos p)) - 1) with (Z.succ (Zpos (digits2_pos p) - 1)) by lia.
    rewrite !Z.pow_succ_r by lia. lia.
  - simpl. lia.
Qed.

Lemma fexp_digits_below u k m e :
  0 <= m -> e <= k -> m <= u * 2 ^ (k - e) ->
  0 < u < 2 ^ 53 -> -1074 <= k ->
  fexp prec emax (Zdigits2 m + e) <= k.
Proof.
  intros Hm He Hu Hu53 Hk.
  unfold fexp, emin, prec, emax.
  apply Z.max_lub; [|lia].
  destruct m as [|p|p]; simpl Zdigits2; [lia| |lia].
  pose proof (digits2_pos_bounds p) as [Hd _].
  set (d := Zpos (digits2_pos p)) in *.
  assert (Hlt : 2 ^ (d - 1) < 2 ^ (53 + (k - e))).
  { rewrite Z.pow_add_r by lia.
    assert (0 < 2 ^ (k - e)) by (apply Z.pow_pos_nonneg; lia). nia. }
  apply Z.pow_lt_mono_r_iff in Hlt; lia.
Qed.

Lemma upper_of_loc m l :
  upper (shr_record_of_loc m l)
  = match l with loc_Exact => m | loc_Inexact _ => m + 1 end.
Proof. destruct l as [|[| |]]; reflexivity. Qed.

Lemma shr_m_of_loc m l : shr_m (shr_record_of_loc m l) = m.
Proof. destruct l as [|[| |]]; reflexivity. Qed.

Lemma shr_fexp_below u k m e l :
  below u k (shr_record_of_loc m l) e ->
  0 < u < 2 ^ 53 -> -1074 <= k ->
  below u k (fst (shr_fexp prec emax m e l)) (snd (shr_fexp prec emax m e l)).
Proof.
  intros H Hu Hk. unfold shr_fexp.
  apply shr_below; [assumption|].
  destruct H as (Hm & He & Hup). rewrite shr_m_of_loc in Hm.
  assert (Hle : m <= u * 2 ^ (k - e)).
  { rewrite upper_of_loc in Hup. destruct l; lia. }
  pose proof (fexp_digits_below u k m e Hm He Hle Hu Hk). lia.
Qed.

Lemma round_nearest_even_upper mrs :
  0 <= shr_m mrs ->
  0 <= round_nearest_even (shr_m mrs) (loc_of_shr_record mrs) <= upper mrs.
Proof.
  destruct mrs as [m r s]. unfold upper, inexact. cbn [shr_m shr_r shr_s].
  intros Hm. destruct r, s; cbn [loc_of_shr_record round_nearest_even orb];
    try destruct (Z.even m); lia.
Qed.

Lemma binary_round_aux_below u k sx mx ex lx :
  below u k (shr_record_of_loc mx lx) ex ->
  0 < u < 2 ^ 53 -> -1074 <= k <= 971 ->
  binary_round_aux prec emax sx mx ex lx = S754_zero sx
  \/ exists m e,
       binary_round_aux prec emax sx mx ex lx = S754_finite sx m e
       /\ e <= k /\ Zpos m <= u * 2 ^ (k - e).
Proof.
  intros H Hu Hk. unfold binary_round_aux.
  pose proof (shr_fexp_below u k mx ex lx H Hu (proj1 Hk)) as H1.
  destruct (shr_fexp prec emax mx ex lx) as [mrs' e'].
  cbn [fst snd] in H1. destruct H1 as (Hm1 & He1 & Hu1).
  pose proof (round_nearest_even_upper mrs' Hm1) as Hr.
  set (m2 := round_nearest_even (shr_m mrs') (loc_of_shr_record mrs')) in *.
  assert (H2 : below u k (shr_record_of_loc m2 loc_Exact) e').
  { repeat split; cbn; lia. }
  pose proof (shr_fexp_below u k m2 e' loc_Exact H2 Hu (proj1 Hk)) as H3.
  destruct (shr_fexp prec emax m2 e' loc_Exact) as [mrs'' e''].
  cbn [fst snd] in H3. destruct H3 as (Hm3 & He3 & Hu3).
  assert (Hle : shr_m mrs'' <= upper mrs'').
  { unfold upper. destruct (inexact mrs''); lia. }
  destruct (shr_m mrs'') as [|m|m] eqn:Em.
  - left. reflexivity.
  - right. exists m, e''.
    replace (e'' <=? emax - prec) with true
      by (symmetry; apply Z.leb_le; unfold emax, prec; lia).
    repeat split; lia.
  - lia.
Qed.

Lemma new_location_cases b r :
  (r = 0 /\ new_location b r = loc_Exact)
  \/ (r <> 0 /\ exists c, new_location b r = loc_Inexact c).
Proof.
  unfold new_location, new_location_even, new_location_odd.
  destruct r as [|p|p]; [left|right|right]; (split; [lia|]);
    match goal with |- context [if ?c then _ else _] => destruct c end;
    cbn; try reflexivity; eexists; reflexivity.
Qed.

Lemma div_core_below a b K :
  0 < a -> 0 < b -> a <= b * 2 ^ K -> 0 <= K ->
  below 1 K
    (shr_record_of_loc (fst (fst (SFdiv_core_binary prec emax a 0 b 0)))
                       (snd (SFdiv_core_binary prec emax a 0 b 0)))
    (snd (fst (SFdiv_core_binary prec emax a 0 b 0))).
Proof.
  intros Ha Hb Hab HK. unfold SFdiv_core_binary.
  set (e' := Z.min (fexp prec emax (Zdigits2 a + 0 - (Zdigits2 b + 0))) (0 - 0)).
  assert (He' : e' <= 0) by (unfold e'; apply Z.le_min_r).
  set (s := 0 - 0 - e').
  set (m' := match s with Z0 => a | Zpos _ => Z.shiftl a s | Zneg _ => 0 end).
  assert (Hm' : m' = a * 2 ^ s).
  { unfold m'. assert (0 <= s) by (unfold s; lia).
    destruct s as [|p|p] eqn:Es.
    - rewrite Z.pow_0_r. ring.
    - apply Z.shiftl_mul_pow2. lia.
    - lia. }
  pose proof (Z_div_mod m' b ltac:(lia)) as Hdiv.
  destruct (Z.div_eucl m' b) as [q r]. destruct Hdiv as [Heq Hr].
  cbn [fst snd].
  assert (Hs : 0 < 2 ^ s) by (apply Z.pow_pos_nonneg; unfold s; lia).
  assert (HT : 0 < 2 ^ K) by (apply Z.pow_pos_nonneg; lia).
  assert (Hq : 0 <= q) by nia.
  unfold below. rewrite shr_m_of_loc, upper_of_loc.
  replace (K - e') with (K + s) by (unfold s; lia).
  rewrite Z.pow_add_r by (unfold s; lia).
  generalize dependent (2 ^ s). generalize dependent (2 ^ K).
  intros T Hab HT S Hm' Hs.
  repeat split; try assumption; try lia.
  destruct (new_location_cases b r) as [[-> ->]|[Hne [c ->]]]; nia.
Qed.

Lemma truediv_le_pow a b K :
  0 < a -> 0 < b -> a <= b * 2 ^ K -> 0 <= K <= 971 ->
  exists x, truediv a b = Ok x /\ at_most 1 K x.
Proof.
  intros Ha Hb Hab HK. unfold truediv.
  replace (b =? 0) with false by (symmetry; apply Z.eqb_neq; lia).
  destruct a as [|pa|pa]; [lia| |lia]. destruct b as [|pb|pb]; [lia| |lia].
  cbn [int_operand SFdiv xorb].
  pose proof (div_core_below (Zpos pa) (Zpos pb) K Ha Hb Hab (proj1 HK)) as H.
  destruct (SFdiv_core_binary prec emax (Zpos pa) 0 (Zpos pb) 0)
    as [[mz ez] lz].
  cbn [fst snd] in H.
  destruct (binary_round_aux_below 1 K false mz ez lz H)
    as [->|(m & e & -> & He & Hm)]; [lia|lia| |].
  - eexists. split; [reflexivity|exact I].
  - eexists. split; [reflexivity|]. split; assumption.
Qed.

Lemma truediv_le_one a b :
  0 < a <= b -> exists x, truediv a b = Ok x /\ at_most 1 0 x.
Proof.
  intros Hab. apply truediv_le_pow; lia.
Qed.

(** the quotient of a number that is not negative by a positive one, when
    it is at most [2 ^ K] *)
Lemma truediv_ok a b K :
  0 <= a -> 0 < b -> a <= b * 2 ^ K -> 0 <= K <= 971 ->
  exists x, truediv a b = Ok x /\ at_most 1 K x.
Proof.
  intros Ha Hb Hab HK.
  destruct (Z.eq_dec a 0) as [->|Hne].
  - unfold truediv.
    replace (b =? 0) with false by (symmetry; apply Z.eqb_neq; lia).
    destruct b as [|pb|pb]; [lia| |lia].
    eexists. split; [reflexivity|exact I].
  - apply truediv_le_pow; lia.
Qed.

Lemma to_int_ok u k x :
  at_most u k x -> exists n, to_int x = Ok n /\ 0 <= n.
Proof.
  intros Hx. destruct x as [sx|sx| |[|] m e]; try contradiction.
  - exists 0. split; [reflexivity|lia].
  - cbn [to_int]. eexists. split; [reflexivity|].
    destruct (0 <=? e) eqn:E0.
    + apply Z.leb_le in E0.
      assert (0 < 2 ^ e) by (apply Z.pow_pos_nonneg; lia). nia.
    + apply Z.leb_gt in E0. apply Z.div_pos; [lia|].
      apply Z.pow_pos_nonneg; lia.
Qed.

Lemma mul_at_most x c M E :
  at_most 1 0 x -> E <= 0 -> Zpos M = c * 2 ^ (- E) -> 0 < c < 2 ^ 53 ->
  at_most c 0 (mul x (S754_finite false M E)).
Proof.
  intros Hx HE HM Hc. unfold mul.
  destruct x as [sx|sx| |[|] m e]; try contradiction.
  - exact I.
  - destruct Hx as [He Hm]. cbn [SFmul xorb].
    assert (Hb : below c 0 (shr_record_of_loc (Zpos (m * M)) loc_Exact) (e + E)).
    { unfold below. rewrite shr_m_of_loc, upper_of_loc.
      repeat split; [lia|lia|].
      replace (0 - (e + E)) with ((0 - e) + (- E)) by lia.
      rewrite Z.pow_add_r by lia. rewrite Pos2Z.inj_mul, HM.
      assert (0 < 2 ^ (- E)) by (apply Z.pow_pos_nonneg; lia).
      rewrite Z.mul_1_l in Hm. nia. }
    destruct (binary_round_aux_below c 0 false _ _ _ Hb Hc)
      as [->|(m' & e' & -> & He' & Hm')]; [lia| |].
    + exact I.
    + split; assumption.
Qed.

Lemma to_int_at_most c x :
  at_most c 0 x -> 0 <= c -> exists n, to_int x = Ok n /\ 0 <= n <= c.
Proof.
  intros Hx Hc. destruct x as [sx|sx| |[|] m e]; try contradiction.
  - exists 0. split; [reflexivity|lia].
  - destruct Hx as [He Hm]. cbn [to_int].
    destruct (0 <=? e) eqn:E0.
    + apply Z.leb_le in E0. assert (e = 0) by lia. subst e.
      eexists. split; [reflexivity|]. cbn in Hm |- *. lia.
    + eexists. split; [reflexivity|].
      replace (0 - e) with (- e) in Hm by lia.
      assert (0 < 2 ^ (- e)) by (apply Z.pow_pos_nonneg; lia).
      split.
      * apply Z.div_pos; lia.
      * apply Z.div_le_upper_bound; lia.
Qed.

Lemma div_core_same a :
  0 < a -> SFdiv_core_binary prec emax a 0 a 0 = (2 ^ 53, -53, loc_Exact).
Proof.
  intros Ha. unfold SFdiv_core_binary.
  replace (Zdigits2 a + 0 - (Zdigits2 a + 0)) with 0 by lia.
  change (Z.min (fexp prec emax 0) (0 - 0)) with (-53).
  change (0 - 0 - -53) with 53. cbv iota.
  rewrite Z.shiftl_mul_pow2 by lia.
  pose proof (Z_div_mod (a * 2 ^ 53) a ltac:(lia)) as Hdiv.
  destruct (Z.div_eucl (a * 2 ^ 53) a) as [q r].
  destruct Hdiv as [Heq Hr].
  assert (q = 2 ^ 53 /\ r = 0) as [-> ->].
  { generalize dependent (2 ^ 53). intros K Heq.
    assert (K - q = 0) by nia. split; nia. }
  destruct (new_location_cases a 0) as [[_ ->]|[H _]]; [reflexivity|lia].
Qed.

Lemma truediv_same a : 0 < a -> truediv a a = Ok one.
Proof.
  intros Ha. unfold truediv.
  replace (a =? 0) with false by (symmetry; apply Z.eqb_neq; lia).
  destruct a as [|p|p]; [lia| |lia].
  cbn [int_operand SFdiv xorb]. rewrite (div_core_same (Zpos p) Ha).
  reflexivity.
Qed.

Lemma of_int_40 : of_int 40 = Ok forty.
Proof. reflexivity. Qed.

Lemma of_int_100 : of_int 100 = Ok hundred.
Proof. reflexivity. Qed.

Lemma filled_bounds a b :
  0 < a <= b ->
  exists n, Visualizer.filled a b 40 = Ok n /\ 0 <= n <= 40.
Proof.
  intros Hab. unfold Visualizer.filled.
  destruct (truediv_le_one a b Hab) as (q & -> & Hq).
  unfold mul_int. rewrite of_int_40. cbn [bind].
  apply to_int_at_most; [|lia].
  apply mul_at_most; [assumption|lia|reflexivity|lia].
Qed.

Lemma filled_full a : 0 < a -> Visualizer.filled a a 40 = Ok 40.
Proof.
  intros Ha. unfold Visualizer.filled. rewrite (truediv_same a Ha).
  reflexivity.
Qed.

Lemma percentage_ok a b :
  0 < a <= b ->
  exists q, truediv a b = Ok q
            /\ Visualizer.percentage a b = Ok (mul q hundred).
Proof.
  intros Hab. unfold Visualizer.percentage.
  replace (0 <? b) with true by (symmetry; apply Z.ltb_lt; lia).
  destruct (truediv_le_one a b Hab) as (q & Hq & _). rewrite Hq.
  exists q. split; [reflexivity|].
  unfold mul_int. rewrite of_int_100. reflexivity.
Qed.

(** ** Sorting, sums, maxima *)

Lemma insert_desc_perm {A} (key : A -> Z) x l :
  Permutation (Py.insert_desc key x l) (x :: l).
Proof.
  induction l as [|y l IH]; simpl.
  - apply Permutation_refl.
  - destruct (key y <=? key x).
    + apply Permutation_refl.
    + eapply perm_trans; [apply perm_skip, IH|apply perm_swap].
Qed.

Lemma sorted_reverse_perm {A} (key : A -> Z) l :
  Permutation (Py.sorted_reverse key l) l.
Proof.
  induction l as [|x l IH]; simpl.
  - constructor.
  - eapply perm_trans; [apply insert_desc_perm|apply perm_skip, IH].
Qed.

Lemma insert_desc_sorted {A} (key : A -> Z) x l :
  StronglySorted (fun a b => key b <= key a) l ->
  StronglySorted (fun a b => key b <= key a) (Py.insert_desc key x l).
Proof.
  induction 1 as [|y l Hs IH Hy]; simpl.
  - repeat constructor.
  - destruct (key y <=? key x) eqn:E.
    + apply Z.leb_le in E. constructor; [constructor; assumption|].
      constructor; [assumption|].
      eapply Forall_impl; [|exact Hy]. simpl. intros; lia.
    + apply Z.leb_gt in E. constructor; [assumption|].
      eapply Permutation_Forall;
        [apply Permutation_sym, insert_desc_perm|].
      constructor; [lia|assumption].
Qed.

Lemma sorted_reverse_sorted {A} (key : A -> Z) l :
  StronglySorted (fun a b => key b <= key a) (Py.sorted_reverse key l).
Proof.
  induction l as [|x l IH]; simpl.
  - constructor.
  - apply insert_desc_sorted, IH.
Qed.

Lemma insert_asc_perm {A} (key : A -> Z) x l :
  Permutation (Py.insert_asc key x l) (x :: l).
Proof.
  induction l as [|y l IH]; simpl.
  - apply Permutation_refl.
  - destruct (key x <=? key y).
    + apply Permutation_refl.
    + eapply perm_trans; [apply perm_skip, IH|apply perm_swap].
Qed.

Lemma sorted_perm {A} (key : A -> Z) l : Permutation (Py.sorted key l) l.
Proof.
  induction l as [|x l IH]; simpl.
  - constructor.
  - eapply perm_trans; [apply insert_asc_perm|apply perm_skip, IH].
Qed.

Lemma insert_asc_sorted {A} (key : A -> Z) x l :
  StronglySorted (fun a b => key a <= key b) l ->
  StronglySorted (fun a b => key a <= key b) (Py.insert_asc key x l).
Proof.
  induction 1 as [|y l Hs IH Hy]; simpl.
  - repeat constructor.
  - destruct (key x <=? key y) eqn:E.
    + apply Z.leb_le in E. constructor; [constructor; assumption|].
      constructor; [assumption|].
      eapply Forall_impl; [|exact Hy]. simpl. intros; lia.
    + apply Z.leb_gt in E. constructor; [assumption|].
      eapply Permutation_Forall;
        [apply Permutation_sym, insert_asc_perm|].
      constructor; [lia|assumption].
Qed.

Lemma sorted_sorted {A} (key : A -> Z) l :
  StronglySorted (fun a b => key a <= key b) (Py.sorted key l).
Proof.
  induction l as [|x l IH]; simpl.
  - constructor.
  - apply insert_asc_sorted, IH.
Qed.

Lemma fold_add_acc l : forall a, fold_left Z.add l a = a + fold_left Z.add l 0.
Proof.
  induction l as [|x l IH]; intros a; simpl.
  - lia.
  - rewrite IH, (IH x). lia.
Qed.

Lemma sum_cons x l : Py.sum (x :: l) = x + Py.sum l.
Proof. unfold Py.sum. simpl. apply fold_add_acc. Qed.

Lemma sum_app l1 l2 : Py.sum (l1 ++ l2) = Py.sum l1 + Py.sum l2.
Proof.
  induction l1 as [|x l1 IH]; simpl.
  - reflexivity.
  - rewrite !sum_cons, IH. lia.
Qed.

Lemma sum_perm l1 l2 : Permutation l1 l2 -> Py.sum l1 = Py.sum l2.
Proof.
  induction 1; try rewrite !sum_cons; try lia; reflexivity.
Qed.

Lemma sum_nonneg l : Forall (fun v => 0 < v) l -> 0 <= Py.sum l.
Proof.
  induction 1 as [|x l Hx _ IH]; [reflexivity|]. rewrite sum_cons. lia.
Qed.

Lemma sum_bounds l x :
  Forall (fun v => 0 < v) l -> In x l -> 0 < x <= Py.sum l.
Proof.
  induction 1 as [|y l Hy Hl IH]; intros Hin; [contradiction|].
  rewrite sum_cons. pose proof (sum_nonneg l Hl).
  destruct Hin as [->|Hin]; [lia|]. specialize (IH Hin). lia.
Qed.

Lemma fold_max_ge l : forall a,
  a <= fold_left Z.max l a /\ Forall (fun v => v <= fold_left Z.max l a) l.
Proof.
  induction l as [|x l IH]; intros a; simpl.
  - split; [lia|constructor].
  - destruct (IH (Z.max a x)) as [H1 H2]. split; [lia|].
    constructor; [lia|assumption].
Qed.

Lemma max_ge l x : In x l -> x <= Py.max l.
Proof.
  destruct l as [|y l]; [contradiction|]. simpl.
  destruct (fold_max_ge l y) as [H1 H2]. intros [<-|Hin]; [assumption|].
  rewrite Forall_forall in H2. apply H2, Hin.
Qed.

Lemma mapM_ok {A B} (f : A -> result B) (R : A -> B -> Prop) l :
  Forall (fun a => exists b, f a = Ok b /\ R a b) l ->
  exists bs, mapM f l = Ok bs /\ Forall2 R l bs.
Proof.
  induction 1 as [|a l (b & Hb & HR) _ (bs & Hbs & IH)]; simpl.
  - exists []. split; [reflexivity|constructor].
  - rewrite Hb, Hbs. simpl. exists (b :: bs).
    split; [reflexivity|constructor; assumption].
Qed.

(** ** The bars of the summary *)

Lemma all_values_Forall {V} (Q : V -> Prop) (d : Py.dict V) :
  all_values Q d -> Forall Q (Py.values d).
Proof. unfold all_values, Py.values. intros H. apply Forall_map, H. Qed.

Lemma summary_section_bounds p name v :
  positive_sizes p -> In (name, v) (get_summary p) ->
  0 < v <= Py.max (Py.values (get_summary p))
  /\ v <= Py.sum (Py.values (get_summary p)).
Proof.
  unfold get_summary. intros (Ht & _) Hin. apply all_values_Forall in Ht.
  assert (Hv : In v (Py.values (total_sizes p))).
  { unfold Py.values. change v with (snd (name, v)). apply in_map, Hin. }
  pose proof (sum_bounds _ _ Ht Hv). pose proof (max_ge _ _ Hv). lia.
Qed.

Lemma mapM_inv {A B} (f : A -> result B) l : forall bs,
  mapM f l = Ok bs -> Forall2 (fun a b => f a = Ok b) l bs.
Proof.
  induction l as [|a l IH]; intros bs H; simpl in H.
  - injection H as <-. constructor.
  - destruct (f a) as [b|] eqn:Ea; [|discriminate]. cbn [bind] in H.
    destruct (mapM f l) as [bs'|]; [|discriminate]. cbn [bind] in H.
    injection H as <-. constructor; auto.
Qed.

(** [format_size] returns for every size below 2^990. *)
Lemma format_size_ok size :
  size < 2 ^ 990 -> exists s, Visualizer.format_size size = Ok s.
Proof.
  intros H. unfold Visualizer.format_size.
  destruct (size <? 1024) eqn:E1; [eauto|]. apply Z.ltb_ge in E1.
  destruct (size <? 1024 * 1024) eqn:E2.
  - apply Z.ltb_lt in E2.
    assert (Hle : size <= 1024 * 2 ^ 10)
      by (change (2 ^ 10) with 1024; lia).
    destruct (truediv_ok size 1024 10 ltac:(lia) ltac:(lia) Hle ltac:(lia))
      as (x & -> & _).
    cbn [bind]. eauto.
  - assert (Hle : size <= 1024 * 1024 * 2 ^ 970).
    { change (1024 * 1024) with (2 ^ 20). rewrite <- Z.pow_add_r by lia.
      change (20 + 970) with 990. lia. }
    destruct (truediv_ok size (1024 * 1024) 970 ltac:(lia) ltac:(lia) Hle
                ltac:(lia)) as (x & -> & _).
    cbn [bind]. eauto.
Qed.

Lemma summary_row_of_fields total max_size sec row :
  Visualizer.summary_row_of total max_size sec = Ok row ->
  Visualizer.s_section row = fst sec
  /\ Visualizer.s_size row = snd sec
  /\ Visualizer.draw_bar (snd sec) max_size 40 = Ok (Visualizer.s_bar row)
  /\ Visualizer.percentage (snd sec) total = Ok (Visualizer.s_percentage row)
  /\ Visualizer.format_size (snd sec) = Ok (Visualizer.s_size_str row).
Proof.
  destruct sec as [section size]. unfold Visualizer.summary_row_of.
  cbn [fst snd].
  destruct (Visualizer.percentage size total); [|discriminate].
  destruct (Visualizer.draw_bar size max_size 40); [|discriminate].
  destruct (Visualizer.format_size size); [|discriminate].
  cbn [bind]. intros H; injection H as <-. auto.
Qed.

Lemma summary_bar_of p name v :
  positive_sizes p -> In (name, v) (get_summary p) ->
  exists n,
    Visualizer.filled v (Py.max (Py.values (get_summary p))) 40 = Ok n
    /\ Visualizer.draw_bar v (Py.max (Py.values (get_summary p))) 40
       = Ok (Py.repeat_chr "#" n ++ Py.repeat_chr "-" (40 - n))
    /\ 0 <= n <= 40
    /\ (v = Py.max (Py.values (get_summary p)) -> n = 40).
Proof.
  intros Hpos Hin.
  destruct (summary_section_bounds p name v Hpos Hin) as [[Hv Hmax] _].
  set (max_size := Py.max (Py.values (get_summary p))) in *.
  destruct (filled_bounds v max_size ltac:(lia)) as (n & Hn & Hb).
  exists n. split; [assumption|]. split; [|split; [assumption|]].
  - unfold Visualizer.draw_bar.
    replace (max_size =? 0) with false by (symmetry; apply Z.eqb_neq; lia).
    rewrite Hn. reflexivity.
  - intros ->. rewrite filled_full in Hn by lia. congruence.
Qed.




(** ** Grouping by file *)

Lemma group_fold_get f items : forall acc,
  Py.get f (fold_left group_step items acc)
  = match Py.get f acc with
    | Some v => Some (v + file_total f items)
    | None => if has_file f items then Some (file_total f items) else None
    end.
Proof.
  unfold file_total, has_file.
  induction items as [|it items IH]; intros acc; simpl.
  - destruct (Py.get f acc); [f_equal; unfold Py.sum; simpl; lia|reflexivity].
  - rewrite IH. unfold group_step at 1.
    destruct (str_eqb (item.file it) f) eqn:E.
    + apply str_eqb_eq in E. subst f. rewrite get_set_same.
      simpl. rewrite sum_cons. unfold Py.get_default.
      destruct (Py.get (item.file it) acc); f_equal; lia.
    + rewrite get_set_other
        by (apply str_eqb_neq in E; congruence).
      simpl. reflexivity.
Qed.

Lemma group_by_file_get f items :
  Py.get f (group_by_file items)
  = if has_file f items then Some (file_total f items) else None.
Proof. apply (group_fold_get f items []). Qed.

Lemma keys_set {V} k v (d : Py.dict V) :
  Py.keys (Py.set k v d)
  = if Py.mem k d then Py.keys d else Py.keys d ++ [k].
Proof.
  unfold Py.mem, Py.keys. induction d as [|[k' v'] d IH]; simpl.
  - reflexivity.
  - destruct (str_eqb k k') eqn:E; simpl; [reflexivity|].
    rewrite IH. destruct (Py.get k d); reflexivity.
Qed.

Lemma mem_keys {V} k (d : Py.dict V) : Py.mem k d = false -> ~ In k (Py.keys d).
Proof.
  unfold Py.mem, Py.keys. induction d as [|[k' v'] d IH]; simpl; [tauto|].
  destruct (str_eqb k k') eqn:E; [discriminate|].
  intros H [Heq|Hin]; [|apply IH; assumption].
  apply str_eqb_neq in E. congruence.
Qed.

Lemma keys_set_nodup {V} k v (d : Py.dict V) :
  NoDup (Py.keys d) -> NoDup (Py.keys (Py.set k v d)).
Proof.
  intros H. rewrite keys_set. destruct (Py.mem k d) eqn:E; [assumption|].
  apply NoDup_app; [assumption|repeat constructor; simpl; tauto|].
  intros x Hx [<-|[]]. apply (mem_keys _ _ E), Hx.
Qed.

Lemma group_fold_nodup items : forall acc,
  NoDup (Py.keys acc) -> NoDup (Py.keys (fold_left group_step items acc)).
Proof.
  induction items as [|it items IH]; intros acc H; simpl; [assumption|].
  apply IH, keys_set_nodup, H.
Qed.

Lemma group_by_file_nodup items : NoDup (Py.keys (group_by_file items)).
Proof. apply (group_fold_nodup items []). constructor. Qed.

Lemma set_not_nil {V} k v (d : Py.dict V) : Py.set k v d <> [].
Proof. destruct d as [|[k' v'] d]; simpl; [|destruct (str_eqb k k')]; discriminate. Qed.

Lemma group_fold_not_nil items : forall acc,
  acc <> [] -> fold_left group_step items acc <> [].
Proof.
  induction items as [|it items IH]; intros acc H; simpl; [assumption|].
  apply IH, set_not_nil.
Qed.

Lemma group_by_file_not_nil items : items <> [] -> group_by_file items <> [].
Proof.
  destruct items as [|it items]; [congruence|]. intros _.
  apply (group_fold_not_nil items), set_not_nil.
Qed.

Lemma group_fold_positive items : forall acc,
  Forall (fun it => 0 < item.size it) items ->
  all_values (fun v => 0 < v) acc ->
  all_values (fun v => 0 < v) (fold_left group_step items acc).
Proof.
  induction items as [|it items IH]; intros acc Hi Ha; simpl; [assumption|].
  inversion Hi; subst. apply IH; [assumption|].
  apply all_values_set; [assumption|].
  unfold Py.get_default.
  destruct (Py.get (item.file it) acc) as [v|] eqn:G; [|lia].
  pose proof (all_values_get _ _ _ _ Ha G). simpl in *. lia.
Qed.

Lemma group_by_file_positive items :
  Forall (fun it => 0 < item.size it) items ->
  all_values (fun v => 0 < v) (group_by_file items).
Proof. intros H. apply (group_fold_positive items [] H). constructor. Qed.

(** ** Top contributors *)

Lemma slice_to_firstn {A} (n : Z) (l : list A) :
  0 <= n -> Py.slice_to n l = firstn (Z.to_nat n) l.
Proof.
  intros H. unfold Py.slice_to.
  replace (0 <=? n) with true by (symmetry; apply Z.leb_le; assumption).
  reflexivity.
Qed.

Lemma in_enumerate {A} (l : list A) : forall s i a,
  In (i, a) (Visualizer.enumerate s l) -> In a l.
Proof.
  induction l as [|x l IH]; intros s i a; simpl; [tauto|].
  intros [H|H]; [injection H as _ <-; auto|right; eapply IH, H].
Qed.

Lemma In_firstn {A} n (l : list A) x : In x (firstn n l) -> In x l.
Proof.
  intros H. rewrite <- (firstn_skipn n l). apply in_or_app. auto.
Qed.

Lemma contributor_row_of_fields total ic row :
  Visualizer.contributor_row_of total ic = Ok row ->
  Visualizer.c_rank row = fst ic
  /\ Visualizer.c_file row = Visualizer.keep_tail 70 (fst (snd ic))
  /\ Visualizer.c_size row = snd (snd ic)
  /\ Visualizer.percentage (snd (snd ic)) total
     = Ok (Visualizer.c_percentage row)
  /\ Visualizer.format_size (snd (snd ic)) = Ok (Visualizer.c_size_str row).
Proof.
  destruct ic as [i [file size]]. unfold Visualizer.contributor_row_of.
  cbn [fst snd].
  destruct (Visualizer.percentage size total); [|discriminate].
  destruct (Visualizer.format_size size); [|discriminate].
  cbn [bind]. intros H; injection H as <-. auto.
Qed.

Lemma top_contributors_positive lines p section limit :
  parse lines = Ok p -> 0 <= limit ->
  Forall (fun c => 0 < snd c) (get_top_contributors p section limit).
Proof.
  intros Hp Hl. unfold get_top_contributors.
  destruct (Py.get section (sections p)) as [items|] eqn:G; [|constructor].
  destruct (parse_positive_sizes lines p Hp) as (_ & _ & Hs).
  pose proof (all_values_get _ _ _ _ Hs G) as Hi.
  pose proof (group_by_file_positive items Hi) as Hg.
  rewrite slice_to_firstn by assumption.
  apply Forall_forall. intros c Hc. apply In_firstn in Hc.
  apply (Permutation_in _ (sorted_reverse_perm snd _)) in Hc.
  unfold all_values in Hg. rewrite Forall_forall in Hg. apply Hg, Hc.
Qed.

Lemma top_contributor_bounds lines p section limit c :
  parse lines = Ok p -> 0 <= limit ->
  In c (get_top_contributors p section limit) ->
  0 < snd c <= Py.sum (map snd (get_top_contributors p section limit)).
Proof.
  intros Hp Hl Hin. apply sum_bounds.
  - apply Forall_map.
    exact (top_contributors_positive lines p section limit Hp Hl).
  - apply in_map, Hin.
Qed.

Lemma top_contributor_percentage lines p section limit c :
  parse lines = Ok p -> 0 <= limit ->
  In c (get_top_contributors p section limit) ->
  exists q,
    F64.truediv (snd c)
      (Py.sum (map snd (get_top_contributors p section limit))) = Ok q
    /\ Visualizer.percentage (snd c)
         (Py.sum (map snd (get_top_contributors p section limit)))
       = Ok (F64.mul q hundred).
Proof.
  intros Hp Hl Hin. apply percentage_ok.
  apply (top_contributor_bounds lines p section limit c Hp Hl Hin).
Qed.

Lemma print_top_contributors_rows lines p section limit rows :
  parse lines = Ok p -> 0 <= limit ->
  Visualizer.print_top_contributors p section limit
  = Ok (Visualizer.Contributors rows) ->
  Forall2
    (fun ic row =>
       Visualizer.c_rank row = fst ic
       /\ Visualizer.c_file row = Visualizer.keep_tail 70 (fst (snd ic))
       /\ Visualizer.c_size row = snd (snd ic)
       /\ exists q,
            F64.truediv (snd (snd ic))
              (Py.sum (map snd (get_top_contributors p section limit)))
            = Ok q
            /\ Visualizer.c_percentage row = F64.mul q hundred)
    (Visualizer.enumerate 1 (get_top_contributors p section limit)) rows.
Proof.
  intros Hp Hl. unfold Visualizer.print_top_contributors.
  pose proof (top_contributor_percentage lines p section limit) as Hpct.
  destruct (get_top_contributors p section limit) as [|c0 top] eqn:Et;
    [discriminate|].
  rewrite <- Et in *.
  destruct (mapM _ _) as [rows'|] eqn:Em; [|discriminate]. cbn [bind].
  intros H; injection H as <-.
  apply mapM_inv in Em.
  assert (Hin : Forall (fun ic : Z * (str * Z) =>
                          In (snd ic) (get_top_contributors p section limit))
                  (Visualizer.enumerate 1
                     (get_top_contributors p section limit))).
  { apply Forall_forall. intros [i c] Hi. apply in_enumerate in Hi. exact Hi. }
  revert Hin. induction Em as [|ic row l rows0 Hrow _ IH]; intros Hin;
    [constructor|].
  inversion Hin as [|? ? Hc Hrest]; subst.
  constructor; [|apply IH, Hrest].
  apply contributor_row_of_fields in Hrow as (H1 & H2 & H3 & H4 & _).
  repeat split; auto.
  destruct (Hpct (snd ic) Hp Hl Hc) as (q & Hq & Hpq).
  exists q. split; [assumption|]. congruence.
Qed.

Lemma print_top_contributors_returns lines p section limit :
  parse lines = Ok p -> 0 <= limit ->
  get_top_contributors p section limit <> [] ->
  Py.sum (map snd (get_top_contributors p section limit)) < 2 ^ 990 ->
  exists row rows,
    Visualizer.print_top_contributors p section limit
    = Ok (Visualizer.Contributors (row :: rows)).
Proof.
  intros Hp Hl Hne Hsum. unfold Visualizer.print_top_contributors.
  pose proof (top_contributor_bounds lines p section limit) as Hb.
  pose proof (top_contributor_percentage lines p section limit) as Hpct.
  destruct (get_top_contributors p section limit) as [|c0 top] eqn:Et;
    [congruence|].
  rewrite <- Et in *.
  set (total := Py.sum (map snd (get_top_contributors p section limit))) in *.
  destruct (mapM_ok (Visualizer.contributor_row_of total) (fun _ _ => True)
              (Visualizer.enumerate 1 (get_top_contributors p section limit)))
    as (rows & Hrows & HF).
  - apply Forall_forall. intros [i [file size]] Hi. apply in_enumerate in Hi.
    destruct (Hpct _ Hp Hl Hi) as (q & _ & Hq).
    pose proof (Hb _ Hp Hl Hi) as Hsz. cbn [snd] in Hq, Hsz.
    destruct (format_size_ok size ltac:(lia)) as (s & Hs).
    unfold Visualizer.contributor_row_of. rewrite Hq, Hs. cbn [bind]. eauto.
  - rewrite Hrows. cbn [bind]. rewrite Et in HF. cbn in HF.
    inversion HF; subst. eauto.
Qed.



(** A limit below zero is a slice from the end: [sorted_files[:-1]] drops
    the last group. *)
Remark top_contributors_negative_limit :
  get_top_contributors (Samples.model (readlines Samples.text_ab))
    (str_of ".text") (-1)
  = [(str_of "a.o", 80)].
Proof. vm_compute. reflexivity. Qed.

(** With the limit 1 the one row that is left has 100 percent, though its
    file holds half of the section. *)
Example top_one_of_two :
  Visualizer.print_top_contributors
    (Samples.model (readlines Samples.text_ab)) (str_of ".text") 1
  = Ok (Visualizer.Contributors
          [{| Visualizer.c_rank := 1; Visualizer.c_size := 80;
              Visualizer.c_size_str := Visualizer.Bytes 80;
              Visualizer.c_percentage := hundred;
              Visualizer.c_file := str_of "a.o" |}]).
Proof. vm_compute. reflexivity. Qed.

(** ** Headers *)

Lemma header_facts line name i :
  header line name i ->
  name <> [] /\ 0 <= info.size i
  /\ exists m, re_match main_section_re line = Some m.
Proof.
  intros (m & Hm & G1 & _ & G3 & _).
  destruct (main_match_header line m Hm)
    as (name' & i' & _ & G1' & _ & G3' & _ & Hne & Hpos & _).
  rewrite G1 in G1'. injection G1' as <-.
  rewrite G3 in G3'. injection G3' as E. rewrite E.
  repeat split; eauto.
Qed.

Lemma store_section_zero self name i :
  info.size i = 0 -> store_section self name i = self.
Proof. unfold store_section. intros ->. reflexivity. Qed.

Lemma store_section_sections self name i :
  sections (store_section self name i) = sections self.
Proof. unfold store_section. destruct (0 <? info.size i); reflexivity. Qed.

Lemma store_section_same self name i :
  0 < info.size i ->
  Py.get name (total_sizes (store_section self name i)) = Some (info.size i)
  /\ Py.get name (section_addresses (store_section self name i)) = Some i.
Proof.
  intros H. unfold store_section.
  replace (0 <? info.size i) with true by (symmetry; apply Z.ltb_lt, H).
  simpl. rewrite !get_set_same. auto.
Qed.

Lemma store_section_other self name name' i :
  name <> name' ->
  Py.get name (total_sizes (store_section self name' i))
  = Py.get name (total_sizes self)
  /\ Py.get name (section_addresses (store_section self name' i))
     = Py.get name (section_addresses self).
Proof.
  intros H. unfold store_section.
  destruct (0 <? info.size i); simpl; [|auto].
  rewrite !get_set_other by assumption. auto.
Qed.

Lemma store_item_tables self name e :
  total_sizes (store_item self name e) = total_sizes self
  /\ section_addresses (store_item self name e) = section_addresses self.
Proof. unfold store_item. destruct (0 <? item.size e); auto. Qed.

(** Lines after the last header of non-zero size for [name] leave what is
    stored for [name] as it is. *)
Lemma later_lines_keep name : forall post st st',
  (forall l j, In l post -> header l name j -> info.size j = 0) ->
  parse_loop st post = Ok st' ->
  Py.get name (total_sizes (fst st')) = Py.get name (total_sizes (fst st))
  /\ Py.get name (section_addresses (fst st'))
     = Py.get name (section_addresses (fst st)).
Proof.
  induction post as [|l post IH]; intros st st' Hz H; simpl in H.
  - injection H as <-. auto.
  - destruct (parse_line st l) as [st1|] eqn:E; [|discriminate].
    cbn [bind] in H.
    destruct (IH st1 st' (fun l' j Hin => Hz l' j (or_intror Hin)) H)
      as [H1 H2].
    rewrite H1, H2. clear H1 H2 IH H.
    destruct st as [self cur].
    destruct (parse_line_cases self cur l)
      as [(n & j & Hh & _ & _ & E')|[(n & e & _ & _ & _ & E')|(_ & _ & E')]];
      rewrite E' in E; injection E as <-; cbn [fst].
    + destruct (list_eq_dec ascii_dec name n) as [<-|Hne].
      * assert (Hj : info.size j = 0)
          by (apply (Hz l j); [left; reflexivity|assumption]).
        rewrite (store_section_zero self name j Hj). auto.
      * apply store_section_other, Hne.
    + destruct (store_item_tables self n e) as [-> ->]. auto.
    + auto.
Qed.

(** C6, as the code has it: every header line of a section name sets the
    cursor to that name, and one whose size is not zero overwrites what
    the summary and the address information hold for the name, so that
    the last header of non-zero size wins; a header of size zero stores
    nothing. *)
Theorem last_nonzero_header_wins
        (pre post : list str) (line name : str) (i : info.t)
        (p : MapFileParser.t) :
  header line name i ->
  (forall l j, In l post -> header l name j -> info.size j = 0) ->
  parse (pre ++ line :: post) = Ok p ->
  (exists self0 cur0 self1,
      parse_loop (init, None) pre = Ok (self0, cur0)
      /\ parse_line (self0, cur0) line = Ok (self1, Some name)
      /\ (0 < info.size i ->
          Py.get name (total_sizes self1) = Some (info.size i)
          /\ Py.get name (section_addresses self1) = Some i)
      /\ (info.size i = 0 -> self1 = self0))
  /\ (0 < info.size i ->
      Py.get name (get_summary p) = Some (info.size i)
      /\ Py.get name (section_addresses p) = Some i).
Proof.
  intros Hh Hz Hp. apply parse_loop_of_parse in Hp as (cur & Hp).
  rewrite parse_loop_app in Hp.
  destruct (parse_loop (init, None) pre) as [[self0 cur0]|] eqn:E0;
    [|discriminate].
  cbn [bind parse_loop] in Hp.
  rewrite (parse_line_header self0 cur0 line name i Hh) in Hp.
  cbn [bind] in Hp.
  split.
  - exists self0, cur0, (store_section self0 name i).
    split; [reflexivity|].
    split; [apply parse_line_header, Hh|].
    split; [apply store_section_same|apply store_section_zero].
  - intros Hpos.
    destruct (later_lines_keep name post _ _ Hz Hp) as [H1 H2].
    cbn [fst] in H1, H2. unfold get_summary. rewrite H1, H2.
    apply store_section_same, Hpos.
Qed.

Lemma last_nonzero_header_wins_witness :
  header (ln ".text 0x100 0x20") (str_of ".text")
    {| info.vma := 256; info.lma := 256; info.size := 32 |}
  /\ parse Samples.thrice = Ok (Samples.model Samples.thrice)
  /\ Py.get (str_of ".text") (get_summary (Samples.model Samples.thrice))
     = Some 32
  /\ Py.get (str_of ".text")
       (section_addresses (Samples.model Samples.thrice))
     = Some {| info.vma := 256; info.lma := 256; info.size := 32 |}.
Proof.
  assert (Hh : header (ln ".text 0x100 0x20") (str_of ".text")
                 {| info.vma := 256; info.lma := 256; info.size := 32 |}).
  { eexists. split; [vm_compute; reflexivity|].
    repeat split; vm_compute; reflexivity. }
  split; [exact Hh|].
  split; [vm_compute; reflexivity|].
  refine (proj2 (last_nonzero_header_wins
                   [ln ".text 0x0 0x10"] [ln ".text 0x200 0x0"]
                   (ln ".text 0x100 0x20") (str_of ".text")
                   {| info.vma := 256; info.lma := 256; info.size := 32 |}
                   (Samples.model Samples.thrice) Hh _ _) _).
  - intros l j [<-|[]] (m & Hm & _ & _ & H3 & _).
    vm_compute in Hm. injection Hm as <-.
    vm_compute in H3. injection H3 as H3. symmetry. exact H3.
  - vm_compute; reflexivity.
  - simpl; lia.
Defined.

(** C6, as the specification has it, fails: the second and last header
    of [.text] has the address 0x100 and the size 0, and the summary and
    the address information still hold the values of the first. *)
Lemma last_header_of_size_zero_loses :
  Samples.twice = [ln ".text 0x0 0x10"; ln ".text 0x100 0x0"]
  /\ header (ln ".text 0x100 0x0") (str_of ".text")
       {| info.vma := 256; info.lma := 256; info.size := 0 |}
  /\ exists p,
       parse Samples.twice = Ok p
       /\ Py.get (str_of ".text") (get_summary p) = Some 16
       /\ Py.get (str_of ".text") (section_addresses p)
          = Some {| info.vma := 0; info.lma := 0; info.size := 16 |}.
Proof.
  split; [reflexivity|]. split.
  - eexists. split; [vm_compute; reflexivity|].
    repeat split; vm_compute; reflexivity.
  - eexists. split; [vm_compute; reflexivity|].
    split; vm_compute; reflexivity.
Qed.

(** ** Items under a header of size zero *)

Lemma no_header_keeps_cursor : forall mid self cur st',
  Forall (fun l => re_match main_section_re l = None) mid ->
  parse_loop (self, cur) mid = Ok st' -> snd st' = cur.
Proof.
  induction mid as [|l mid IH]; intros self cur st' Hm H;
    cbn [parse_loop] in H.
  - injection H as <-. reflexivity.
  - inversion Hm as [|? ? Hl Hmid]; subst.
    destruct (parse_line_cases self cur l)
      as [(n & j & Hh & _)|[(n & e & _ & _ & _ & E)|(_ & _ & E)]].
    + destruct (header_facts l n j Hh) as (_ & _ & m & Hmatch). congruence.
    + rewrite E in H. cbn [bind] in H. apply (IH _ _ _ Hmid H).
    + rewrite E in H. cbn [bind] in H. apply (IH _ _ _ Hmid H).
Qed.

Lemma store_item_holds self name e :
  0 < item.size e -> holds_item name e (store_item self name e).
Proof.
  intros H. unfold store_item, holds_item.
  replace (0 <? item.size e) with true by (symmetry; apply Z.ltb_lt, H).
  simpl. rewrite get_set_same. eexists. split; [reflexivity|].
  apply in_or_app. right. left. reflexivity.
Qed.

Lemma holds_item_step name e st line st' :
  holds_item name e (fst st) -> parse_line st line = Ok st' ->
  holds_item name e (fst st').
Proof.
  destruct st as [self cur]. intros (items & G & Hin) H. cbn [fst] in G.
  destruct (parse_line_cases self cur line)
    as [(n & j & _ & _ & _ & E)|[(n & e' & _ & _ & _ & E)|(_ & _ & E)]];
    rewrite E in H; injection H as <-; cbn [fst]; unfold holds_item.
  - rewrite store_section_sections. eauto.
  - unfold store_item. destruct (0 <? item.size e'); [|eauto]. simpl.
    destruct (list_eq_dec ascii_dec name n) as [<-|Hne].
    + rewrite get_set_same. unfold Py.get_default. rewrite G.
      eexists. split; [reflexivity|]. apply in_or_app. auto.
    + rewrite get_set_other by assumption. eauto.
  - eauto.
Qed.

Lemma holds_item_contributors name e p :
  holds_item name e p ->
  get_all_contributors p name <> []
  /\ forall limit, 0 < limit -> get_top_contributors p name limit <> [].
Proof.
  intros (items & G & Hin). unfold get_all_contributors, get_top_contributors.
  rewrite G. split.
  - intros E.
    apply (Permutation_in _ (Permutation_sym (sorted_reverse_perm item.size items)))
      in Hin.
    rewrite E in Hin. contradiction.
  - intros limit Hl. rewrite slice_to_firstn by lia.
    assert (Hg : group_by_file items <> []).
    { apply group_by_file_not_nil. intros ->. contradiction. }
    assert (Hr : Py.sorted_reverse snd (group_by_file items) <> []).
    { intros E. apply Hg. apply Permutation_nil.
      rewrite <- E. apply sorted_reverse_perm. }
    destruct (Py.sorted_reverse snd (group_by_file items)); [congruence|].
    destruct (Z.to_nat limit) eqn:En; [lia|]. simpl. discriminate.
Qed.

(** C1, as the code has it: a header line of size zero stores nothing in
    the summary and the address information and sets the cursor to its
    name; a sub-entry of non-zero size that is read while the cursor
    stands there is stored under that name and stays: after the parse,
    the top contributors and the detailed breakdown of the name hold it
    and neither report answers "no data". *)
Theorem zero_size_header_keeps_items
        (pre mid post : list str) (line sub name : str) (i : info.t)
        (e : item.t) (p : MapFileParser.t) :
  header line name i -> info.size i = 0 ->
  Forall (fun l => re_match main_section_re l = None) mid ->
  sub_entry sub e -> 0 < item.size e ->
  parse (pre ++ line :: mid ++ sub :: post) = Ok p ->
  (exists self0 cur0,
      parse_loop (init, None) pre = Ok (self0, cur0)
      /\ parse_line (self0, cur0) line = Ok (self0, Some name))
  /\ (exists items, Py.get name (sections p) = Some items /\ In e items)
  /\ (get_all_contributors p name <> []
      /\ forall limit,
           Visualizer.print_detailed_breakdown p name limit
           <> Ok (Visualizer.NoBreakdown name))
  /\ (forall limit, 0 < limit ->
         get_top_contributors p name limit <> []
         /\ Visualizer.print_top_contributors p name limit
            <> Ok (Visualizer.NoContributors name)
         /\ (Py.sum (map snd (get_top_contributors p name limit)) < 2 ^ 990 ->
             exists row rows,
               Visualizer.print_top_contributors p name limit
               = Ok (Visualizer.Contributors (row :: rows)))).
Proof.
  intros Hh Hz Hmid Hsub Hpos Hp. pose proof Hp as Hparse.
  apply parse_loop_of_parse in Hp as (cur & Hp).
  rewrite parse_loop_app in Hp.
  destruct (parse_loop (init, None) pre) as [[self0 cur0]|] eqn:E0;
    [|discriminate].
  cbn [bind parse_loop] in Hp.
  pose proof (parse_line_header self0 cur0 line name i Hh) as Hline.
  rewrite (store_section_zero self0 name i Hz) in Hline.
  rewrite Hline in Hp. cbn [bind] in Hp.
  rewrite parse_loop_app in Hp.
  destruct (parse_loop (self0, Some name) mid) as [[self1 cur1]|] eqn:E1;
    [|discriminate].
  cbn [bind parse_loop] in Hp.
  pose proof (no_header_keeps_cursor mid _ _ _ Hmid E1) as Hc.
  cbn [snd] in Hc. subst cur1.
  destruct (header_facts line name i Hh) as (Hne & _).
  assert (Ht : truthy (Some name) = Some name)
    by (destruct name; [congruence|reflexivity]).
  rewrite (parse_line_sub_entry self1 (Some name) sub name e Ht Hsub) in Hp.
  cbn [bind] in Hp.
  assert (Hholds : holds_item name e p).
  { apply (parse_loop_invariant (fun st => holds_item name e (fst st))
             (holds_item_step name e) post
             (store_item self1 name e, Some name) (p, cur));
      [apply store_item_holds, Hpos|exact Hp]. }
  destruct (holds_item_contributors name e p Hholds) as [Hall Htop].
  split; [exists self0, cur0; auto|].
  split; [exact Hholds|].
  split; [split; [exact Hall|]|].
  - intros limit. unfold Visualizer.print_detailed_breakdown.
    destruct (get_all_contributors p name); [congruence|].
    destruct (mapM _ _); cbn [bind]; discriminate.
  - intros limit Hl. split; [apply Htop, Hl|]. split.
    + unfold Visualizer.print_top_contributors.
      destruct (get_top_contributors p name limit) eqn:Et;
        [exfalso; apply (Htop limit Hl), Et|].
      destruct (mapM _ _); cbn [bind]; discriminate.
    + intros Hsum.
      apply (print_top_contributors_returns _ p name limit Hparse);
        [lia|apply Htop, Hl|exact Hsum].
Qed.

Lemma zero_size_header_keeps_items_witness :
  Samples.zero_header
  = [] ++ ln ".bss 0x20000000 0x0"
       :: [] ++ ln " .bss.buf 0x20000000 0x20 a.o" :: []
  /\ parse Samples.zero_header = Ok (Samples.model Samples.zero_header)
  /\ get_all_contributors (Samples.model Samples.zero_header) (str_of ".bss")
     <> [].
Proof.
  split; [reflexivity|].
  split; [vm_compute; reflexivity|].
  refine (proj1 (proj1 (proj2 (proj2
    (zero_size_header_keeps_items [] [] []
       (ln ".bss 0x20000000 0x0") (ln " .bss.buf 0x20000000 0x20 a.o")
       (str_of ".bss")
       {| info.vma := 536870912; info.lma := 536870912; info.size := 0 |}
       {| item.subsection := str_of ".bss.buf"; item.address := 536870912;
          item.size := 32; item.file := str_of "a.o" |}
       (Samples.model Samples.zero_header) _ _ _ _ _ _))))).
  - eexists. split; [vm_compute; reflexivity|].
    repeat split; vm_compute; reflexivity.
  - reflexivity.
  - constructor.
  - eexists. eexists. split; [vm_compute; reflexivity|].
    repeat split; vm_compute; reflexivity.
  - simpl; lia.
  - vm_compute; reflexivity.
Defined.

(** C1, as the specification has it, fails: the sub-entry under the
    header of size zero is not lost, both reports of [.bss] show it. *)
Lemma zero_size_header_items_found :
  header (ln ".bss 0x20000000 0x0") (str_of ".bss")
    {| info.vma := 536870912; info.lma := 536870912; info.size := 0 |}
  /\ exists p fl,
       parse Samples.zero_header = Ok p
       /\ get_summary p = [] /\ section_addresses p = []
       /\ get_top_contributors p (str_of ".bss") 10 = [(str_of "a.o", 32)]
       /\ Visualizer.print_top_contributors p (str_of ".bss") 10
          = Ok (Visualizer.Contributors
                  [{| Visualizer.c_rank := 1; Visualizer.c_size := 32;
                      Visualizer.c_size_str := Visualizer.Bytes 32;
                      Visualizer.c_percentage := fl;
                      Visualizer.c_file := str_of "a.o" |}])
       /\ Visualizer.print_detailed_breakdown p (str_of ".bss") 50
          = Ok (Visualizer.Breakdown
                  [{| Visualizer.b_address := 536870912;
                      Visualizer.b_size := 32;
                      Visualizer.b_size_str := Visualizer.Bytes 32;
                      Visualizer.b_subsection := str_of ".bss.buf";
                      Visualizer.b_file := str_of "a.o" |}]).
Proof.
  split.
  - eexists. split; [vm_compute; reflexivity|].
    repeat split; vm_compute; reflexivity.
  - do 2 eexists. split; [vm_compute; reflexivity|].
    repeat split; vm_compute; reflexivity.
Qed.

(** ** The shape of a sub-entry line *)

Lemma word_or_dot_non_space c : is_word_or_dot c = true -> non_space c = true.
Proof.
  destruct c as [[] [] [] [] [] [] [] []]; vm_compute; congruence.
Qed.

Lemma hex_non_space c : is_hex c = true -> non_space c = true.
Proof.
  destruct c as [[] [] [] [] [] [] [] []]; vm_compute; congruence.
Qed.

Lemma all_impl (p q : ascii -> bool) w :
  (forall c, p c = true -> q c = true) -> all p w -> all q w.
Proof. intros H. apply Forall_impl. exact H. Qed.

Lemma section_name_non_space w : section_name w -> all non_space w.
Proof.
  intros (a & b & -> & _ & Ha & Hb). constructor; [reflexivity|].
  apply Forall_app. split.
  - apply (all_impl is_word); [|assumption].
    intros c Hc. apply word_or_dot_non_space. unfold is_word_or_dot.
    rewrite Hc. reflexivity.
  - apply (all_impl is_word_or_dot); [|assumption].
    apply word_or_dot_non_space.
Qed.

Lemma hex_number_non_space w : hex_number w -> all non_space w.
Proof.
  intros (ds & -> & _ & Hd). constructor; [reflexivity|].
  constructor; [reflexivity|].
  apply (all_impl is_hex); [apply hex_non_space|assumption].
Qed.

Lemma stops_non_space w r : w <> [] -> all non_space w -> stops is_space (w ++ r).
Proof.
  intros Hne Hw. destruct w as [|c w]; [congruence|]. simpl.
  inversion Hw; subst. unfold non_space in *.
  destruct (is_space c); [discriminate|reflexivity].
Qed.

Lemma stops_spaces w r : spaces w -> stops non_space (w ++ r).
Proof.
  intros [Hne Hw]. destruct w as [|c w]; [congruence|]. simpl.
  inversion Hw as [|? ? Hc _]; subst. unfold non_space. rewrite Hc. reflexivity.
Qed.

Lemma section_name_stops w r : section_name w -> stops is_space (w ++ r).
Proof.
  intros H. apply stops_non_space;
    [apply section_name_not_nil, H|apply section_name_non_space, H].
Qed.

Lemma hex_number_stops w r : hex_number w -> stops is_space (w ++ r).
Proof.
  intros H. apply stops_non_space; [|apply hex_number_non_space, H].
  destruct H as (ds & -> & _). discriminate.
Qed.

Lemma span_unique (p : ascii -> bool) : forall u u' r r',
  all p u -> all p u' -> stops p r -> stops p r' ->
  u ++ r = u' ++ r' -> u = u' /\ r = r'.
Proof.
  induction u as [|c u IH]; intros [|c' u'] r r' Hu Hu' Hr Hr' E; simpl in E.
  - auto.
  - subst r. simpl in Hr. inversion Hu'; subst. congruence.
  - subst r'. simpl in Hr'. inversion Hu; subst. congruence.
  - injection E as <- E. inversion Hu; inversion Hu'; subst.
    destruct (IH u' r r') as [-> ->]; auto.
Qed.

(** An indented line that ends right after its size field is not taken
    for a sub-entry. *)
Lemma three_fields_no_symbol line ind nm ws1 a ws2 sz tail :
  line = ind ++ nm ++ ws1 ++ a ++ ws2 ++ sz ++ tail ->
  spaces ind -> section_name nm -> spaces ws1 -> hex_number a ->
  spaces ws2 -> hex_number sz -> tail = [] \/ tail = [nl] ->
  re_match symbol_re line = None.
Proof.
  intros Hl Hind Hnm Hws1 Ha Hws2 Hsz Htail.
  destruct (re_match symbol_re line) as [m|] eqn:E; [|reflexivity].
  exfalso.
  apply symbol_sound in E
    as (ind' & nm' & ws1' & a' & ws2' & sz' & ws3' & rest' & tail' & Hl'
        & Hind' & Hnm' & Hws1' & Ha' & Hws2' & Hsz' & Hws3' & Hrest' & _).
  rewrite Hl in Hl'. clear Hl.
  apply (span_unique is_space) in Hl' as [_ Hl'];
    [|apply Hind|apply Hind'|apply section_name_stops, Hnm
     |apply section_name_stops, Hnm'].
  apply (span_unique non_space) in Hl' as [_ Hl'];
    [|apply section_name_non_space, Hnm|apply section_name_non_space, Hnm'
     |apply stops_spaces, Hws1|apply stops_spaces, Hws1'].
  apply (span_unique is_space) in Hl' as [_ Hl'];
    [|apply Hws1|apply Hws1'|apply hex_number_stops, Ha
     |apply hex_number_stops, Ha'].
  apply (span_unique non_space) in Hl' as [_ Hl'];
    [|apply hex_number_non_space, Ha|apply hex_number_non_space, Ha'
     |apply stops_spaces, Hws2|apply stops_spaces, Hws2'].
  apply (span_unique is_space) in Hl' as [_ Hl'];
    [|apply Hws2|apply Hws2'|apply hex_number_stops, Hsz
     |apply hex_number_stops, Hsz'].
  apply (span_unique non_space) in Hl' as [_ Hl'];
    [|apply hex_number_non_space, Hsz|apply hex_number_non_space, Hsz'
     | |apply stops_spaces, Hws3'].
  - destruct Hws3' as [Hne3 _].
    destruct ws3' as [|c3 ws3']; [congruence|].
    destruct rest' as [|c4 rest']; [congruence|].
    destruct Htail as [->| ->]; [discriminate|].
    simpl in Hl'. injection Hl' as _ Hl'.
    destruct ws3'; discriminate.
  - destruct Htail as [->| ->]; simpl; reflexivity.
Qed.

Lemma sub_entry_shape line e :
  sub_entry line e ->
  exists ind nm ws1 a ws2 sz ws3 rest tail,
    line = ind ++ nm ++ ws1 ++ a ++ ws2 ++ sz ++ ws3 ++ rest ++ tail
    /\ spaces ind /\ section_name nm /\ spaces ws1 /\ hex_number a
    /\ spaces ws2 /\ hex_number sz /\ spaces ws3
    /\ rest <> [] /\ all not_newline rest
    /\ (tail = [] \/ tail = [nl])
    /\ item.subsection e = nm
    /\ int16 a = Ok (item.address e)
    /\ int16 sz = Ok (item.size e)
    /\ item.file e = strip rest.
Proof.
  intros (m & rest0 & Hm & G1 & G2 & G3 & G4 & Hf).
  apply symbol_sound in Hm
    as (ind & nm & ws1 & a & ws2 & sz & ws3 & rest & tail & Hl & Hind & Hnm
        & Hws1 & Ha & Hws2 & Hsz & Hws3 & Hne & Hrest & Htail & ->).
  unfold group_int, group_text in G2, G3. simpl in G1, G2, G3, G4.
  injection G1 as G1. injection G4 as <-.
  exists ind, nm, ws1, a, ws2, sz, ws3, rest, tail.
  repeat split; auto; try apply Hind; try apply Hws1; try apply Hws2;
    try apply Hws3.
Qed.

(** C7, as the code has it: a line adds an item only when the cursor is
    set and the line is white space, a name, an address, a size, white
    space and a remainder of at least one character before the line end;
    the file that is stored is that remainder stripped, so it is empty
    when the remainder is blank.  A line that matches the header pattern
    adds no item, and neither does an indented line that ends right after
    its size. *)
Theorem sub_entry_needs_remainder
        (self : MapFileParser.t) (cur : option str) (line : str)
        (st' : MapFileParser.t * option str) :
  parse_line (self, cur) line = Ok st' ->
  (sections (fst st') <> sections self ->
   exists name e ind nm ws1 a ws2 sz ws3 rest tail,
     truthy cur = Some name
     /\ st' = (store_item self name e, cur) /\ 0 < item.size e
     /\ line = ind ++ nm ++ ws1 ++ a ++ ws2 ++ sz ++ ws3 ++ rest ++ tail
     /\ spaces ind /\ section_name nm /\ spaces ws1 /\ hex_number a
     /\ spaces ws2 /\ hex_number sz /\ spaces ws3
     /\ rest <> [] /\ all not_newline rest
     /\ (tail = [] \/ tail = [nl])
     /\ item.subsection e = nm
     /\ int16 a = Ok (item.address e)
     /\ int16 sz = Ok (item.size e)
     /\ item.file e = strip rest)
  /\ ((exists m, re_match main_section_re line = Some m) ->
      sections (fst st') = sections self)
  /\ (forall ind nm ws1 a ws2 sz tail,
         line = ind ++ nm ++ ws1 ++ a ++ ws2 ++ sz ++ tail ->
         spaces ind -> section_name nm -> spaces ws1 -> hex_number a ->
         spaces ws2 -> hex_number sz -> tail = [] \/ tail = [nl] ->
         st' = (self, cur)).
Proof.
  intros H.
  destruct (parse_line_cases self cur line)
    as [(n & j & Hh & _ & _ & E)|[(n & e & Hcur & Hsub & Hmain & E)
                                 |(Hmain & Hsym & E)]];
    rewrite E in H; injection H as <-; cbn [fst].
  - split; [|split].
    + intros Hne. rewrite store_section_sections in Hne. congruence.
    + intros _. apply store_section_sections.
    + intros ind nm ws1 a ws2 sz tail Hl Hind Hnm Hws1 Ha Hws2 Hsz Htail.
      exfalso. destruct (header_facts line n j Hh) as (_ & _ & m & Hm).
      apply main_section_sound in Hm
        as (nm' & ? & ? & ? & ? & ? & Hl' & (x & y & -> & _) & _).
      rewrite Hl in Hl'. destruct Hind as [Hne Hsp].
      destruct ind as [|c ind]; [congruence|].
      inversion Hsp as [|? ? Hc _]; subst.
      simpl in Hl'. injection Hl' as -> _. discriminate.
  - split; [|split].
    + intros Hne.
      assert (Hpos : 0 < item.size e).
      { destruct (0 <? item.size e) eqn:Ez; [apply Z.ltb_lt, Ez|].
        exfalso. apply Hne. unfold store_item. rewrite Ez. reflexivity. }
      destruct (sub_entry_shape line e Hsub)
        as (ind & nm & ws1 & a & ws2 & sz & ws3 & rest & tail & Hshape).
      exists n, e, ind, nm, ws1, a, ws2, sz, ws3, rest, tail.
      split; [assumption|]. split; [reflexivity|]. split; assumption.
    + intros (m & Hm). congruence.
    + intros ind nm ws1 a ws2 sz tail Hl Hind Hnm Hws1 Ha Hws2 Hsz Htail.
      exfalso. destruct Hsub as (m & rest & Hm & _).
      rewrite (three_fields_no_symbol line ind nm ws1 a ws2 sz tail) in Hm;
        auto. discriminate.
  - split; [|split].
    + intros Hne. congruence.
    + reflexivity.
    + reflexivity.
Qed.

Lemma sub_entry_needs_remainder_witness :
  let st' :=
    (store_item init (str_of ".text")
       {| item.subsection := str_of ".text.foo"; item.address := 0;
          item.size := 16; item.file := str_of "a.o" |},
     Some (str_of ".text")) in
  parse_line (init, Some (str_of ".text")) (ln " .text.foo 0x0 0x10 a.o")
  = Ok st'
  /\ exists name e ind nm ws1 a ws2 sz ws3 rest tail,
       truthy (Some (str_of ".text")) = Some name
       /\ st' = (store_item init name e, Some (str_of ".text"))
       /\ 0 < item.size e
       /\ ln " .text.foo 0x0 0x10 a.o"
          = ind ++ nm ++ ws1 ++ a ++ ws2 ++ sz ++ ws3 ++ rest ++ tail
       /\ spaces ind /\ section_name nm /\ spaces ws1 /\ hex_number a
       /\ spaces ws2 /\ hex_number sz /\ spaces ws3
       /\ rest <> [] /\ all not_newline rest
       /\ (tail = [] \/ tail = [nl])
       /\ item.subsection e = nm
       /\ int16 a = Ok (item.address e)
       /\ int16 sz = Ok (item.size e)
       /\ item.file e = strip rest.
Proof.
  intros st'. split; [vm_compute; reflexivity|].
  refine (proj1
    (sub_entry_needs_remainder init (Some (str_of ".text"))
       (ln " .text.foo 0x0 0x10 a.o") st' _) _).
  - vm_compute; reflexivity.
  - vm_compute; discriminate.
Defined.

(** C7, as the specification has it, fails: the indented line [.text 0x0
    0x10] with two blanks after the size is taken for a sub-entry, and
    the file of the item that is stored is the empty string. *)
Lemma blank_remainder_stored :
  Samples.blank_file = [ln ".text 0x0 0x20"; ln " .text 0x0 0x10  "]
  /\ re_match symbol_re (ln " .text 0x0 0x10  ")
     = Some [(4%nat, str_of " "); (3%nat, str_of "0x10");
             (2%nat, str_of "0x0"); (1%nat, str_of ".text")]
  /\ strip (str_of " ") = []
  /\ exists p,
       parse Samples.blank_file = Ok p
       /\ Py.get (str_of ".text") (sections p)
          = Some [{| item.subsection := str_of ".text"; item.address := 0;
                     item.size := 16; item.file := [] |}].
Proof.
  split; [reflexivity|].
  split; [vm_compute; reflexivity|].
  split; [vm_compute; reflexivity|].
  eexists. split; vm_compute; reflexivity.
Qed.

(** ** No data *)

(** C8: a report on an empty model, or on a section name the model does
    not hold, returns the "no data" answer and raises nothing. *)
Theorem no_data_reports
        (p : MapFileParser.t) (section : str) (limit : Z) (use_vma : bool) :
  (get_summary p = [] ->
   Visualizer.print_section_summary p = Ok Visualizer.NoSections)
  /\ (Py.mem section (sections p) = false ->
      get_top_contributors p section limit = []
      /\ Visualizer.print_top_contributors p section limit
         = Ok (Visualizer.NoContributors section)
      /\ get_all_contributors p section = []
      /\ Visualizer.print_detailed_breakdown p section limit
         = Ok (Visualizer.NoBreakdown section))
  /\ (section_addresses p = [] ->
      Visualizer.print_memory_map p use_vma = Ok Visualizer.NoLayout).
Proof.
  split; [|split].
  - intros E. unfold Visualizer.print_section_summary. rewrite E. reflexivity.
  - unfold Py.mem. intros E.
    unfold Visualizer.print_top_contributors,
      Visualizer.print_detailed_breakdown, get_top_contributors,
      get_all_contributors.
    destruct (Py.get section (sections p)); [discriminate|].
    repeat split; reflexivity.
  - intros E. unfold Visualizer.print_memory_map. rewrite E. reflexivity.
Qed.

Lemma no_data_reports_witness :
  parse [] = Ok init
  /\ Visualizer.print_section_summary init = Ok Visualizer.NoSections
  /\ Visualizer.print_top_contributors init (str_of ".text") 20
     = Ok (Visualizer.NoContributors (str_of ".text"))
  /\ Visualizer.print_detailed_breakdown init (str_of ".text") 50
     = Ok (Visualizer.NoBreakdown (str_of ".text"))
  /\ Visualizer.print_memory_map init true = Ok Visualizer.NoLayout.
Proof.
  pose proof (no_data_reports init (str_of ".text") 20 true) as (H1 & H2 & H3).
  pose proof (no_data_reports init (str_of ".text") 50 true) as (_ & H4 & _).
  split; [reflexivity|].
  split; [apply H1; reflexivity|].
  split; [apply H2; reflexivity|].
  split; [apply H4; reflexivity|apply H3; reflexivity].
Defined.

(** ** The walk of the memory map *)

Import Visualizer.

Lemma header_addresses line name i :
  header line name i -> 0 <= info.vma i /\ 0 <= info.lma i.
Proof.
  intros (m & Hm & _ & G2 & _ & Hl).
  apply main_section_sound in Hm
    as (nm & ws1 & a & ws2 & sz & rest & _ & _ & _ & Ha & _ & _ & ->).
  destruct (int16_hex a Ha) as (va & Hva & Hpos).
  unfold group_int, group_text in G2. simpl in G2.
  rewrite Hva in G2. injection G2 as G2. rewrite <- G2.
  split; [assumption|].
  unfold load_address in Hl.
  destruct (re_search load_re line) as [lm|] eqn:E.
  - apply load_sound in E as (pre & h & post & _ & Hh & ->).
    destruct (int16_hex h Hh) as (vl & Hvl & Hlpos).
    unfold group_int, group_text in Hl. simpl in Hl.
    rewrite Hvl in Hl. injection Hl as <-. assumption.
  - injection Hl as <-. lia.
Qed.

Lemma nonneg_addresses_step st line st' :
  nonneg_addresses (fst st) -> parse_line st line = Ok st' ->
  nonneg_addresses (fst st').
Proof.
  destruct st as [self cur]. intros HP H. cbn [fst] in HP.
  destruct (parse_line_cases self cur line)
    as [(name & i & Hh & _ & _ & E)|[(name & e & _ & _ & _ & E)|(_ & _ & E)]];
    rewrite E in H; injection H as <-; cbn [fst]; unfold nonneg_addresses.
  - unfold store_section. destruct (0 <? info.size i); [|assumption].
    simpl. apply all_values_set; [assumption|].
    apply (header_addresses line name i Hh).
  - destruct (store_item_tables self name e) as [_ ->]. assumption.
  - assumption.
Qed.

Lemma parse_nonneg_addresses lines p :
  parse lines = Ok p -> nonneg_addresses p.
Proof.
  intros H. apply parse_loop_of_parse in H as (cur & H).
  apply (parse_loop_invariant (fun st => nonneg_addresses (fst st))
           nonneg_addresses_step lines (init, None) (p, cur));
    [constructor|assumption].
Qed.

Lemma gap_sizes_app l1 l2 : gap_sizes (l1 ++ l2) = gap_sizes l1 ++ gap_sizes l2.
Proof.
  induction l1 as [|[f t g|s o] l1 IH]; simpl; [reflexivity| |assumption].
  rewrite IH. reflexivity.
Qed.

Lemma gap_lines_plain region_total w sec gl :
  gap_lines region_total w sec = Ok gl ->
  map plain gl = gap_before (prev_end w) sec.
Proof.
  unfold gap_lines, gap_before.
  destruct (prev_end w <? start sec).
  - destruct (format_size _); [|discriminate]. cbn [bind].
    destruct (cells 40 _ _); [|discriminate]. cbn [bind].
    intros H; injection H as <-. reflexivity.
  - intros H; injection H as <-. reflexivity.
Qed.

Lemma walk_step_inv use_vma region_total w sec w' :
  walk_step use_vma region_total w sec = Ok w' ->
  prev_end w' = end_ sec
  /\ total_used w' = total_used w + size sec
  /\ total_gaps w'
     = total_gaps w + Py.sum (gap_sizes (gap_before (prev_end w) sec))
  /\ map plain (printed w')
     = map plain (printed w)
       ++ gap_before (prev_end w) sec ++ [PSec sec (other use_vma sec)].
Proof.
  unfold walk_step.
  destruct (gap_lines region_total w sec) as [gl|] eqn:Eg; [|discriminate].
  apply gap_lines_plain in Eg. cbn [bind].
  destruct (format_size (size sec)); [|discriminate]. cbn [bind].
  destruct (cells 60 _ _); [|discriminate]. cbn [bind].
  intros H; injection H as <-. cbn [prev_end total_used total_gaps printed].
  rewrite !map_app, Eg. cbn [map plain].
  repeat split; try reflexivity.
  unfold gap_before. destruct (prev_end w <? start sec); cbn [gap_sizes].
  - rewrite sum_cons. unfold Py.sum. simpl. lia.
  - unfold Py.sum. simpl. lia.
Qed.

Lemma walk_fold use_vma region_total : forall secs w w',
  foldM (walk_step use_vma region_total) secs w = Ok w' ->
  map plain (printed w')
  = map plain (printed w) ++ walk_lines use_vma (prev_end w) secs
  /\ total_used w' = total_used w + Py.sum (map size secs)
  /\ total_gaps w'
     = total_gaps w
       + Py.sum (gap_sizes (walk_lines use_vma (prev_end w) secs)).
Proof.
  induction secs as [|sec secs IH]; intros w w' H; cbn [foldM] in H.
  - injection H as <-. cbn [walk_lines gap_sizes map]. rewrite app_nil_r.
    unfold Py.sum. simpl. repeat split; lia.
  - destruct (walk_step use_vma region_total w sec) as [w1|] eqn:E1;
      [|discriminate].
    cbn [bind] in H.
    apply walk_step_inv in E1 as (Hp & Hu & Hg & Hl).
    destruct (IH w1 w' H) as (H1 & H2 & H3).
    rewrite H1, H2, H3, Hp, Hu, Hg, Hl. cbn [walk_lines map].
    rewrite sum_cons, gap_sizes_app, sum_app. cbn [gap_sizes].
    rewrite <- !app_assoc. cbn [app]. repeat split; lia.
Qed.

Lemma last_cons {A} (l : list A) : forall a d, last (a :: l) d = last l a.
Proof.
  induction l as [|b l IH]; intros a d; [reflexivity|].
  change (last (a :: b :: l) d) with (last (b :: l) d).
  rewrite (IH b d), (IH b a). reflexivity.
Qed.

Lemma walk_lines_app use_vma sec after : forall before prev,
  walk_lines use_vma prev (before ++ sec :: after)
  = walk_lines use_vma prev before
    ++ gap_before (last (map end_ before) prev) sec
    ++ PSec sec (other use_vma sec) :: walk_lines use_vma (end_ sec) after.
Proof.
  induction before as [|b before IH]; intros prev.
  - reflexivity.
  - cbn [app walk_lines map]. rewrite IH, last_cons, <- !app_assoc.
    reflexivity.
Qed.

Lemma walk_lines_gaps use_vma : forall secs prev from to g,
  In (PGap from to g) (walk_lines use_vma prev secs) ->
  0 < g /\ g = to - from.
Proof.
  induction secs as [|sec secs IH]; intros prev from to g; [contradiction|].
  cbn [walk_lines]. unfold gap_before. intros Hin.
  apply in_app_or in Hin as [Hin|[Hin|Hin]].
  - destruct (prev <? start sec) eqn:E; [|contradiction].
    apply Z.ltb_lt in E. destruct Hin as [Hin|[]].
    injection Hin as <- <- <-. lia.
  - discriminate.
  - apply (IH _ _ _ _ Hin).
Qed.

Lemma collect_sizes use_vma (d : Py.dict info.t) :
  map size (collect use_vma d) = map info.size (Py.values d).
Proof.
  unfold collect, Py.values. rewrite !map_map. apply map_ext.
  intros [n i]. reflexivity.
Qed.

(** What a report that returns has printed. *)
Lemma print_memory_map_inv p use_vma l :
  print_memory_map p use_vma = Ok (Layout l) ->
  exists first rest,
    Py.sorted start (collect use_vma (section_addresses p)) = first :: rest
    /\ region_start l = start first
    /\ region_end l = end_ (last (first :: rest) first)
    /\ region_total l = region_end l - region_start l
    /\ map plain (lines l) = walk_lines use_vma (start first) (first :: rest)
    /\ used l = Py.sum (map size (first :: rest))
    /\ gaps l = Py.sum (gap_sizes (map plain (lines l))).
Proof.
  unfold print_memory_map.
  destruct (section_addresses p) as [|a0 d] eqn:Ed; [discriminate|].
  destruct (Py.sorted start (collect use_vma (a0 :: d)))
    as [|first rest] eqn:Es; [discriminate|].
  cbv zeta.
  destruct (format_size _) as [rs|]; [|discriminate]. cbn [bind].
  destruct (foldM _ _ _) as [w|] eqn:Ef; [|discriminate]. cbn [bind].
  destruct (format_size (total_used w)); [|discriminate]. cbn [bind].
  destruct (format_size (total_gaps w)); [|discriminate]. cbn [bind].
  intros H; injection H as <-.
  apply walk_fold in Ef as (H1 & H2 & H3).
  cbn [prev_end total_used total_gaps printed map app] in H1, H2, H3.
  exists first, rest.
  cbn [region_start region_end region_total lines used gaps].
  rewrite H1, H2, H3. repeat split; lia.
Qed.

(** ** The memory map returns *)

Lemma pow_960_990 : 2 ^ 960 < 2 ^ 990.
Proof. apply Z.pow_lt_mono_r; lia. Qed.

Lemma cells_ok n part whole :
  0 <= n <= 64 -> 0 <= part < 2 ^ 960 -> 0 < whole ->
  exists k, cells n part whole = Ok k.
Proof.
  intros Hn Hpart Hwhole. unfold cells.
  assert (Hle : n * part <= whole * 2 ^ 971).
  { assert (H1 : 2 ^ 971 = 2 ^ 11 * 2 ^ 960)
      by (rewrite <- Z.pow_add_r by lia; reflexivity).
    rewrite H1. change (2 ^ 11) with 2048.
    generalize dependent (2 ^ 960). intros T Hpart _. nia. }
  destruct (truediv_ok (n * part) whole 971 ltac:(nia) Hwhole Hle
              ltac:(lia)) as (x & -> & Hx).
  cbn [bind]. destruct (to_int_ok _ _ _ Hx) as (k & -> & _).
  cbn [bind]. eauto.
Qed.

Lemma walk_step_returns use_vma region_total w sec :
  0 < region_total -> 0 <= prev_end w -> small_section sec ->
  exists w', walk_step use_vma region_total w sec = Ok w'.
Proof.
  intros Hrt Hprev (Hs & Hsz & He & Hend).
  pose proof pow_960_990 as Hpow.
  unfold walk_step, gap_lines.
  assert (Hgl : exists gl,
             (if prev_end w <? start sec
              then
                gap_str <- format_size (start sec - prev_end w) ;;
                k <- cells 40 (start sec - prev_end w) region_total ;;
                Ok [Gap (prev_end w) (start sec) (start sec - prev_end w)
                      gap_str (Py.repeat_chr "." k)]
              else Ok []) = Ok gl).
  { destruct (prev_end w <? start sec) eqn:E; [|eauto].
    apply Z.ltb_lt in E.
    destruct (format_size_ok (start sec - prev_end w) ltac:(lia)) as (s & ->).
    cbn [bind].
    destruct (cells_ok 40 (start sec - prev_end w) region_total
                ltac:(lia) ltac:(lia) Hrt) as (k & ->).
    cbn [bind]. eauto. }
  destruct Hgl as (gl & ->). cbn [bind].
  destruct (format_size_ok (size sec) ltac:(lia)) as (s & ->). cbn [bind].
  destruct (cells_ok 60 (size sec) region_total ltac:(lia) ltac:(lia) Hrt)
    as (k & ->).
  cbn [bind]. eauto.
Qed.

Lemma walk_returns use_vma region_total :
  0 < region_total ->
  forall secs w,
    0 <= prev_end w -> Forall small_section secs ->
    exists w', foldM (walk_step use_vma region_total) secs w = Ok w'.
Proof.
  intros Hrt. induction secs as [|sec secs IH]; intros w Hprev Hall;
    cbn [foldM].
  - eauto.
  - inversion Hall as [|? ? Hsec Hrest]; subst.
    destruct (walk_step_returns use_vma region_total w sec Hrt Hprev Hsec)
      as (w1 & E1).
    rewrite E1. cbn [bind]. apply IH; [|assumption].
    apply walk_step_inv in E1 as (-> & _).
    destruct Hsec as (? & ? & ? & _). lia.
Qed.

Lemma gaps_bound use_vma : forall secs prev s0,
  s0 <= prev ->
  StronglySorted (fun a b => start a <= start b) secs ->
  Forall small_section secs ->
  Forall (fun s => s0 <= start s) secs ->
  0 <= Py.sum (gap_sizes (walk_lines use_vma prev secs))
    <= last (map start secs) s0 - s0.
Proof.
  induction secs as [|sec secs IH]; intros prev s0 Hprev Hsorted Hall Hlow.
  - cbn. unfold Py.sum. simpl. lia.
  - inversion Hsorted as [|? ? Hs Hle]; subst.
    inversion Hall as [|? ? (H0 & Hsz & He & _) Hrest]; subst.
    inversion Hlow as [|? ? Hl0 _]; subst.
    specialize (IH (end_ sec) (start sec) ltac:(lia) Hs Hrest Hle).
    cbn [walk_lines map]. rewrite last_cons.
    rewrite gap_sizes_app, sum_app. cbn [gap_sizes].
    assert (Hlast : start sec <= last (map start secs) (start sec)) by lia.
    unfold gap_before. destruct (prev <? start sec) eqn:E; cbn [gap_sizes].
    + apply Z.ltb_lt in E. rewrite sum_cons.
      replace (Py.sum []) with 0 by reflexivity. lia.
    + replace (Py.sum []) with 0 by reflexivity. lia.
Qed.

Lemma collect_small lines p use_vma :
  parse lines = Ok p -> within_range p ->
  Forall small_section (collect use_vma (section_addresses p)).
Proof.
  intros Hp (Hr & _).
  destruct (parse_positive_sizes lines p Hp) as (_ & Hpos & _).
  pose proof (parse_nonneg_addresses lines p Hp) as Hnn.
  unfold nonneg_addresses, all_values in *. unfold collect.
  apply Forall_map.
  rewrite Forall_forall in *. intros [n i] Hin.
  specialize (Hr _ Hin). specialize (Hpos _ Hin). specialize (Hnn _ Hin).
  cbn [snd] in Hr, Hpos, Hnn. unfold small_section.
  cbn [start size end_]. destruct use_vma; lia.
Qed.

Lemma last_in {A} (l : list A) (d : A) : In (last (d :: l) d) (d :: l).
Proof.
  revert d. induction l as [|a l IH]; intros d; [left; reflexivity|].
  rewrite !last_cons. specialize (IH a). rewrite last_cons in IH.
  right. exact IH.
Qed.

Lemma last_map_in {A} (f : A -> Z) (l : list A) (d : A) :
  exists x, In x (d :: l) /\ last (map f (d :: l)) (f d) = f x.
Proof.
  revert d. induction l as [|a l IH]; intros d.
  - exists d. simpl. auto.
  - cbn [map]. rewrite last_cons.
    destruct (IH a) as (x & Hin & Hx). exists x. split; [right; exact Hin|].
    cbn [map] in Hx. rewrite <- Hx. rewrite !last_cons. reflexivity.
Qed.

(** The report of the memory map returns for every parsed model whose
    ranges end below 2^960 and whose sizes add up to less than that. *)
Lemma print_memory_map_returns lines p use_vma :
  parse lines = Ok p -> section_addresses p <> [] -> within_range p ->
  exists l, print_memory_map p use_vma = Ok (Layout l).
Proof.
  intros Hp Hne Hr.
  pose proof (collect_small lines p use_vma Hp Hr) as Hsmall.
  pose proof pow_960_990 as Hpow.
  unfold print_memory_map.
  destruct (section_addresses p) as [|a0 d] eqn:Ed; [congruence|].
  rewrite <- Ed in *.
  pose proof (sorted_perm start (collect use_vma (section_addresses p))) as Hperm.
  pose proof (sorted_sorted start (collect use_vma (section_addresses p)))
    as Hsorted.
  assert (Hsum : Py.sum (map size
                   (Py.sorted start (collect use_vma (section_addresses p))))
                 < 2 ^ 960).
  { rewrite (sum_perm _ _ (Permutation_map size Hperm)), collect_sizes.
    apply Hr. }
  apply (Permutation_Forall (Permutation_sym Hperm)) in Hsmall.
  destruct (Py.sorted start (collect use_vma (section_addresses p)))
    as [|first rest] eqn:Es.
  { apply Permutation_nil in Hperm. rewrite Ed in Hperm. discriminate. }
  cbv zeta.
  inversion Hsorted as [|? ? Hsrest Hfirst]; subst.
  pose proof (last_in rest first) as Hlast.
  rewrite Forall_forall in Hsmall.
  pose proof (Hsmall _ Hlast) as (Hl0 & Hlsz & Hle & Hlend).
  pose proof (Hsmall first (or_introl eq_refl)) as (Hf0 & Hfsz & Hfe & Hfend).
  assert (Hfl : start first <= start (last (first :: rest) first)).
  { destruct Hlast as [<-|Hin]; [lia|].
    rewrite Forall_forall in Hfirst. apply Hfirst, Hin. }
  set (rt := end_ (last (first :: rest) first) - start first).
  assert (Hrt : 0 < rt < 2 ^ 960) by (unfold rt; lia).
  destruct (format_size_ok rt ltac:(lia)) as (rs & ->). cbn [bind].
  destruct (walk_returns use_vma rt (proj1 Hrt) (first :: rest)
              {| prev_end := start first; total_used := 0; total_gaps := 0;
                 printed := [] |})
    as (w & Ew); [exact Hf0|apply Forall_forall, Hsmall|].
  rewrite Ew. cbn [bind].
  apply walk_fold in Ew as (_ & Hu & Hg).
  cbn [prev_end total_used total_gaps] in Hu, Hg.
  destruct (format_size_ok (total_used w) ltac:(lia)) as (us & ->).
  cbn [bind].
  assert (Hgb : total_gaps w < 2 ^ 960).
  { pose proof (gaps_bound use_vma (first :: rest) (start first) (start first)
                  ltac:(lia) Hsorted (proj2 (Forall_forall _ _) Hsmall)) as Hb.
    destruct (last_map_in start rest first) as (x & Hx & Hlx).
    rewrite Hlx in Hb.
    pose proof (Hsmall x Hx) as (Hx0 & Hxsz & Hxe & Hxend).
    assert (Hlow : Forall (fun s => start first <= start s) (first :: rest)).
    { constructor; [lia|exact Hfirst]. }
    specialize (Hb Hlow). lia. }
  destruct (format_size_ok (total_gaps w) ltac:(lia)) as (gs & ->).
  cbn [bind]. eauto.
Qed.

(** C3: the sections are walked in rising order of their start; a gap is
    printed before a section exactly when the section starts above
    [prev_end], which is the start of the first section and then the end
    of the section before, and the gap has the size [start - prev_end];
    the bytes used and the bytes of the gaps are added up on the way.
    The ranges [0, 100) and [150, 200) give one gap, [100, 150) of size
    50, 150 bytes used and 50 bytes of gaps. *)
Theorem memory_map_gaps :
  (forall p use_vma l,
      print_memory_map p use_vma = Ok (Layout l) ->
      exists first rest,
        Py.sorted start (collect use_vma (section_addresses p))
        = first :: rest
        /\ StronglySorted (fun a b => start a <= start b) (first :: rest)
        /\ region_start l = start first
        /\ (forall before sec after,
               first :: rest = before ++ sec :: after ->
               let prev_end := last (map end_ before) (start first) in
               map plain (lines l)
               = walk_lines use_vma (start first) before
                 ++ (if prev_end <? start sec
                     then [PGap prev_end (start sec) (start sec - prev_end)]
                     else [])
                 ++ PSec sec (other use_vma sec)
                    :: walk_lines use_vma (end_ sec) after)
        /\ used l = Py.sum (map size (first :: rest))
        /\ gaps l = Py.sum (gap_sizes (map plain (lines l))))
  /\ (forall lines p use_vma,
         parse lines = Ok p -> section_addresses p <> [] -> within_range p ->
         exists l, print_memory_map p use_vma = Ok (Layout l))
  /\ (exists p l a b,
         parse Samples.two_ranges = Ok p
         /\ print_memory_map p true = Ok (Layout l)
         /\ map plain (lines l) = [PSec a None; PGap 100 150 50; PSec b None]
         /\ (start a, end_ a) = (0, 100) /\ (start b, end_ b) = (150, 200)
         /\ used l = 150 /\ gaps l = 50).
Proof.
  split; [|split].
  - intros p use_vma l Hl.
    destruct (print_memory_map_inv p use_vma l Hl)
      as (first & rest & Hs & Hrs & _ & _ & Hlines & Hused & Hgaps).
    exists first, rest. split; [exact Hs|].
    split; [rewrite <- Hs; apply sorted_sorted|].
    split; [exact Hrs|]. split; [|split; assumption].
    intros before sec after E. rewrite Hlines, E. apply walk_lines_app.
  - intros lines p use_vma Hp Hne Hr.
    apply (print_memory_map_returns lines p use_vma Hp Hne Hr).
  - do 4 eexists. split; [vm_compute; reflexivity|].
    split; [vm_compute; reflexivity|].
    split; [vm_compute; reflexivity|].
    repeat split; vm_compute; reflexivity.
Qed.

Lemma memory_map_gaps_witness :
  parse Samples.two_ranges = Ok (Samples.model Samples.two_ranges)
  /\ within_range (Samples.model Samples.two_ranges)
  /\ exists l,
       print_memory_map (Samples.model Samples.two_ranges) true
       = Ok (Layout l).
Proof.
  assert (Hr : within_range (Samples.model Samples.two_ranges)).
  { split.
    - repeat constructor; vm_compute; reflexivity.
    - vm_compute; reflexivity. }
  split; [vm_compute; reflexivity|]. split; [exact Hr|].
  refine (proj1 (proj2 memory_map_gaps) Samples.two_ranges
            (Samples.model Samples.two_ranges) true _ _ Hr).
  - vm_compute; reflexivity.
  - vm_compute; discriminate.
Defined.

(** C10: [prev_end] becomes the end of the section just printed, whatever
    the sections before it reached: between two sections that follow each
    other a gap is printed exactly when the second starts above the end of
    the first, measured from that end; no gap of size zero or below is
    printed; and the bytes used are the sum of all sizes of the address
    information, overlap or not.  With [0, 100), [10, 20) and [50, 60)
    the one gap is [20, 50), though the first section reaches 100. *)
Theorem walk_takes_last_end :
  (forall p use_vma l,
      print_memory_map p use_vma = Ok (Layout l) ->
      (forall before s s' after,
          Py.sorted start (collect use_vma (section_addresses p))
          = before ++ s :: s' :: after ->
          exists l1 l2,
            map plain (lines l)
            = l1 ++ PSec s (other use_vma s)
                 :: (if end_ s <? start s'
                     then [PGap (end_ s) (start s') (start s' - end_ s)]
                     else [])
                 ++ PSec s' (other use_vma s') :: l2)
      /\ (forall from to g,
             In (PGap from to g) (map plain (lines l)) ->
             0 < g /\ g = to - from)
      /\ used l
         = Py.sum (map info.size (Py.values (section_addresses p))))
  /\ (forall lines p use_vma,
         parse lines = Ok p -> section_addresses p <> [] -> within_range p ->
         exists l, print_memory_map p use_vma = Ok (Layout l))
  /\ (exists p l a b c,
         parse Samples.overlapping = Ok p
         /\ print_memory_map p true = Ok (Layout l)
         /\ map plain (lines l)
            = [PSec a None; PSec b None; PGap 20 50 30; PSec c None]
         /\ (start a, end_ a) = (0, 100) /\ (start b, end_ b) = (10, 20)
         /\ (start c, end_ c) = (50, 60)
         /\ used l = 120 /\ gaps l = 30).
Proof.
  split; [|split].
  - intros p use_vma l Hl.
    destruct (print_memory_map_inv p use_vma l Hl)
      as (first & rest & Hs & _ & _ & _ & Hlines & Hused & _).
    split; [|split].
    + intros before s s' after E. rewrite Hs in E. rewrite Hlines, E.
      rewrite walk_lines_app. cbn [walk_lines]. unfold gap_before at 2.
      eexists (_ ++ _), _. rewrite <- app_assoc. reflexivity.
    + intros from to g Hin. rewrite Hlines in Hin.
      apply (walk_lines_gaps _ _ _ _ _ _ Hin).
    + rewrite Hused, <- Hs, <- collect_sizes with (use_vma := use_vma).
      apply sum_perm, Permutation_map, sorted_perm.
  - intros lines p use_vma Hp Hne Hr.
    apply (print_memory_map_returns lines p use_vma Hp Hne Hr).
  - do 5 eexists. split; [vm_compute; reflexivity|].
    split; [vm_compute; reflexivity|].
    split; [vm_compute; reflexivity|].
    repeat split; vm_compute; reflexivity.
Qed.

Lemma walk_takes_last_end_witness :
  parse Samples.overlapping = Ok (Samples.model Samples.overlapping)
  /\ exists l,
       print_memory_map (Samples.model Samples.overlapping) true
       = Ok (Layout l)
       /\ (forall from to g,
              In (PGap from to g) (map plain (lines l)) ->
              0 < g /\ g = to - from)
       /\ used l
          = Py.sum (map info.size
                      (Py.values (section_addresses
                                    (Samples.model Samples.overlapping)))).
Proof.
  split; [vm_compute; reflexivity|].
  assert (Hr : within_range (Samples.model Samples.overlapping)).
  { split.
    - repeat constructor; vm_compute; reflexivity.
    - vm_compute; reflexivity. }
  destruct (proj1 (proj2 walk_takes_last_end) Samples.overlapping
              (Samples.model Samples.overlapping) true) as (l & Hl).
  - vm_compute; reflexivity.
  - vm_compute; discriminate.
  - exact Hr.
  - exists l. split; [exact Hl|].
    destruct (proj1 walk_takes_last_end _ _ _ Hl) as (_ & H2 & H3).
    split; assumption.
Defined.

(** * More of the parser and the reports *)

(** ** The patterns take the lines they are written for *)

Import Shapes.

Lemma greedy_longest {R} (p : ascii -> bool) (k : str -> option R) w rest r :
  all p w -> stops p rest -> k rest = Some r ->
  greedy p k (w ++ rest) = Some r.
Proof.
  intros Hw Hr Hk. induction Hw as [|c w Hc _ IH]; cbn [app greedy].
  - destruct rest as [|c rest]; [exact Hk|].
    cbn [stops] in Hr. cbn [greedy]. rewrite Hr. exact Hk.
  - rewrite Hc, IH. reflexivity.
Qed.

Lemma run_plus_longest {R} subject (p : ascii -> bool) w rest caps
      (k : str -> captures -> option R) r :
  w <> [] -> all p w -> stops p rest -> k rest caps = Some r ->
  run subject (Plus p) (w ++ rest) caps k = Some r.
Proof.
  intros Hne Hw Hr Hk. destruct w as [|c w]; [congruence|].
  inversion Hw as [|? ? Hc Hw']; subst. cbn [app run]. rewrite Hc.
  apply (greedy_longest p (fun x => k x caps)); assumption.
Qed.

Lemma run_lit {R} subject l rest caps (k : str -> captures -> option R) :
  run subject (Lit l) (l ++ rest) caps k = k rest caps.
Proof.
  cbn [run].
  assert (H : startswith (l ++ rest) l = true).
  { induction l as [|c l IH]; [destruct rest; reflexivity|].
    cbn [app startswith]. rewrite Ascii.eqb_refl. exact IH. }
  rewrite H. clear H. f_equal. induction l; [reflexivity|simpl; assumption].
Qed.

Lemma run_grp {R} subject n r1 x caps (k : str -> captures -> option R) :
  run subject (Grp n r1) x caps k
  = run subject r1 x caps
      (fun x' caps' => k x' ((n, firstn (length x - length x') x) :: caps')).
Proof. reflexivity. Qed.

Lemma run_cat {R} subject r1 r2 x caps (k : str -> captures -> option R) :
  run subject (r1 @@ r2) x caps k
  = run subject r1 x caps (fun x' caps' => run subject r2 x' caps' k).
Proof. reflexivity. Qed.

Lemma run_bol {R} subject caps (k : str -> captures -> option R) :
  run subject Bol subject caps k = k subject caps.
Proof. cbn [run]. rewrite Nat.eqb_refl. reflexivity. Qed.

Lemma space_stops_word_or_dot w r : spaces w -> stops is_word_or_dot (w ++ r).
Proof.
  intros [Hne Hw]. destruct w as [|c w]; [congruence|]. cbn [app stops].
  inversion Hw as [|? ? Hc _]; subst.
  destruct (is_word_or_dot c) eqn:E; [|reflexivity].
  apply word_or_dot_non_space in E. unfold non_space in E.
  rewrite Hc in E. discriminate.
Qed.

Lemma space_stops_hex w r : spaces w -> stops is_hex (w ++ r).
Proof.
  intros [Hne Hw]. destruct w as [|c w]; [congruence|]. cbn [app stops].
  inversion Hw as [|? ? Hc _]; subst.
  destruct (is_hex c) eqn:E; [|reflexivity].
  apply hex_non_space in E. unfold non_space in E.
  rewrite Hc in E. discriminate.
Qed.

Lemma stops_word (p q : ascii -> bool) r :
  (forall c, q c = true -> p c = true) -> stops p r -> stops q r.
Proof.
  intros H. destruct r as [|c r]; [auto|]. cbn [stops]. intros Hp.
  destruct (q c) eqn:E; [|reflexivity]. apply H in E. congruence.
Qed.

(** the name: the run of word characters as far as it goes, then the run
    of word characters and dots *)
Lemma name_tail_longest {R} (k : str -> option R) s rest r :
  all is_word_or_dot s -> stops is_word_or_dot rest -> k rest = Some r ->
  greedy is_word (fun x => greedy is_word_or_dot k x) (s ++ rest) = Some r.
Proof.
  intros Hs Hr Hk. induction Hs as [|c s Hc Hs IH]; cbn [app].
  - apply (greedy_longest is_word _ [] rest); [constructor| |].
    + apply (stops_word is_word_or_dot); [|exact Hr].
      intros c Hc. unfold is_word_or_dot. rewrite Hc. reflexivity.
    + apply (greedy_longest is_word_or_dot k [] rest); auto. constructor.
  - cbn [greedy]. destruct (is_word c).
    + rewrite IH. reflexivity.
    + apply (greedy_longest is_word_or_dot k (c :: s) rest); auto.
      constructor; assumption.
Qed.

Lemma run_name {R} subject nm rest caps (k : str -> captures -> option R) r :
  section_name nm -> stops is_word_or_dot rest -> k rest caps = Some r ->
  run subject name_re (nm ++ rest) caps k = Some r.
Proof.
  intros (a & b & -> & Hne & Ha & Hb) Hr Hk. unfold name_re.
  rewrite run_cat, <- app_assoc, run_lit, run_cat.
  destruct a as [|c a]; [congruence|]. inversion Ha as [|? ? Hc Ha']; subst.
  cbn [app run]. rewrite Hc.
  apply (name_tail_longest (fun x => k x caps)); auto.
  apply Forall_app. split; [|exact Hb].
  apply (all_impl is_word); [|exact Ha'].
  intros c' Hc'. unfold is_word_or_dot. rewrite Hc'. reflexivity.
Qed.

Lemma run_hex {R} subject h rest caps (k : str -> captures -> option R) r :
  hex_number h -> stops is_hex rest -> k rest caps = Some r ->
  run subject hex_re (h ++ rest) caps k = Some r.
Proof.
  intros (ds & -> & Hne & Hd) Hr Hk. unfold hex_re.
  rewrite run_cat, <- app_assoc, run_lit.
  apply run_plus_longest; assumption.
Qed.

Lemma main_section_complete nm ws1 a ws2 sz rest :
  section_name nm -> spaces ws1 -> hex_number a -> spaces ws2 ->
  hex_number sz -> stops is_hex rest ->
  re_match main_section_re (nm ++ ws1 ++ a ++ ws2 ++ sz ++ rest)
  = Some [(3%nat, sz); (2%nat, a); (1%nat, nm)].
Proof.
  intros Hnm Hw1 Ha Hw2 Hsz Hrest. unfold re_match, main_section_re.
  rewrite run_cat, run_bol, run_cat, run_grp.
  apply run_name; [exact Hnm|apply space_stops_word_or_dot, Hw1|].
  rewrite firstn_consumed, run_cat.
  apply run_plus_longest;
    [apply Hw1|apply Hw1|apply hex_number_stops, Ha|].
  rewrite run_cat, run_grp.
  apply run_hex; [exact Ha|apply space_stops_hex, Hw2|].
  rewrite firstn_consumed, run_cat.
  apply run_plus_longest;
    [apply Hw2|apply Hw2|apply hex_number_stops, Hsz|].
  rewrite run_grp.
  apply run_hex; [exact Hsz|exact Hrest|].
  rewrite firstn_consumed. reflexivity.
Qed.

Lemma symbol_complete ind nm ws1 a ws2 sz ws3 file tail :
  spaces ind -> section_name nm -> spaces ws1 -> hex_number a ->
  spaces ws2 -> hex_number sz -> spaces ws3 ->
  file <> [] -> all not_newline file -> stops is_space file ->
  tail = [] \/ tail = [nl] ->
  re_match symbol_re
    (ind ++ nm ++ ws1 ++ a ++ ws2 ++ sz ++ ws3 ++ file ++ tail)
  = Some [(4%nat, file); (3%nat, sz); (2%nat, a); (1%nat, nm)].
Proof.
  intros Hind Hnm Hw1 Ha Hw2 Hsz Hw3 Hne Hfile Hstop Htail.
  unfold re_match, symbol_re.
  rewrite run_cat, run_bol, run_cat.
  apply run_plus_longest;
    [apply Hind|apply Hind|apply section_name_stops, Hnm|].
  rewrite run_cat, run_grp.
  apply run_name; [exact Hnm|apply space_stops_word_or_dot, Hw1|].
  rewrite firstn_consumed, run_cat.
  apply run_plus_longest;
    [apply Hw1|apply Hw1|apply hex_number_stops, Ha|].
  rewrite run_cat, run_grp.
  apply run_hex; [exact Ha|apply space_stops_hex, Hw2|].
  rewrite firstn_consumed, run_cat.
  apply run_plus_longest;
    [apply Hw2|apply Hw2|apply hex_number_stops, Hsz|].
  rewrite run_cat, run_grp.
  apply run_hex; [exact Hsz|apply space_stops_hex, Hw3|].
  rewrite firstn_consumed, run_cat.
  apply run_plus_longest; [apply Hw3|apply Hw3| |].
  { destruct file as [|c file]; [congruence|]. exact Hstop. }
  rewrite run_cat, run_grp.
  apply run_plus_longest; [exact Hne|exact Hfile| |].
  { destruct Htail as [-> | ->]; reflexivity. }
  rewrite firstn_consumed.
  destruct Htail as [-> | ->]; reflexivity.
Qed.

(** X1: a line that is a name, an address and a size in this order, with
    white space between them and no hexadecimal digit right after the
    size, is a header line whatever the cursor was: the numbers are read
    off the two fields, the section is stored when the size is not zero,
    and the cursor goes to the name. *)
Theorem header_line_parsed
        (self : MapFileParser.t) (cur : option str)
        (nm ws1 a ws2 sz rest : str) :
  section_name nm -> spaces ws1 -> hex_number a -> spaces ws2 ->
  hex_number sz -> stops is_hex rest ->
  exists i,
    int16 a = Ok (info.vma i) /\ int16 sz = Ok (info.size i)
    /\ load_address (nm ++ ws1 ++ a ++ ws2 ++ sz ++ rest) (info.vma i)
       = Ok (info.lma i)
    /\ parse_line (self, cur) (nm ++ ws1 ++ a ++ ws2 ++ sz ++ rest)
       = Ok (store_section self nm i, Some nm).
Proof.
  intros Hnm Hw1 Ha Hw2 Hsz Hrest.
  pose proof (main_section_complete nm ws1 a ws2 sz rest
                Hnm Hw1 Ha Hw2 Hsz Hrest) as Hm.
  destruct (main_match_header _ _ Hm)
    as (name & i & Hh & G1 & G2 & G3 & Hl & _).
  cbn in G1. injection G1 as <-.
  unfold group_int, group_text in G2, G3. cbn in G2, G3.
  exists i. repeat split; try assumption.
  apply parse_line_header, Hh.
Qed.

Lemma header_line_parsed_witness :
  exists i,
    int16 (str_of "0x00280180") = Ok (info.vma i)
    /\ int16 (str_of "0x383c8") = Ok (info.size i)
    /\ load_address
         (ln ".text           0x00280180    0x383c8 load address 0x08001180")
         (info.vma i)
       = Ok (info.lma i)
    /\ parse_line (init, None)
         (ln ".text           0x00280180    0x383c8 load address 0x08001180")
       = Ok (store_section init (str_of ".text") i, Some (str_of ".text")).
Proof.
  apply (header_line_parsed init None (str_of ".text")
           (str_of "           ") (str_of "0x00280180") (str_of "    ")
           (str_of "0x383c8") (ln " load address 0x08001180")).
  - exists (str_of "text"), []. repeat split; try discriminate;
      repeat constructor.
  - split; [discriminate|repeat constructor].
  - exists (str_of "00280180"). repeat split; try discriminate;
      repeat constructor.
  - split; [discriminate|repeat constructor].
  - exists (str_of "383c8"). repeat split; try discriminate;
      repeat constructor.
  - reflexivity.
Defined.

(** X2: with the cursor on a section, an indented line that is a name, an
    address, a size and a text that begins with a visible character and
    goes to the end of the line is a sub-entry: the item is stored under
    the cursor with the text, trailing white space cut off, as its file,
    and the cursor stays. *)
Theorem sub_entry_line_parsed
        (self : MapFileParser.t) (cur : str)
        (ind nm ws1 a ws2 sz ws3 file tail : str) :
  cur <> [] ->
  spaces ind -> section_name nm -> spaces ws1 -> hex_number a ->
  spaces ws2 -> hex_number sz -> spaces ws3 ->
  file <> [] -> all not_newline file -> stops is_space file ->
  tail = [] \/ tail = [nl] ->
  exists address size,
    int16 a = Ok address /\ int16 sz = Ok size
    /\ strip file = rstrip file
    /\ parse_line (self, Some cur)
         (ind ++ nm ++ ws1 ++ a ++ ws2 ++ sz ++ ws3 ++ file ++ tail)
       = Ok (store_item self cur
               {| item.subsection := nm; item.address := address;
                  item.size := size; item.file := rstrip file |},
             Some cur).
Proof.
  intros Hcur Hind Hnm Hw1 Ha Hw2 Hsz Hw3 Hne Hfile Hstop Htail.
  pose proof (symbol_complete ind nm ws1 a ws2 sz ws3 file tail
                Hind Hnm Hw1 Ha Hw2 Hsz Hw3 Hne Hfile Hstop Htail) as Hm.
  destruct (symbol_match_sub_entry _ _ Hm)
    as (e & rest & Hsub & G1 & G2 & G3 & G4 & Hf).
  cbn in G1, G4. injection G1 as G1. injection G4 as <-.
  unfold group_int, group_text in G2, G3. cbn in G2, G3.
  assert (Hstrip : strip file = rstrip file).
  { unfold strip. destruct file as [|c file]; [congruence|].
    cbn [stops] in Hstop. cbn [lstrip]. rewrite Hstop. reflexivity. }
  exists (item.address e), (item.size e).
  split; [exact G2|]. split; [exact G3|]. split; [exact Hstrip|].
  assert (Ht : truthy (Some cur) = Some cur)
    by (destruct cur; [congruence|reflexivity]).
  rewrite (parse_line_sub_entry self (Some cur) _ cur e Ht Hsub).
  destruct e as [s ad si fi]. cbn in G1, Hf |- *.
  rewrite <- Hstrip, <- Hf, G1. reflexivity.
Qed.

Lemma sub_entry_line_parsed_witness :
  exists address size,
    int16 (str_of "0x00280180") = Ok address
    /\ int16 (str_of "0x7c") = Ok size
    /\ strip (str_of "file.o  ") = rstrip (str_of "file.o  ")
    /\ parse_line (init, Some (str_of ".text"))
         (ln " .text.function  0x00280180  0x7c  file.o  ")
       = Ok (store_item init (str_of ".text")
               {| item.subsection := str_of ".text.function";
                  item.address := address; item.size := size;
                  item.file := rstrip (str_of "file.o  ") |},
             Some (str_of ".text")).
Proof.
  apply (sub_entry_line_parsed init (str_of ".text") (str_of " ")
           (str_of ".text.function") (str_of "  ") (str_of "0x00280180")
           (str_of "  ") (str_of "0x7c") (str_of "  ") (str_of "file.o  ")
           [nl]).
  - discriminate.
  - split; [discriminate|repeat constructor].
  - exists (str_of "text"), (str_of ".function").
    repeat split; try discriminate; repeat constructor.
  - split; [discriminate|repeat constructor].
  - exists (str_of "00280180"). repeat split; try discriminate;
      repeat constructor.
  - split; [discriminate|repeat constructor].
  - exists (str_of "7c"). repeat split; try discriminate;
      repeat constructor.
  - split; [discriminate|repeat constructor].
  - discriminate.
  - repeat constructor.
  - reflexivity.
  - right. reflexivity.
Defined.

(** ** The load address *)

Lemma find_none_search subject w r2 : forall x,
  str_find w x = None -> search_from subject (Lit w @@ r2) x = None.
Proof.
  induction x as [|c x IH]; cbn [str_find search_from run]; intros H.
  - destruct (startswith [] w); [discriminate|reflexivity].
  - destruct (startswith (c :: x) w); [discriminate|].
    apply IH. destruct (str_find w x); [discriminate|reflexivity].
Qed.

Lemma find_skip_search subject w r2 y : forall pre,
  str_find w (pre ++ y) = Some (length pre) ->
  search_from subject (Lit w @@ r2) (pre ++ y)
  = search_from subject (Lit w @@ r2) y.
Proof.
  induction pre as [|c pre IH]; [reflexivity|].
  cbn [app str_find length]. intros H.
  destruct (startswith (c :: pre ++ y) w) eqn:E; [discriminate|].
  cbn [search_from run]. rewrite E. apply IH.
  destruct (str_find w (pre ++ y)); [|discriminate].
  cbn in H. congruence.
Qed.

Lemma load_address_none line vma :
  str_find load_text line = None -> load_address line vma = Ok vma.
Proof.
  intros H. unfold load_address, re_search, load_re.
  rewrite (find_none_search line _ _ line H). reflexivity.
Qed.

Lemma load_address_found pre h post vma :
  str_find load_text (pre ++ load_text ++ h ++ post) = Some (length pre) ->
  hex_number h -> stops is_hex post ->
  exists v,
    int16 h = Ok v /\ 0 <= v
    /\ load_address (pre ++ load_text ++ h ++ post) vma = Ok v.
Proof.
  intros Hf Hh Hp.
  destruct (int16_hex h Hh) as (v & Hv & Hpos).
  exists v. split; [exact Hv|]. split; [exact Hpos|].
  unfold load_address, re_search, load_re.
  rewrite (find_skip_search _ _ _ _ pre Hf).
  assert (E : search_from (pre ++ load_text ++ h ++ post)
                (Lit load_text @@ Grp 1 hex_re)
                (load_text ++ h ++ post)
              = Some [(1%nat, h)]).
  { destruct (load_text ++ h ++ post) as [|c x] eqn:Ex; [discriminate|].
    rewrite <- Ex.
    assert (R : run (pre ++ load_text ++ h ++ post)
                  (Lit load_text @@ Grp 1 hex_re)
                  (load_text ++ h ++ post) []
                  (fun _ caps => Some caps) = Some [(1%nat, h)]).
    { rewrite run_cat, run_lit, run_grp.
      apply run_hex; [exact Hh|exact Hp|].
      rewrite firstn_consumed. reflexivity. }
    rewrite Ex in R |- *. cbn [search_from]. rewrite R. reflexivity. }
  rewrite E. unfold group_int, group_text. cbn. exact Hv.
Qed.

(** X3: the load address of a header line.  A line without the text
    "load address " has its load address equal to the address of its
    second field; when the first "load address " of the line is followed
    by a hexadecimal number, that number is the load address. *)
Theorem load_address_first :
  (forall line vma,
      str_find load_text line = None -> load_address line vma = Ok vma)
  /\ (forall pre h post vma,
         str_find load_text (pre ++ load_text ++ h ++ post)
         = Some (length pre) ->
         hex_number h -> stops is_hex post ->
         exists v,
           int16 h = Ok v /\ 0 <= v
           /\ load_address (pre ++ load_text ++ h ++ post) vma = Ok v).
Proof.
  split.
  - apply load_address_none.
  - apply load_address_found.
Qed.

Lemma load_address_first_witness :
  load_address (ln ".data 0x20000000 0x10") 7 = Ok 7
  /\ exists v,
       int16 (str_of "0x08001180") = Ok v /\ 0 <= v
       /\ load_address
            (str_of ".data 0x20000000 0x10 " ++ load_text
             ++ str_of "0x08001180" ++ [nl]) 7
          = Ok v.
Proof.
  split.
  - apply (proj1 load_address_first). reflexivity.
  - apply (proj2 load_address_first (str_of ".data 0x20000000 0x10 ")
             (str_of "0x08001180") [nl] 7).
    + reflexivity.
    + exists (str_of "08001180"). repeat split; try discriminate;
        repeat constructor.
    + reflexivity.
Defined.

(** ** Printed addresses are read back *)

Lemma hex_digit_digit d :
  0 <= d < 16 ->
  hex_digit (Hex.digit d) = Some d /\ is_hex (Hex.digit d) = true.
Proof.
  intros H.
  assert (E : In d [0; 1; 2; 3; 4; 5; 6; 7; 8; 9; 10; 11; 12; 13; 14; 15])
    by (cbn [In]; lia).
  cbn [In] in E.
  repeat (destruct E as [<- | E]; [split; reflexivity|]). contradiction.
Qed.

Lemma hex_digits_app l1 : forall acc l2,
  hex_digits acc (l1 ++ l2)
  = match hex_digits acc l1 with
    | Some v => hex_digits v l2
    | None => None
    end.
Proof.
  induction l1 as [|c l1 IH]; intros acc l2; cbn [app hex_digits];
    [reflexivity|].
  destruct (hex_digit c); [apply IH|reflexivity].
Qed.

Lemma digits_from_ok : forall fuel n acc,
  0 < n < 16 ^ Z.of_nat fuel ->
  exists ds,
    Hex.digits_from fuel n acc = ds ++ acc
    /\ all is_hex ds /\ hex_digits 0 ds = Some n
    /\ 16 ^ (Z.of_nat (length ds) - 1) <= n < 16 ^ Z.of_nat (length ds)
    /\ (0 < length ds)%nat.
Proof.
  induction fuel as [|fuel IH]; intros n acc Hn.
  - change (16 ^ Z.of_nat 0) with 1 in Hn. lia.
  - cbn [Hex.digits_from].
    assert (Hd : 0 <= n mod 16 < 16) by (apply Z.mod_pos_bound; lia).
    destruct (hex_digit_digit _ Hd) as [Hv Hh].
    pose proof (Z.div_mod n 16 ltac:(lia)) as Hdm.
    destruct (n / 16 =? 0) eqn:E.
    + apply Z.eqb_eq in E. exists [Hex.digit (n mod 16)].
      split; [reflexivity|]. split; [repeat constructor; exact Hh|].
      split; [cbn [hex_digits]; rewrite Hv; f_equal; lia|].
      split; [|cbn; lia].
      change (16 ^ (Z.of_nat (length [Hex.digit (n mod 16)]) - 1)) with 1.
      change (16 ^ Z.of_nat (length [Hex.digit (n mod 16)])) with 16. lia.
    + apply Z.eqb_neq in E.
      assert (Hq : 0 < n / 16 < 16 ^ Z.of_nat fuel).
      { split.
        - assert (0 <= n / 16) by (apply Z.div_pos; lia). lia.
        - apply Z.div_lt_upper_bound; [lia|].
          rewrite Nat2Z.inj_succ, Z.pow_succ_r in Hn by lia. lia. }
      destruct (IH (n / 16) (Hex.digit (n mod 16) :: acc) Hq)
        as (ds & Eds & Hall & Hval & Hlen & Hpos).
      exists (ds ++ [Hex.digit (n mod 16)]).
      split; [rewrite Eds, <- app_assoc; reflexivity|].
      split; [apply Forall_app; split; [exact Hall|
                                        repeat constructor; exact Hh]|].
      split.
      { rewrite hex_digits_app, Hval. cbn [hex_digits]. rewrite Hv.
        f_equal. lia. }
      rewrite length_app. cbn [length]. split; [|lia].
      replace (Z.of_nat (length ds + 1) - 1)
        with (Z.succ (Z.of_nat (length ds) - 1)) by lia.
      replace (Z.of_nat (length ds + 1))
        with (Z.succ (Z.of_nat (length ds))) by lia.
      rewrite !Z.pow_succ_r by lia.
      generalize dependent (16 ^ (Z.of_nat (length ds) - 1)).
      generalize dependent (16 ^ Z.of_nat (length ds)).
      intros. lia.
Qed.

Lemma format_x_ok n :
  0 <= n ->
  exists ds,
    Hex.format_x n = ds /\ all is_hex ds /\ hex_digits 0 ds = Some n
    /\ (0 < length ds)%nat
    /\ (n < 16 ^ 8 -> (length ds <= 8)%nat)
    /\ (16 ^ 8 <= n -> (8 < length ds)%nat).
Proof.
  intros Hn. unfold Hex.format_x. destruct (n =? 0) eqn:E.
  - apply Z.eqb_eq in E. subst n. exists (str_of "0").
    split; [reflexivity|]. split; [repeat constructor|].
    split; [reflexivity|]. split; [cbn; lia|].
    split; [intros _; cbn; lia|]. intros H. exfalso.
    change (16 ^ 8) with 4294967296 in H. lia.
  - apply Z.eqb_neq in E.
    assert (Hf : 0 < n < 16 ^ Z.of_nat (S (Z.to_nat (Z.log2 n)))).
    { split; [lia|].
      rewrite Nat2Z.inj_succ, Z2Nat.id by apply Z.log2_nonneg.
      destruct (Z.log2_spec n ltac:(lia)) as [_ Hlt].
      apply (Z.lt_le_trans _ _ _ Hlt).
      apply Z.pow_le_mono_l. lia. }
    destruct (digits_from_ok _ n [] Hf)
      as (ds & Eds & Hall & Hval & Hlen & Hpos).
    rewrite app_nil_r in Eds. exists ds.
    split; [exact Eds|]. split; [exact Hall|]. split; [exact Hval|].
    split; [exact Hpos|]. split.
    + intros Hlt. destruct (Nat.le_gt_cases (length ds) 8) as [|Hgt]; auto.
      exfalso.
      assert (16 ^ 8 <= 16 ^ (Z.of_nat (length ds) - 1))
        by (apply Z.pow_le_mono_r; lia).
      lia.
    + intros Hge. destruct (Nat.le_gt_cases (length ds) 8) as [Hle|]; auto.
      exfalso.
      assert (16 ^ Z.of_nat (length ds) <= 16 ^ 8)
        by (apply Z.pow_le_mono_r; lia).
      lia.
Qed.

Lemma hex_digits_zeros k ds :
  hex_digits 0 (repeat "0"%char k ++ ds) = hex_digits 0 ds.
Proof. induction k as [|k IH]; [reflexivity|exact IH]. Qed.

Lemma addr_str_hex n :
  0 <= n ->
  hex_number (Hex.addr_str n) /\ int16 (Hex.addr_str n) = Ok n
  /\ (n < 2 ^ 32 -> length (Hex.addr_str n) = 10%nat)
  /\ (2 ^ 32 <= n -> (10 < length (Hex.addr_str n))%nat).
Proof.
  intros Hn. destruct (format_x_ok n Hn)
    as (ds & Eds & Hall & Hval & Hpos & Hshort & Hlong).
  unfold Hex.addr_str, Hex.format_08x.
  replace (n <? 0) with false by (symmetry; apply Z.ltb_ge; lia).
  rewrite Eds. unfold Hex.zfill.
  set (k := (8 - length ds)%nat).
  assert (Hz : all is_hex (repeat "0"%char k ++ ds)).
  { apply Forall_app. split; [|exact Hall].
    clear. induction k; constructor; [reflexivity|assumption]. }
  assert (Hne : repeat "0"%char k ++ ds <> []).
  { destruct ds; [cbn in Hpos; lia|]. intros H.
    apply app_eq_nil in H as [_ H]. discriminate. }
  split; [exists (repeat "0"%char k ++ ds); auto|].
  split.
  - cbn [str_of list_ascii_of_string app int16].
    destruct (repeat "0"%char k ++ ds) as [|c r] eqn:Er; [congruence|].
    change ((is_code 48 "0" && (is_code 120 "x" || is_code 88 "x"))%bool)
      with true. cbv iota.
    rewrite <- Er, hex_digits_zeros, Hval. reflexivity.
  - change (2 ^ 32) with (16 ^ 8).
    cbn [str_of list_ascii_of_string app length].
    rewrite length_app, repeat_length. subst k. split; intros H.
    + apply Hshort in H. lia.
    + apply Hlong in H. lia.
Qed.

Lemma find_some w : forall x n,
  str_find w x = Some n -> exists pre post, x = pre ++ w ++ post /\ length pre = n.
Proof.
  induction x as [|c x IH]; intros n; cbn [str_find].
  - destruct (startswith [] w) eqn:E; [|discriminate].
    intros H. injection H as <-. apply startswith_app in E.
    exists [], (skipn (length w) []). auto.
  - destruct (startswith (c :: x) w) eqn:E.
    + intros H. injection H as <-. apply startswith_app in E.
      exists [], (skipn (length w) (c :: x)). auto.
    + destruct (str_find w x) as [k|] eqn:F; [|discriminate].
      intros H. cbn in H. injection H as <-.
      destruct (IH k eq_refl) as (pre & post & -> & Hl).
      exists (c :: pre), post. cbn. auto.
Qed.

Lemma split_at_char (c : ascii) : forall tok u v w,
  ~ In c tok -> u ++ c :: v = tok ++ c :: w ->
  (u = tok /\ v = w) \/ exists u', u = tok ++ c :: u' /\ u' ++ c :: v = w.
Proof.
  induction tok as [|d tok IH]; intros u v w Hn E.
  - destruct u as [|e u]; cbn in E.
    + injection E as <-. auto.
    + injection E as -> E. right. exists u. auto.
  - destruct u as [|e u]; cbn in E.
    + injection E as <- _. exfalso. apply Hn. left. reflexivity.
    + injection E as -> E.
      destruct (IH u v w) as [[-> ->] | (u' & -> & <-)];
        [intros H; apply Hn; right; exact H|exact E|auto|].
      right. exists u'. auto.
Qed.

Lemma non_space_no_blank w : all non_space w -> ~ In " "%char w.
Proof.
  intros H Hin. unfold all in H. rewrite Forall_forall in H.
  apply H in Hin. vm_compute in Hin. discriminate.
Qed.

Lemma plain_header_no_load nm a sz :
  section_name nm -> hex_number a -> hex_number sz ->
  str_find load_text (nm ++ str_of " " ++ a ++ str_of " " ++ sz ++ [nl]) = None.
Proof.
  intros Hnm Ha Hsz.
  destruct (str_find load_text _) as [n|] eqn:F; [exfalso|reflexivity].
  apply find_some in F as (pre & post & E & _).
  pose proof (non_space_no_blank _ (section_name_non_space _ Hnm)) as Nnm.
  pose proof (non_space_no_blank _ (hex_number_non_space _ Ha)) as Na.
  pose proof (non_space_no_blank _ (hex_number_non_space _ Hsz)) as Nsz.
  destruct Ha as (da & -> & _). destruct Hsz as (ds & -> & _).
  assert (E' : (pre ++ str_of "load")
               ++ " "%char :: (str_of "address " ++ post)
               = nm ++ " "%char
                    :: ((str_of "0x" ++ da)
                        ++ " "%char :: ((str_of "0x" ++ ds) ++ [nl]))).
  { rewrite <- app_assoc. symmetry. exact E. }
  clear E. rename E' into E.
  apply split_at_char in E as [[_ E] | (u' & _ & E)]; [discriminate| |exact Nnm].
  apply split_at_char in E as [[_ E] | (u'' & _ & E)]; [discriminate| |exact Na].
  assert (Hin : In " "%char ((str_of "0x" ++ ds) ++ [nl]))
    by (rewrite <- E; apply in_elt).
  apply in_app_or in Hin as [Hin | [Hin | []]]; [exact (Nsz Hin)|discriminate].
Qed.

(** X4: an address as the reports print it, [0x] and at least eight
    digits, is read back by the parser as the same number; it takes ten
    characters below 2^32 and more above, no digit is dropped.  A line
    written as a name, an address and a size in this form is a header
    line with exactly these numbers, and its load address is its
    address. *)
Theorem printed_address_read_back
        (self : MapFileParser.t) (cur : option str) (nm : str)
        (vma size : Z) :
  section_name nm -> 0 <= vma -> 0 <= size ->
  int16 (Hex.addr_str vma) = Ok vma
  /\ (vma < 2 ^ 32 -> length (Hex.addr_str vma) = 10%nat)
  /\ (2 ^ 32 <= vma -> (10 < length (Hex.addr_str vma))%nat)
  /\ parse_line (self, cur)
       (nm ++ str_of " " ++ Hex.addr_str vma ++ str_of " "
        ++ Hex.addr_str size ++ [nl])
     = Ok (store_section self nm
             {| info.vma := vma; info.lma := vma; info.size := size |},
           Some nm).
Proof.
  intros Hnm Hv Hs.
  destruct (addr_str_hex vma Hv) as (Hhv & Hiv & Hshort & Hlong).
  destruct (addr_str_hex size Hs) as (Hhs & His & _).
  split; [exact Hiv|]. split; [exact Hshort|]. split; [exact Hlong|].
  apply parse_line_header.
  exists [(3%nat, Hex.addr_str size); (2%nat, Hex.addr_str vma); (1%nat, nm)].
  split.
  { apply (main_section_complete nm (str_of " ") (Hex.addr_str vma)
             (str_of " ") (Hex.addr_str size) [nl]); auto;
      try (split; [discriminate|repeat constructor]). reflexivity. }
  split; [reflexivity|].
  split; [unfold group_int, group_text; cbn; exact Hiv|].
  split; [unfold group_int, group_text; cbn; exact His|].
  cbn [info.vma info.lma].
  apply load_address_none, plain_header_no_load; assumption.
Qed.

Lemma printed_address_read_back_witness :
  int16 (Hex.addr_str 2621824) = Ok 2621824
  /\ Hex.addr_str 2621824 = str_of "0x00280180"
  /\ parse_line (init, None)
       (str_of ".text" ++ str_of " " ++ Hex.addr_str 2621824 ++ str_of " "
        ++ Hex.addr_str 160 ++ [nl])
     = Ok (store_section init (str_of ".text")
             {| info.vma := 2621824; info.lma := 2621824;
                info.size := 160 |},
           Some (str_of ".text")).
Proof.
  assert (Hn : section_name (str_of ".text")).
  { exists (str_of "text"), []. repeat split; try discriminate;
      repeat constructor. }
  destruct (printed_address_read_back init None (str_of ".text")
              2621824 160 Hn ltac:(lia) ltac:(lia)) as (H1 & _ & _ & H4).
  split; [exact H1|]. split; [reflexivity|exact H4].
Defined.

(** ** What the parser keeps *)

(** X5: [parse] raises nothing, whatever the lines are: the texts that
    [int(..., 16)] is given are the hexadecimal numbers of a match, and
    every group that is read took part in the match.  Every line is
    taken in one of three ways: as a header, as a sub-entry of the
    section the cursor is on, or not at all, and a line that is neither
    leaves the model and the cursor as they are. *)
Theorem parse_never_raises (lines : list str) :
  (exists p, parse lines = Ok p)
  /\ forall self cur line,
       (exists name i,
           header line name i
           /\ parse_line (self, cur) line
              = Ok (store_section self name i, Some name))
       \/ (exists name e,
              truthy cur = Some name /\ sub_entry line e
              /\ re_match main_section_re line = None
              /\ parse_line (self, cur) line
                 = Ok (store_item self name e, cur))
       \/ (re_match main_section_re line = None
           /\ (truthy cur = None \/ re_match symbol_re line = None)
           /\ parse_line (self, cur) line = Ok (self, cur)).
Proof.
  split; [apply parse_total|].
  intros self cur line.
  destruct (parse_line_cases self cur line)
    as [(name & i & Hh & _ & _ & E)|[H|H]].
  - left. exists name, i. split; [exact Hh|exact E].
  - right. left. exact H.
  - right. right. exact H.
Qed.

(** X6: without a header line nothing is stored, whatever else the lines
    hold: a sub-entry that comes before any header has no section to go
    to and is dropped. *)
Theorem no_header_no_data (lines : list str) :
  Forall (fun l => re_match main_section_re l = None) lines ->
  parse lines = Ok init.
Proof.
  intros H. unfold parse.
  assert (E : parse_loop (init, None) lines = Ok (init, None)).
  { induction H as [|l lines Hl _ IH]; [reflexivity|].
    cbn [parse_loop]. unfold parse_line, parse_symbol.
    rewrite Hl. cbn [truthy bind]. exact IH. }
  rewrite E. reflexivity.
Qed.

Lemma no_header_no_data_witness :
  parse [ln "Memory Configuration";
         ln " .text.foo 0x00280180 0x50 a.o";
         ln " .text 0x00280180 0x7c"]
  = Ok init.
Proof.
  apply no_header_no_data. repeat constructor.
Defined.

Lemma map_set_value {V W} (g : V -> W) k v (d : Py.dict V) :
  map (fun kv => (fst kv, g (snd kv))) (Py.set k v d)
  = Py.set k (g v) (map (fun kv => (fst kv, g (snd kv))) d).
Proof.
  induction d as [|[k' v'] d IH]; cbn [Py.set map fst snd]; [reflexivity|].
  destruct (str_eqb k k'); cbn [map fst snd]; [reflexivity|].
  rewrite IH. reflexivity.
Qed.

Lemma summary_of_addresses_step st line st' :
  total_sizes (fst st)
  = map (fun ni => (fst ni, info.size (snd ni)))
      (section_addresses (fst st)) ->
  parse_line st line = Ok st' ->
  total_sizes (fst st')
  = map (fun ni => (fst ni, info.size (snd ni)))
      (section_addresses (fst st')).
Proof.
  destruct st as [self cur]. intros HP H. cbn [fst] in HP.
  destruct (parse_line_cases self cur line)
    as [(name & i & _ & _ & _ & E)|[(name & e & _ & _ & _ & E)|(_ & _ & E)]];
    rewrite E in H; injection H as <-; cbn [fst].
  - unfold store_section. destruct (0 <? info.size i); [|assumption].
    cbn [total_sizes section_addresses].
    rewrite (map_set_value info.size), HP. reflexivity.
  - destruct (store_item_tables self name e) as [-> ->]. assumption.
  - assumption.
Qed.

Lemma summary_keys_step st line st' :
  NoDup (Py.keys (total_sizes (fst st))) ->
  parse_line st line = Ok st' ->
  NoDup (Py.keys (total_sizes (fst st'))).
Proof.
  destruct st as [self cur]. intros HP H. cbn [fst] in HP.
  destruct (parse_line_cases self cur line)
    as [(name & i & _ & _ & _ & E)|[(name & e & _ & _ & _ & E)|(_ & _ & E)]];
    rewrite E in H; injection H as <-; cbn [fst].
  - unfold store_section. destruct (0 <? info.size i); [|assumption].
    cbn [total_sizes]. apply keys_set_nodup, HP.
  - destruct (store_item_tables self name e) as [-> _]. assumption.
  - assumption.
Qed.

Lemma parse_summary_of_addresses lines p :
  parse lines = Ok p ->
  total_sizes p
  = map (fun ni => (fst ni, info.size (snd ni))) (section_addresses p).
Proof.
  intros H. apply parse_loop_of_parse in H as (cur & H).
  apply (parse_loop_invariant
           (fun st => total_sizes (fst st)
                      = map (fun ni => (fst ni, info.size (snd ni)))
                          (section_addresses (fst st)))
           summary_of_addresses_step lines (init, None) (p, cur));
    [reflexivity|assumption].
Qed.

Lemma parse_summary_sum lines p :
  parse lines = Ok p ->
  Py.sum (Py.values (get_summary p))
  = Py.sum (map info.size (Py.values (section_addresses p))).
Proof.
  intros H. unfold get_summary. rewrite (parse_summary_of_addresses _ _ H).
  unfold Py.values. rewrite !map_map. reflexivity.
Qed.

(** X7: the summary and the address information are kept in step: they
    hold the same section names in the same order, each name once, and
    the size of a name in the summary is the size in its address
    information; so the sizes of both add up to the same total. *)
Theorem summary_matches_addresses (lines : list str) (p : MapFileParser.t) :
  parse lines = Ok p ->
  get_summary p
  = map (fun ni => (fst ni, info.size (snd ni))) (section_addresses p)
  /\ Py.keys (get_summary p) = Py.keys (section_addresses p)
  /\ NoDup (Py.keys (get_summary p))
  /\ (forall name,
         Py.get name (get_summary p)
         = option_map info.size (Py.get name (section_addresses p)))
  /\ Py.sum (Py.values (get_summary p))
     = Py.sum (map info.size (Py.values (section_addresses p))).
Proof.
  intros H. pose proof (parse_summary_of_addresses _ _ H) as E.
  split; [exact E|]. split.
  { unfold get_summary, Py.keys. rewrite E, map_map. reflexivity. }
  split.
  { apply parse_loop_of_parse in H as (cur & H).
    apply (parse_loop_invariant
             (fun st => NoDup (Py.keys (total_sizes (fst st))))
             summary_keys_step lines (init, None) (p, cur));
      [constructor|assumption]. }
  split.
  { intros name. unfold get_summary. rewrite E. clear E.
    induction (section_addresses p) as [|[k v] d IH];
      cbn [map Py.get fst snd]; [reflexivity|].
    destruct (str_eqb name k); [reflexivity|exact IH]. }
  apply (parse_summary_sum _ _ H).
Qed.

Lemma summary_matches_addresses_witness :
  get_summary (Samples.model Samples.overlapping)
  = map (fun ni => (fst ni, info.size (snd ni)))
      (section_addresses (Samples.model Samples.overlapping))
  /\ Py.keys (get_summary (Samples.model Samples.overlapping))
     = [str_of ".a"; str_of ".b"; str_of ".c"].
Proof.
  destruct (summary_matches_addresses Samples.overlapping
              (Samples.model Samples.overlapping))
    as (H1 & _).
  - vm_compute; reflexivity.
  - split; [exact H1|reflexivity].
Defined.

(** ** What is stored is tidy *)

Lemma lstrip_stops x : stops is_space (lstrip x).
Proof.
  induction x as [|c x IH]; cbn [lstrip]; [exact I|].
  destruct (is_space c) eqn:E; [exact IH|exact E].
Qed.

Lemma lstrip_all (q : ascii -> bool) x : all q x -> all q (lstrip x).
Proof.
  intros H. induction H as [|c x Hc Hx IH]; cbn [lstrip]; [constructor|].
  destruct (is_space c); [exact IH|constructor; assumption].
Qed.

Lemma lstrip_snoc x c :
  is_space c = false -> lstrip (x ++ [c]) = lstrip x ++ [c].
Proof.
  intros Hc. induction x as [|d x IH]; cbn [app lstrip].
  - rewrite Hc. reflexivity.
  - destruct (is_space d); [exact IH|reflexivity].
Qed.

Lemma rstrip_all (q : ascii -> bool) x : all q x -> all q (rstrip x).
Proof.
  intros H. unfold rstrip. apply Forall_rev, lstrip_all, Forall_rev, H.
Qed.

Lemma rstrip_stops x : stops is_space x -> stops is_space (rstrip x).
Proof.
  destruct x as [|c x]; [intros _; exact I|]. cbn [stops]. intros Hc.
  unfold rstrip. cbn [rev]. rewrite (lstrip_snoc _ _ Hc), rev_app_distr.
  exact Hc.
Qed.

Lemma strip_tidy rest :
  all not_newline rest ->
  stops is_space (strip rest) /\ stops is_space (rev (strip rest))
  /\ all not_newline (strip rest).
Proof.
  intros H. unfold strip. split; [apply rstrip_stops, lstrip_stops|].
  split; [|apply rstrip_all, lstrip_all, H].
  unfold rstrip. rewrite rev_involutive. apply lstrip_stops.
Qed.

Lemma sub_entry_tidy line e : sub_entry line e -> tidy_item e.
Proof.
  intros H. apply sub_entry_shape in H
    as (ind & nm & ws1 & a & ws2 & sz & ws3 & rest & tail & _ & _ & Hnm & _
        & Ha & _ & _ & _ & _ & Hrest & _ & Hs & Hav & _ & Hf).
  destruct (int16_hex a Ha) as (v & Hv & Hpos).
  rewrite Hv in Hav. injection Hav as ->.
  destruct (strip_tidy rest Hrest) as (H1 & H2 & H3).
  unfold tidy_item. rewrite Hs, Hf. auto.
Qed.

Lemma header_name line name i : header line name i -> section_name name.
Proof.
  intros (m & Hm & G1 & _).
  apply main_section_sound in Hm
    as (nm & ws1 & a & ws2 & sz & rest & _ & Hnm & _ & _ & _ & _ & ->).
  cbn in G1. injection G1 as <-. exact Hnm.
Qed.

Lemma keys_set_all {V} (Q : str -> Prop) k v (d : Py.dict V) :
  Forall Q (Py.keys d) -> Q k -> Forall Q (Py.keys (Py.set k v d)).
Proof.
  intros Hd Hk. rewrite keys_set. destruct (Py.mem k d); [exact Hd|].
  apply Forall_app. split; [exact Hd|repeat constructor; exact Hk].
Qed.

Lemma tidy_step st line st' :
  (Forall section_name (Py.keys (total_sizes (fst st)))
   /\ Forall section_name (Py.keys (section_addresses (fst st)))
   /\ Forall section_name (Py.keys (sections (fst st)))
   /\ all_values (fun items => items <> [] /\ Forall tidy_item items)
        (sections (fst st))
   /\ forall name, snd st = Some name -> section_name name) ->
  parse_line st line = Ok st' ->
  Forall section_name (Py.keys (total_sizes (fst st')))
  /\ Forall section_name (Py.keys (section_addresses (fst st')))
  /\ Forall section_name (Py.keys (sections (fst st')))
  /\ all_values (fun items => items <> [] /\ Forall tidy_item items)
       (sections (fst st'))
  /\ forall name, snd st' = Some name -> section_name name.
Proof.
  destruct st as [self cur]. cbn [fst snd].
  intros (H1 & H2 & H3 & H4 & H5) H.
  destruct (parse_line_cases self cur line)
    as [(name & i & Hh & _ & _ & E)
       |[(name & e & Hc & Hsub & _ & E)|(_ & _ & E)]];
    rewrite E in H; injection H as <-; cbn [fst snd].
  - pose proof (header_name _ _ _ Hh) as Hn.
    rewrite store_section_sections. unfold store_section.
    destruct (0 <? info.size i); cbn [total_sizes section_addresses].
    + repeat split; auto using keys_set_all.
      intros n Hs. injection Hs as <-. exact Hn.
    + repeat split; auto. intros n Hs. injection Hs as <-. exact Hn.
  - destruct (store_item_tables self name e) as [-> ->].
    assert (Hn : section_name name).
    { apply H5. destruct cur as [[|c n]|]; cbn in Hc; congruence. }
    unfold store_item. destruct (0 <? item.size e); cbn [sections];
      [|repeat split; auto].
    split; [exact H1|]. split; [exact H2|].
    split; [apply keys_set_all; assumption|]. split; [|exact H5].
    apply all_values_set; [exact H4|]. split.
    + intros Hnil. apply app_eq_nil in Hnil as [_ Hnil]. discriminate.
    + apply Forall_app. split.
      * unfold Py.get_default.
        destruct (Py.get name (sections self)) as [items|] eqn:G;
          [|constructor].
        apply (all_values_get _ _ _ _ H4 G).
      * repeat constructor; apply (sub_entry_tidy _ _ Hsub).
  - repeat split; auto.
Qed.

Lemma parse_tidy lines p :
  parse lines = Ok p ->
  Forall section_name (Py.keys (total_sizes p))
  /\ Forall section_name (Py.keys (section_addresses p))
  /\ Forall section_name (Py.keys (sections p))
  /\ all_values (fun items => items <> [] /\ Forall tidy_item items)
       (sections p).
Proof.
  intros H. apply parse_loop_of_parse in H as (cur & H).
  pose proof (parse_loop_invariant _ tidy_step lines (init, None) (p, cur))
    as Hinv.
  cbn [fst snd] in Hinv.
  destruct Hinv as (H1 & H2 & H3 & H4 & _); auto.
  repeat split; try constructor. discriminate.
Qed.

(** X8: what the parser stores is well formed.  Every section name of
    the three dictionaries, and the subsection of every item, is a name
    of the pattern: a dot, a word character, then word characters and
    dots.  No stored address is negative.  The file of an item holds no
    newline and has no white space at its start or its end.  No section
    has an empty list of items. *)
Theorem stored_data_tidy (lines : list str) (p : MapFileParser.t) :
  parse lines = Ok p ->
  Forall section_name (Py.keys (get_summary p))
  /\ Forall section_name (Py.keys (section_addresses p))
  /\ Forall section_name (Py.keys (sections p))
  /\ (forall name i,
         Py.get name (section_addresses p) = Some i ->
         0 <= info.vma i /\ 0 <= info.lma i)
  /\ (forall name items,
         Py.get name (sections p) = Some items ->
         items <> []
         /\ forall e, In e items ->
              section_name (item.subsection e)
              /\ 0 <= item.address e
              /\ stops is_space (item.file e)
              /\ stops is_space (rev (item.file e))
              /\ all not_newline (item.file e)).
Proof.
  intros H. destruct (parse_tidy _ _ H) as (H1 & H2 & H3 & H4).
  split; [exact H1|]. split; [exact H2|]. split; [exact H3|]. split.
  - intros name i G.
    apply (all_values_get _ _ _ _ (parse_nonneg_addresses _ _ H) G).
  - intros name items G.
    destruct (all_values_get _ _ _ _ H4 G) as [Hne Hall].
    split; [exact Hne|]. intros e Hin.
    rewrite Forall_forall in Hall. apply (Hall e Hin).
Qed.

Lemma stored_data_tidy_witness :
  exists p,
    parse (readlines Samples.text_ab) = Ok p
    /\ Forall section_name (Py.keys (sections p))
    /\ Py.keys (sections p) = [str_of ".text"].
Proof.
  exists (Samples.model (readlines Samples.text_ab)).
  assert (H : parse (readlines Samples.text_ab)
              = Ok (Samples.model (readlines Samples.text_ab)))
    by (vm_compute; reflexivity).
  split; [exact H|].
  destruct (stored_data_tidy _ _ H) as (_ & _ & H3 & _).
  split; [exact H3|reflexivity].
Defined.

Lemma sorted_reverse_not_nil {A} (key : A -> Z) l :
  l <> [] -> Py.sorted_reverse key l <> [].
Proof.
  intros Hne E. apply Hne. apply Permutation_nil.
  rewrite <- E. apply sorted_reverse_perm.
Qed.

(** X9: a report says "no data" only when there is none.  For a parsed
    model the detailed breakdown of a name, and its top contributors for
    a limit above zero, give the "no data" answer exactly when the name
    has no item list; the summary and the memory map give theirs exactly
    when no section of a size above zero was stored, and then both do. *)
Theorem no_data_only_when_absent
        (lines : list str) (p : MapFileParser.t) (section : str)
        (limit : Z) (use_vma : bool) :
  parse lines = Ok p ->
  (Visualizer.print_detailed_breakdown p section limit
   = Ok (Visualizer.NoBreakdown section)
   <-> Py.mem section (sections p) = false)
  /\ (0 < limit ->
      (Visualizer.print_top_contributors p section limit
       = Ok (Visualizer.NoContributors section)
       <-> Py.mem section (sections p) = false))
  /\ (Visualizer.print_section_summary p = Ok Visualizer.NoSections
      <-> get_summary p = [])
  /\ (Visualizer.print_memory_map p use_vma = Ok Visualizer.NoLayout
      <-> section_addresses p = [])
  /\ (get_summary p = [] <-> section_addresses p = []).
Proof.
  intros H. destruct (parse_tidy _ _ H) as (_ & _ & _ & H4).
  split; [|split; [|split; [|split]]].
  - unfold Visualizer.print_detailed_breakdown, get_all_contributors, Py.mem.
    destruct (Py.get section (sections p)) as [items|] eqn:G.
    + destruct (all_values_get _ _ _ _ H4 G) as [Hne _].
      pose proof (sorted_reverse_not_nil item.size items Hne) as Hs.
      destruct (Py.sorted_reverse item.size items) as [|a l] eqn:E;
        [congruence|].
      split; [|discriminate].
      destruct (mapM _ _); cbn [bind]; discriminate.
    + split; reflexivity.
  - intros Hl.
    unfold Visualizer.print_top_contributors, get_top_contributors, Py.mem.
    destruct (Py.get section (sections p)) as [items|] eqn:G.
    + destruct (all_values_get _ _ _ _ H4 G) as [Hne _].
      pose proof (sorted_reverse_not_nil snd _
                    (group_by_file_not_nil items Hne)) as Hs.
      rewrite slice_to_firstn by lia.
      destruct (Py.sorted_reverse snd (group_by_file items)) as [|a l] eqn:E;
        [congruence|].
      destruct (Z.to_nat limit) eqn:En; [lia|]. cbn [firstn].
      split; [|discriminate].
      destruct (mapM _ _); cbn [bind]; discriminate.
    + split; reflexivity.
  - unfold Visualizer.print_section_summary.
    destruct (get_summary p) as [|a l]; [split; reflexivity|].
    split; [|discriminate].
    destruct (mapM _ _); cbn [bind]; [|discriminate].
    destruct (Visualizer.format_size _); cbn [bind]; discriminate.
  - unfold Visualizer.print_memory_map.
    destruct (section_addresses p) as [|a l] eqn:E; [split; reflexivity|].
    split; [|discriminate]. rewrite <- E.
    destruct (Py.sorted start (collect use_vma (section_addresses p)));
      [discriminate|].
    destruct (Visualizer.format_size _); cbn [bind]; [|discriminate].
    destruct (foldM _ _ _); cbn [bind]; [|discriminate].
    destruct (Visualizer.format_size _); cbn [bind]; [|discriminate].
    destruct (Visualizer.format_size _); cbn [bind]; discriminate.
  - unfold get_summary. rewrite (parse_summary_of_addresses _ _ H).
    destruct (section_addresses p); split; intros; try discriminate;
      reflexivity.
Qed.

Lemma no_data_only_when_absent_witness :
  Visualizer.print_detailed_breakdown (Samples.model Samples.zero_header)
    (str_of ".text") 50
  = Ok (Visualizer.NoBreakdown (str_of ".text"))
  /\ Visualizer.print_section_summary (Samples.model Samples.zero_header)
     = Ok Visualizer.NoSections.
Proof.
  destruct (no_data_only_when_absent Samples.zero_header
              (Samples.model Samples.zero_header) (str_of ".text") 50 true)
    as (H1 & _ & H3 & _).
  - vm_compute; reflexivity.
  - split; [apply H1; reflexivity|apply H3; reflexivity].
Defined.

(** ** Reading on *)

Lemma items_grow_step name st line st' items :
  Py.get name (sections (fst st)) = Some items ->
  parse_line st line = Ok st' ->
  exists more, Py.get name (sections (fst st')) = Some (items ++ more).
Proof.
  destruct st as [self cur]. cbn [fst]. intros G H.
  destruct (parse_line_cases self cur line)
    as [(n & j & _ & _ & _ & E)|[(n & e & _ & _ & _ & E)|(_ & _ & E)]];
    rewrite E in H; injection H as <-; cbn [fst].
  - rewrite store_section_sections. exists []. rewrite app_nil_r. exact G.
  - unfold store_item. destruct (0 <? item.size e); cbn [sections];
      [|exists []; rewrite app_nil_r; exact G].
    destruct (list_eq_dec ascii_dec name n) as [<-|Hne].
    + rewrite get_set_same. unfold Py.get_default. rewrite G. eauto.
    + rewrite get_set_other by assumption.
      exists []. rewrite app_nil_r. exact G.
  - exists []. rewrite app_nil_r. exact G.
Qed.

Lemma items_grow name : forall ls st st' items,
  Py.get name (sections (fst st)) = Some items ->
  parse_loop st ls = Ok st' ->
  exists more, Py.get name (sections (fst st')) = Some (items ++ more).
Proof.
  induction ls as [|l ls IH]; intros st st' items G H;
    cbn [parse_loop] in H.
  - injection H as <-. exists []. rewrite app_nil_r. exact G.
  - destruct (parse_line st l) as [st1|] eqn:E; [|discriminate].
    cbn [bind] in H.
    destruct (items_grow_step name st l st1 items G E) as (m1 & G1).
    destruct (IH st1 st' _ G1 H) as (m2 & G2).
    exists (m1 ++ m2). rewrite app_assoc. exact G2.
Qed.

Lemma summary_stays_step name st line st' v :
  Py.get name (total_sizes (fst st)) = Some v ->
  parse_line st line = Ok st' ->
  exists v', Py.get name (total_sizes (fst st')) = Some v'.
Proof.
  destruct st as [self cur]. cbn [fst]. intros G H.
  destruct (parse_line_cases self cur line)
    as [(n & j & _ & _ & _ & E)|[(n & e & _ & _ & _ & E)|(_ & _ & E)]];
    rewrite E in H; injection H as <-; cbn [fst].
  - unfold store_section. destruct (0 <? info.size j); cbn [total_sizes];
      [|eauto].
    destruct (list_eq_dec ascii_dec name n) as [<-|Hne].
    + rewrite get_set_same. eauto.
    + rewrite get_set_other by assumption. eauto.
  - destruct (store_item_tables self n e) as [-> _]. eauto.
  - eauto.
Qed.

Lemma summary_stays name : forall ls st st' v,
  Py.get name (total_sizes (fst st)) = Some v ->
  parse_loop st ls = Ok st' ->
  exists v', Py.get name (total_sizes (fst st')) = Some v'.
Proof.
  induction ls as [|l ls IH]; intros st st' v G H;
    cbn [parse_loop] in H.
  - injection H as <-. eauto.
  - destruct (parse_line st l) as [st1|] eqn:E; [|discriminate].
    cbn [bind] in H.
    destruct (summary_stays_step name st l st1 v G E) as (v1 & G1).
    apply (IH st1 st' v1 G1 H).
Qed.

(** X10: reading more lines only adds.  When a file goes on after the
    lines [l1], the items that [l1] gave a section are still there, in
    their order and before every later item of that section, and a
    section of the summary of [l1] is still in the summary. *)
Theorem more_lines_only_add
        (l1 l2 : list str) (p1 p2 : MapFileParser.t) (name : str) :
  parse l1 = Ok p1 -> parse (l1 ++ l2) = Ok p2 ->
  (forall items,
      Py.get name (sections p1) = Some items ->
      exists more, Py.get name (sections p2) = Some (items ++ more))
  /\ (Py.mem name (get_summary p1) = true ->
      Py.mem name (get_summary p2) = true).
Proof.
  intros H1 H2.
  apply parse_loop_of_parse in H1 as (c1 & H1).
  apply parse_loop_of_parse in H2 as (c2 & H2).
  rewrite parse_loop_app, H1 in H2. cbn [bind] in H2.
  split.
  - intros items G. apply (items_grow name l2 (p1, c1) (p2, c2) items G H2).
  - unfold Py.mem, get_summary.
    destruct (Py.get name (total_sizes p1)) as [v|] eqn:G; [|discriminate].
    intros _.
    destruct (summary_stays name l2 (p1, c1) (p2, c2) v G H2) as (v' & G').
    cbn [fst] in G'. rewrite G'. reflexivity.
Qed.

Lemma more_lines_only_add_witness :
  exists more,
    Py.get (str_of ".bss")
      (sections (Samples.model
                   (Samples.zero_header ++ [ln " .bss.x 0x0 0x4 b.o"])))
    = Some (Py.get_default [] (str_of ".bss")
              (sections (Samples.model Samples.zero_header)) ++ more).
Proof.
  destruct (more_lines_only_add Samples.zero_header
              [ln " .bss.x 0x0 0x4 b.o"]
              (Samples.model Samples.zero_header)
              (Samples.model
                 (Samples.zero_header ++ [ln " .bss.x 0x0 0x4 b.o"]))
              (str_of ".bss")) as (H & _).
  - vm_compute; reflexivity.
  - vm_compute; reflexivity.
  - apply H. vm_compute; reflexivity.
Defined.

(** ** The order of the rows *)

Lemma insert_desc_stable {A} (key : A -> Z) (k : Z) x l :
  filter (fun a => key a =? k) (Py.insert_desc key x l)
  = filter (fun a => key a =? k) (x :: l).
Proof.
  induction l as [|y l IH]; cbn [Py.insert_desc]; [reflexivity|].
  destruct (key y <=? key x) eqn:E; [reflexivity|].
  apply Z.leb_gt in E. cbn [filter] in IH |- *. rewrite IH.
  destruct (key x =? k) eqn:Ex; [|reflexivity].
  apply Z.eqb_eq in Ex.
  replace (key y =? k) with false by (symmetry; apply Z.eqb_neq; lia).
  reflexivity.
Qed.

Lemma sorted_reverse_stable {A} (key : A -> Z) (k : Z) l :
  filter (fun a => key a =? k) (Py.sorted_reverse key l)
  = filter (fun a => key a =? k) l.
Proof.
  induction l as [|x l IH]; [reflexivity|].
  unfold Py.sorted_reverse in *. cbn [fold_right].
  rewrite insert_desc_stable. cbn [filter]. rewrite IH. reflexivity.
Qed.

Lemma insert_asc_stable {A} (key : A -> Z) (k : Z) x l :
  filter (fun a => key a =? k) (Py.insert_asc key x l)
  = filter (fun a => key a =? k) (x :: l).
Proof.
  induction l as [|y l IH]; cbn [Py.insert_asc]; [reflexivity|].
  destruct (key x <=? key y) eqn:E; [reflexivity|].
  apply Z.leb_gt in E. cbn [filter] in IH |- *. rewrite IH.
  destruct (key x =? k) eqn:Ex; [|reflexivity].
  apply Z.eqb_eq in Ex.
  replace (key y =? k) with false by (symmetry; apply Z.eqb_neq; lia).
  reflexivity.
Qed.

Lemma sorted_stable {A} (key : A -> Z) (k : Z) l :
  filter (fun a => key a =? k) (Py.sorted key l)
  = filter (fun a => key a =? k) l.
Proof.
  induction l as [|x l IH]; [reflexivity|].
  unfold Py.sorted in *. cbn [fold_right].
  rewrite insert_asc_stable. cbn [filter]. rewrite IH. reflexivity.
Qed.

Lemma keep_tail_length n x :
  (3 <= n)%nat -> (length (keep_tail n x) <= n)%nat.
Proof.
  intros Hn. unfold keep_tail. destruct (Nat.ltb n (length x)) eqn:E.
  - apply Nat.ltb_lt in E. rewrite length_app. unfold Py.slice_last.
    rewrite length_skipn. cbn [str_of list_ascii_of_string length]. lia.
  - apply Nat.ltb_ge in E. exact E.
Qed.

Lemma keep_head_length n x :
  (3 <= n)%nat -> (length (keep_head n x) <= n)%nat.
Proof.
  intros Hn. unfold keep_head. destruct (Nat.ltb n (length x)) eqn:E.
  - apply Nat.ltb_lt in E. rewrite length_app, length_firstn.
    cbn [str_of list_ascii_of_string length]. lia.
  - apply Nat.ltb_ge in E. exact E.
Qed.

Lemma breakdown_row_of_fields it row :
  breakdown_row_of it = Ok row ->
  b_address row = item.address it /\ b_size row = item.size it
  /\ format_size (item.size it) = Ok (b_size_str row)
  /\ b_subsection row = keep_head 28 (item.subsection it)
  /\ b_file row = keep_tail 50 (item.file it).
Proof.
  unfold breakdown_row_of.
  destruct (format_size (item.size it)); [|discriminate].
  cbn [bind]. intros H; injection H as <-. auto.
Qed.

(** X11: the detailed breakdown.  The items of a section are listed by
    falling size, items of one size in the order of the file, and none
    is lost or made up; the rows are the first [limit] of them
    ([limit >= 0]), each with the address and the size of its item, a
    subsection of at most 28 and a file of at most 50 characters, a name
    that is short enough being shown as it is.  The report returns when
    the sizes are below 2^990. *)
Theorem detailed_breakdown_rows
        (p : MapFileParser.t) (section : str) (items : list item.t)
        (limit : Z) :
  Py.get section (sections p) = Some items -> items <> [] -> 0 <= limit ->
  Permutation (get_all_contributors p section) items
  /\ StronglySorted (fun a b => item.size b <= item.size a)
       (get_all_contributors p section)
  /\ (forall k,
         filter (fun it => item.size it =? k) (get_all_contributors p section)
         = filter (fun it => item.size it =? k) items)
  /\ (forall rows,
         print_detailed_breakdown p section limit = Ok (Breakdown rows) ->
         Forall2
           (fun it row =>
              b_address row = item.address it /\ b_size row = item.size it
              /\ b_subsection row = keep_head 28 (item.subsection it)
              /\ b_file row = keep_tail 50 (item.file it)
              /\ (length (b_subsection row) <= 28)%nat
              /\ (length (b_file row) <= 50)%nat
              /\ ((length (item.subsection it) <= 28)%nat ->
                  b_subsection row = item.subsection it)
              /\ ((length (item.file it) <= 50)%nat ->
                  b_file row = item.file it))
           (firstn (Z.to_nat limit) (get_all_contributors p section)) rows)
  /\ (Forall (fun it => item.size it < 2 ^ 990) items ->
      exists rows,
        print_detailed_breakdown p section limit = Ok (Breakdown rows)
        /\ length rows = Nat.min (Z.to_nat limit) (length items)).
Proof.
  intros G Hne Hl. unfold print_detailed_breakdown, get_all_contributors.
  rewrite G.
  pose proof (sorted_reverse_perm item.size items) as Hperm.
  split; [exact Hperm|].
  split; [apply sorted_reverse_sorted|].
  split; [intros k; apply sorted_reverse_stable|].
  pose proof (sorted_reverse_not_nil item.size items Hne) as Hs.
  destruct (Py.sorted_reverse item.size items) as [|a l] eqn:E;
    [congruence|].
  rewrite <- E in *. rewrite slice_to_firstn by exact Hl.
  split.
  - intros rows H.
    destruct (mapM breakdown_row_of _) as [rows'|] eqn:Em; [|discriminate].
    cbn [bind] in H. injection H as <-.
    apply mapM_inv in Em. eapply Forall2_impl; [|exact Em].
    intros it row Hrow. cbv beta in Hrow.
    apply breakdown_row_of_fields in Hrow as (H1 & H2 & _ & H4 & H5).
    rewrite H4, H5.
    split; [exact H1|]. split; [exact H2|]. split; [reflexivity|].
    split; [reflexivity|].
    split; [apply keep_head_length; lia|].
    split; [apply keep_tail_length; lia|].
    split; intros Hlen.
    + unfold keep_head.
      replace (Nat.ltb 28 (length (item.subsection it))) with false
        by (symmetry; apply Nat.ltb_ge; exact Hlen).
      reflexivity.
    + unfold keep_tail.
      replace (Nat.ltb 50 (length (item.file it))) with false
        by (symmetry; apply Nat.ltb_ge; exact Hlen).
      reflexivity.
  - intros Hb.
    destruct (mapM_ok breakdown_row_of (fun _ _ => True)
                (firstn (Z.to_nat limit) (Py.sorted_reverse item.size items)))
      as (rows & Hrows & HF).
    + apply Forall_forall. intros it Hin. apply In_firstn in Hin.
      apply (Permutation_in _ Hperm) in Hin.
      rewrite Forall_forall in Hb.
      destruct (format_size_ok (item.size it) (Hb it Hin)) as (s & Hs').
      unfold breakdown_row_of. rewrite Hs'. cbn [bind]. eauto.
    + exists rows. rewrite Hrows. cbn [bind]. split; [reflexivity|].
      rewrite <- (Forall2_length HF), length_firstn.
      rewrite (Permutation_length Hperm). reflexivity.
Qed.

Lemma detailed_breakdown_rows_witness :
  exists rows,
    print_detailed_breakdown (Samples.model (readlines Samples.text_ab))
      (str_of ".text") 1
    = Ok (Breakdown rows)
    /\ length rows = 1%nat.
Proof.
  destruct (detailed_breakdown_rows
              (Samples.model (readlines Samples.text_ab)) (str_of ".text")
              (Py.get_default [] (str_of ".text")
                 (sections (Samples.model (readlines Samples.text_ab))))
              1) as (_ & _ & _ & _ & H).
  - vm_compute; reflexivity.
  - vm_compute; discriminate.
  - lia.
  - destruct H as (rows & H1 & H2).
    + repeat constructor.
    + exists rows. split; [exact H1|exact H2].
Defined.

(** ** The groups of the top contributors *)

Lemma mem_set {V} k k' v (d : Py.dict V) :
  Py.mem k' (Py.set k v d) = (str_eqb k' k || Py.mem k' d)%bool.
Proof.
  unfold Py.mem. destruct (str_eqb k' k) eqn:E.
  - apply str_eqb_eq in E. subst k'. rewrite get_set_same. reflexivity.
  - apply str_eqb_neq in E. rewrite get_set_other by assumption. reflexivity.
Qed.

Lemma filter_filter {A} (f g : A -> bool) l :
  filter f (filter g l) = filter (fun a => (g a && f a)%bool) l.
Proof.
  induction l as [|a l IH]; [reflexivity|]. cbn [filter].
  destruct (g a); cbn [filter andb]; [|exact IH].
  destruct (f a); rewrite IH; reflexivity.
Qed.

Lemma group_fold_keys items : forall acc,
  Py.keys (fold_left group_step items acc)
  = Py.keys acc
    ++ filter (fun k => negb (Py.mem k acc))
         (first_seen (map item.file items)).
Proof.
  induction items as [|it items IH]; intros acc;
    cbn [fold_left map first_seen filter].
  - rewrite app_nil_r. reflexivity.
  - rewrite IH.
    set (f := item.file it).
    set (fs := first_seen (map item.file items)).
    assert (Hf : filter
                   (fun k => negb (Py.mem k (group_step acc it))) fs
                 = filter (fun k => negb (Py.mem k acc))
                     (filter (fun k' => negb (str_eqb k' f)) fs)).
    { rewrite filter_filter. apply filter_ext. intros k.
      unfold group_step. fold f. rewrite mem_set.
      destruct (str_eqb k f); reflexivity. }
    rewrite Hf. unfold group_step. fold f. rewrite keys_set.
    destruct (Py.mem f acc) eqn:E; cbn [negb].
    + reflexivity.
    + rewrite <- app_assoc. reflexivity.
Qed.

Lemma set_sum k s (d : Py.dict Z) :
  Py.sum (Py.values (Py.set k (Py.get_default 0 k d + s) d))
  = Py.sum (Py.values d) + s.
Proof.
  unfold Py.get_default, Py.values.
  induction d as [|[k' v'] d IH]; cbn [Py.set Py.get map snd].
  - rewrite sum_cons. unfold Py.sum. cbn. lia.
  - destruct (str_eqb k k'); cbn [map snd]; rewrite !sum_cons.
    + lia.
    + rewrite IH. lia.
Qed.

Lemma group_fold_sum items : forall acc,
  Py.sum (Py.values (fold_left group_step items acc))
  = Py.sum (Py.values acc) + Py.sum (map item.size items).
Proof.
  induction items as [|it items IH]; intros acc; cbn [fold_left map].
  - unfold Py.sum at 3. cbn. lia.
  - rewrite IH. unfold group_step. rewrite set_sum, sum_cons. lia.
Qed.

(** X12: the groups of the top contributors.  The files of a section are
    grouped in the order in which they are first met; no byte is lost by
    the grouping, the sizes of the groups add up to the sizes of the
    items; the ranking by falling size keeps files of one size in that
    first order; and when the limit is not below the number of files,
    the rows add up to the sizes of all items of the section. *)
Theorem top_contributors_order
        (p : MapFileParser.t) (section : str) (items : list item.t)
        (limit : Z) :
  Py.get section (sections p) = Some items ->
  Py.keys (group_by_file items) = first_seen (map item.file items)
  /\ Py.sum (Py.values (group_by_file items)) = Py.sum (map item.size items)
  /\ (forall k,
         filter (fun c => snd c =? k)
           (Py.sorted_reverse snd (group_by_file items))
         = filter (fun c => snd c =? k) (group_by_file items))
  /\ (Z.of_nat (length (group_by_file items)) <= limit ->
      Permutation (get_top_contributors p section limit)
        (group_by_file items)
      /\ Py.sum (map snd (get_top_contributors p section limit))
         = Py.sum (map item.size items)).
Proof.
  intros G.
  assert (Hk : Py.keys (group_by_file items)
               = first_seen (map item.file items)).
  { unfold group_by_file. rewrite group_fold_keys. cbn [Py.keys map app].
    rewrite <- (filter_ext (fun _ => true)) by reflexivity.
    clear. induction (first_seen (map item.file items)) as [|a l IH];
      [reflexivity|]. cbn [filter]. rewrite IH. reflexivity. }
  assert (Hs : Py.sum (Py.values (group_by_file items))
               = Py.sum (map item.size items)).
  { unfold group_by_file. rewrite group_fold_sum. unfold Py.sum at 1.
    cbn. reflexivity. }
  split; [exact Hk|]. split; [exact Hs|].
  split; [intros k; apply sorted_reverse_stable|].
  intros Hl. unfold get_top_contributors. rewrite G.
  rewrite slice_to_firstn by lia.
  pose proof (sorted_reverse_perm snd (group_by_file items)) as Hperm.
  rewrite firstn_all2
    by (rewrite (Permutation_length Hperm); lia).
  split; [exact Hperm|].
  rewrite <- Hs. apply sum_perm, Permutation_map, Hperm.
Qed.

Lemma top_contributors_order_witness :
  Py.keys (group_by_file
             (Py.get_default [] (str_of ".text")
                (sections (Samples.model (readlines Samples.text_ab)))))
  = [str_of "a.o"; str_of "b.o"]
  /\ Py.sum (map snd (get_top_contributors
                        (Samples.model (readlines Samples.text_ab))
                        (str_of ".text") 10))
     = 160.
Proof.
  destruct (top_contributors_order
              (Samples.model (readlines Samples.text_ab)) (str_of ".text")
              (Py.get_default [] (str_of ".text")
                 (sections (Samples.model (readlines Samples.text_ab))))
              10) as (H1 & _ & _ & H4).
  - vm_compute; reflexivity.
  - split; [rewrite H1; reflexivity|].
    destruct H4 as [_ H4]; [vm_compute; discriminate|].
    rewrite H4. reflexivity.
Defined.

(** ** Percentages and sizes *)

Lemma percentage_at_most a b :
  0 < a <= b ->
  exists pct,
    Visualizer.percentage a b = Ok pct /\ at_most 100 0 pct
    /\ (exists n, to_int pct = Ok n /\ 0 <= n <= 100)
    /\ (a = b -> pct = hundred).
Proof.
  intros Hab. destruct (percentage_ok a b Hab) as (q & Hq & Hp).
  destruct (truediv_le_one a b Hab) as (q' & Hq' & Hle).
  rewrite Hq in Hq'. injection Hq' as <-.
  assert (Hm : at_most 100 0 (mul q hundred))
    by (apply mul_at_most; [assumption|lia|reflexivity|lia]).
  exists (mul q hundred). split; [exact Hp|]. split; [exact Hm|].
  split; [apply to_int_at_most; [exact Hm|lia]|].
  intros <-. rewrite truediv_same in Hq by lia. injection Hq as <-.
  reflexivity.
Qed.

(** X13: no percentage is above 100.  In the summary and in the top
    contributors of a parsed model every percentage is a binary64 value
    between 0 and 100, whose whole part [int] gives without an error;
    a section or a file that is alone in its report has exactly 100. *)
Theorem percentages_at_most_100 (lines : list str) (p : MapFileParser.t) :
  parse lines = Ok p ->
  (forall rows total total_str,
      print_section_summary p = Ok (Summary rows total total_str) ->
      Forall (fun row =>
                at_most 100 0 (s_percentage row)
                /\ (exists n, to_int (s_percentage row) = Ok n
                              /\ 0 <= n <= 100)
                /\ (s_size row = total -> s_percentage row = hundred))
        rows)
  /\ (forall section limit rows,
         0 <= limit ->
         print_top_contributors p section limit = Ok (Contributors rows) ->
         Forall (fun row =>
                   at_most 100 0 (c_percentage row)
                   /\ (exists n, to_int (c_percentage row) = Ok n
                                 /\ 0 <= n <= 100)
                   /\ (c_size row
                       = Py.sum (map snd
                                   (get_top_contributors p section limit)) ->
                       c_percentage row = hundred))
           rows).
Proof.
  intros Hp. pose proof (parse_positive_sizes lines p Hp) as Hpos. split.
  - intros rows total total_str. unfold print_section_summary.
    destruct (get_summary p) as [|s0 rest] eqn:Es; [discriminate|].
    rewrite <- Es.
    destruct (mapM _ (Py.sorted_reverse snd (get_summary p)))
      as [rows'|] eqn:Em; [|discriminate]. cbn [bind].
    destruct (format_size _); [|discriminate]. cbn [bind].
    intros H; injection H as <- <- _.
    apply mapM_inv in Em.
    assert (Hin : Forall (fun sec => In sec (get_summary p))
                    (Py.sorted_reverse snd (get_summary p))).
    { apply Forall_forall. intros sec Hs.
      apply (Permutation_in _ (sorted_reverse_perm snd _)), Hs. }
    revert Hin. induction Em as [|sec row l rows0 Hrow _ IH]; intros Hin;
      [constructor|].
    inversion Hin as [|? ? Hsec Hrest]; subst.
    constructor; [|apply IH, Hrest].
    apply summary_row_of_fields in Hrow as (_ & H2 & _ & H4 & _).
    destruct sec as [name v]. cbn [snd] in H2, H4.
    destruct (summary_section_bounds p name v Hpos Hsec) as [[Hv _] Hle].
    destruct (percentage_at_most v (Py.sum (Py.values (get_summary p)))
                ltac:(lia)) as (pct & Hpct & Ha & Hn & He).
    rewrite Hpct in H4. injection H4 as <-. rewrite H2. auto.
  - intros section limit rows Hl H.
    pose proof (top_contributor_bounds lines p section limit) as Hb.
    unfold print_top_contributors in H.
    destruct (get_top_contributors p section limit) as [|c0 top] eqn:Et;
      [discriminate|].
    rewrite <- Et in *.
    destruct (mapM _ _) as [rows'|] eqn:Em; [|discriminate].
    cbn [bind] in H. injection H as <-.
    apply mapM_inv in Em.
    assert (Hin : Forall (fun ic : Z * (str * Z) =>
                            In (snd ic)
                              (get_top_contributors p section limit))
                    (enumerate 1 (get_top_contributors p section limit))).
    { apply Forall_forall. intros [i c] Hi. apply in_enumerate in Hi.
      exact Hi. }
    revert Hin. induction Em as [|ic row l rows0 Hrow _ IH]; intros Hin;
      [constructor|].
    inversion Hin as [|? ? Hc Hrest]; subst.
    constructor; [|apply IH, Hrest].
    apply contributor_row_of_fields in Hrow as (_ & _ & H3 & H4 & _).
    destruct (percentage_at_most _ _ (Hb (snd ic) Hp Hl Hc))
      as (pct & Hpct & Ha & Hn & He).
    rewrite Hpct in H4. injection H4 as <-. rewrite H3. auto.
Qed.

Lemma percentages_at_most_100_witness :
  exists rows total total_str,
    print_section_summary (Samples.model Samples.thirds)
    = Ok (Summary rows total total_str)
    /\ Forall (fun row => exists n, to_int (s_percentage row) = Ok n
                                    /\ 0 <= n <= 100) rows.
Proof.
  assert (Hp : parse Samples.thirds = Ok (Samples.model Samples.thirds))
    by (vm_compute; reflexivity).
  destruct (print_section_summary (Samples.model Samples.thirds))
    as [[|rows total total_str]|] eqn:E;
    [vm_compute in E; discriminate| |vm_compute in E; discriminate].
  exists rows, total, total_str. split; [reflexivity|].
  pose proof (proj1 (percentages_at_most_100 _ _ Hp) rows total total_str E)
    as H.
  eapply Forall_impl; [|exact H]. intros row (_ & Hn & _). exact Hn.
Defined.



Lemma truediv_raises a b e :
  b <> 0 -> truediv a b = Raise e -> e = OverflowError.
Proof.
  intros Hb. unfold truediv.
  replace (b =? 0) with false by (symmetry; apply Z.eqb_neq; exact Hb).
  unfold finite_or_overflow.
  destruct (SFdiv prec emax (int_operand a) (int_operand b));
    intros H; try discriminate. injection H as <-. reflexivity.
Qed.



(** ** The span of the memory map *)

Lemma walk_account use_vma : forall secs prev,
  Forall (fun s => end_ s = start s + size s) secs ->
  Py.sum (gap_sizes (walk_lines use_vma prev secs)) + Py.sum (map size secs)
  = last (map end_ secs) prev - prev + overlap prev secs.
Proof.
  induction secs as [|s secs IH]; intros prev H.
  - cbn. unfold Py.sum. cbn. lia.
  - inversion H as [|? ? Hs Hrest]; subst.
    cbn [walk_lines map overlap]. rewrite last_cons.
    rewrite gap_sizes_app, sum_app. cbn [gap_sizes]. rewrite sum_cons.
    specialize (IH (end_ s) Hrest).
    unfold gap_before. destruct (prev <? start s) eqn:E.
    + apply Z.ltb_lt in E. cbn [gap_sizes]. rewrite sum_cons.
      unfold Py.sum at 1. cbn [fold_left]. lia.
    + apply Z.ltb_ge in E. cbn [gap_sizes]. unfold Py.sum at 1.
      cbn [fold_left]. lia.
Qed.

Lemma overlap_nonneg : forall secs prev, 0 <= overlap prev secs.
Proof.
  induction secs as [|s secs IH]; intros prev; cbn [overlap]; [lia|].
  specialize (IH (end_ s)). lia.
Qed.

Lemma overlap_none : forall secs prev,
  match secs with [] => True | s :: _ => prev <= start s end ->
  (forall before s s' after,
      secs = before ++ s :: s' :: after -> end_ s <= start s') ->
  overlap prev secs = 0.
Proof.
  induction secs as [|s secs IH]; intros prev H1 H2; cbn [overlap];
    [reflexivity|].
  rewrite (IH (end_ s)).
  - lia.
  - destruct secs as [|s' after]; [exact I|].
    apply (H2 [] s s' after). reflexivity.
  - intros before a b after E. apply (H2 (s :: before) a b after).
    rewrite E. reflexivity.
Qed.

Lemma collect_ends use_vma (d : Py.dict info.t) :
  Forall (fun s => end_ s = start s + size s) (collect use_vma d).
Proof.
  unfold collect. apply Forall_map, Forall_forall. intros [n i] _.
  reflexivity.
Qed.

Lemma last_map {A} (f : A -> Z) : forall (l : list A) a d,
  last (map f (a :: l)) d = f (last (a :: l) a).
Proof.
  induction l as [|b l IH]; intros a d; [reflexivity|].
  change (last (map f (b :: l)) d = f (last (b :: l) a)).
  rewrite (last_cons l b a), <- (last_cons l b b). apply IH.
Qed.

(** X16: the account of the memory map.  The bytes used and the bytes of
    the gaps add up to the span of the region and the bytes by which
    sections start below the end of the section before them; so they
    are never less than the span, and they are the span when no section
    starts below the end of the one before. *)
Theorem used_and_gaps_cover_span
        (p : MapFileParser.t) (use_vma : bool) (l : layout) :
  print_memory_map p use_vma = Ok (Layout l) ->
  used l + gaps l
  = region_total l
    + overlap (region_start l)
        (Py.sorted start (collect use_vma (section_addresses p)))
  /\ region_total l <= used l + gaps l
  /\ ((forall before s s' after,
          Py.sorted start (collect use_vma (section_addresses p))
          = before ++ s :: s' :: after ->
          end_ s <= start s') ->
      used l + gaps l = region_total l).
Proof.
  intros H. destruct (print_memory_map_inv p use_vma l H)
    as (first & rest & Hs & Hrs & Hre & Hrt & Hlines & Hused & Hgaps).
  assert (Hends : Forall (fun s => end_ s = start s + size s)
                    (first :: rest)).
  { rewrite <- Hs. apply Forall_forall. intros s Hin.
    apply (Permutation_in _ (sorted_perm start _)) in Hin.
    pose proof (collect_ends use_vma (section_addresses p)) as Hc.
    rewrite Forall_forall in Hc. apply Hc, Hin. }
  pose proof (walk_account use_vma (first :: rest) (start first) Hends)
    as Hacc.
  rewrite last_map in Hacc.
  assert (E : used l + gaps l
              = region_total l + overlap (region_start l) (first :: rest)).
  { rewrite Hused, Hgaps, Hlines, Hrt, Hre, Hrs. lia. }
  rewrite Hs. split; [exact E|].
  pose proof (overlap_nonneg (first :: rest) (region_start l)) as Hn.
  split; [lia|]. intros Hrow.
  rewrite (overlap_none (first :: rest) (region_start l)) in E;
    [lia|rewrite Hrs; cbn; lia|exact Hrow].
Qed.

Lemma used_and_gaps_cover_span_witness :
  exists l,
    print_memory_map (Samples.model Samples.overlapping) true = Ok (Layout l)
    /\ used l + gaps l = 150 /\ region_total l = 60
    /\ overlap (region_start l)
         (Py.sorted start
            (collect true
               (section_addresses (Samples.model Samples.overlapping))))
       = 90.
Proof.
  destruct (print_memory_map (Samples.model Samples.overlapping) true)
    as [[| |l]|] eqn:E;
    [vm_compute in E; discriminate|vm_compute in E; discriminate|
    |vm_compute in E; discriminate].
  exists l. split; [reflexivity|].
  destruct (used_and_gaps_cover_span _ _ _ E) as (H1 & _).
  assert (Hl : region_total l = 60 /\ region_start l = 0).
  { vm_compute in E. injection E as <-. split; reflexivity. }
  destruct Hl as [Ht Hs]. rewrite Hs in H1 |- *.
  assert (Ho : overlap 0
                 (Py.sorted start
                    (collect true
                       (section_addresses
                          (Samples.model Samples.overlapping))))
               = 90) by (vm_compute; reflexivity).
  rewrite Ho, Ht in H1. split; [exact H1|]. split; [exact Ht|exact Ho].
Defined.

(** ** The bars of the memory map *)

Lemma cells_bounds n part whole k :
  1 <= n -> cells n part whole = Ok k -> 1 <= k <= n.
Proof.
  intros Hn. unfold cells.
  destruct (truediv (n * part) whole); [|discriminate]. cbn [bind].
  destruct (to_int _); [|discriminate]. cbn [bind].
  intros H; injection H as <-. lia.
Qed.

Lemma walk_step_drawn use_vma region_total w sec w' :
  walk_step use_vma region_total w sec = Ok w' ->
  Forall (drawn region_total) (printed w) ->
  Forall (drawn region_total) (printed w').
Proof.
  unfold walk_step, gap_lines. intros H Hw.
  assert (Hg : forall gl,
             (if prev_end w <? start sec
              then
                gap_str <- format_size (start sec - prev_end w) ;;
                k <- cells 40 (start sec - prev_end w) region_total ;;
                Ok [Gap (prev_end w) (start sec) (start sec - prev_end w)
                      gap_str (Py.repeat_chr "." k)]
              else Ok []) = Ok gl ->
             Forall (drawn region_total) gl).
  { intros gl. destruct (prev_end w <? start sec).
    - destruct (format_size _) as [gs|] eqn:Ef; [|discriminate].
      cbn [bind].
      destruct (cells 40 _ _) as [k|] eqn:Ec; [|discriminate]. cbn [bind].
      intros E; injection E as <-. repeat constructor; [exact Ef|].
      exists k. split; [exact Ec|].
      split; [apply (cells_bounds 40 _ _ _ ltac:(lia) Ec)|reflexivity].
    - intros E; injection E as <-. constructor. }
  destruct (if prev_end w <? start sec then _ else _) as [gl|] eqn:Eg;
    [|discriminate].
  cbn [bind] in H. specialize (Hg gl eq_refl).
  destruct (format_size (size sec)) as [ss|] eqn:Ef; [|discriminate].
  cbn [bind] in H.
  destruct (cells 60 _ _) as [k|] eqn:Ec; [|discriminate]. cbn [bind] in H.
  injection H as <-. cbn [printed].
  apply Forall_app. split; [exact Hw|].
  apply Forall_app. split; [exact Hg|].
  repeat constructor; [exact Ef|].
  exists k. split; [exact Ec|].
  split; [apply (cells_bounds 60 _ _ _ ltac:(lia) Ec)|reflexivity].
Qed.

Lemma walk_fold_drawn use_vma region_total : forall secs w w',
  foldM (walk_step use_vma region_total) secs w = Ok w' ->
  Forall (drawn region_total) (printed w) ->
  Forall (drawn region_total) (printed w').
Proof.
  induction secs as [|sec secs IH]; intros w w' H Hw; cbn [foldM] in H.
  - injection H as <-. exact Hw.
  - destruct (walk_step use_vma region_total w sec) as [w1|] eqn:E1;
      [|discriminate].
    cbn [bind] in H.
    apply (IH w1 w' H), (walk_step_drawn _ _ _ _ _ E1 Hw).
Qed.

(** X17: the drawing of the memory map.  Every line carries the size text
    of [format_size] and a bar that is never empty and never too long:
    1 to 40 dots for a gap, 1 to 60 hashes for a section, also for a
    section that is larger than the span.  For a parsed model the span
    is above zero, and every section starts inside the region, from its
    start on and below its end. *)
Theorem memory_map_drawn
        (lines : list str) (p : MapFileParser.t) (use_vma : bool)
        (l : layout) :
  parse lines = Ok p ->
  print_memory_map p use_vma = Ok (Layout l) ->
  Forall (drawn (region_total l)) (Visualizer.lines l)
  /\ format_size (region_total l) = Ok (region_str l)
  /\ format_size (used l) = Ok (used_str l)
  /\ format_size (gaps l) = Ok (gaps_str l)
  /\ 0 < region_total l
  /\ Forall (fun sec => region_start l <= start sec < region_end l)
       (Py.sorted start (collect use_vma (section_addresses p))).
Proof.
  intros Hp H.
  destruct (print_memory_map_inv p use_vma l H)
    as (first & rest & Hs & Hrs & Hre & Hrt & _).
  assert (Hdraw : Forall (drawn (region_total l)) (Visualizer.lines l)
                  /\ format_size (region_total l) = Ok (region_str l)
                  /\ format_size (used l) = Ok (used_str l)
                  /\ format_size (gaps l) = Ok (gaps_str l)).
  { clear - H. unfold print_memory_map in H.
    destruct (section_addresses p) as [|a0 d]; [discriminate|].
    destruct (Py.sorted start (collect use_vma (a0 :: d)))
      as [|first rest]; [discriminate|].
    cbv zeta in H.
    destruct (format_size _) as [rs|] eqn:E1; [|discriminate].
    cbn [bind] in H.
    destruct (foldM _ _ _) as [w|] eqn:Ef; [|discriminate].
    cbn [bind] in H.
    destruct (format_size (total_used w)) eqn:E2; [|discriminate].
    cbn [bind] in H.
    destruct (format_size (total_gaps w)) eqn:E3; [|discriminate].
    cbn [bind] in H. injection H as <-.
    cbn [region_total Visualizer.lines region_str used used_str gaps
           gaps_str].
    apply walk_fold_drawn in Ef; [|constructor]. auto. }
  destruct Hdraw as (D1 & D2 & D3 & D4).
  split; [exact D1|]. split; [exact D2|]. split; [exact D3|].
  split; [exact D4|].
  destruct (parse_positive_sizes lines p Hp) as (_ & Hpos & _).
  pose proof (sorted_perm start (collect use_vma (section_addresses p)))
    as Hperm.
  pose proof (sorted_sorted start (collect use_vma (section_addresses p)))
    as Hsorted.
  assert (Hsec : Forall (fun s => end_ s = start s + size s /\ 0 < size s)
                   (first :: rest)).
  { rewrite <- Hs. apply Forall_forall. intros s Hin.
    apply (Permutation_in _ Hperm) in Hin. unfold collect in Hin.
    apply in_map_iff in Hin as ([n i] & <- & Hin).
    cbn [end_ start size]. split; [reflexivity|].
    unfold all_values in Hpos. rewrite Forall_forall in Hpos.
    apply (Hpos _ Hin). }
  rewrite Hs in Hsorted |- *.
  inversion Hsorted as [|? ? _ Hfirst]; subst.
  pose proof (last_in rest first) as Hlast.
  rewrite Forall_forall in Hsec.
  destruct (Hsec _ Hlast) as [Hle Hlsz].
  assert (Hmax : Forall (fun s => start s
                                  <= start (last (first :: rest) first))
                   (first :: rest)).
  { clear - Hsorted. revert first Hsorted.
    induction rest as [|b rest IH]; intros first Hsorted.
    - repeat constructor. cbn. lia.
    - inversion Hsorted as [|? ? Hr Hf]; subst.
      rewrite last_cons. specialize (IH b Hr).
      rewrite last_cons in IH |- *.
      constructor; [|exact IH].
      inversion IH as [|? ? Hb _]; subst.
      inversion Hf; subst. lia. }
  rewrite Forall_forall in Hfirst, Hmax.
  assert (Hf : start first <= start (last (first :: rest) first))
    by (apply Hmax; left; reflexivity).
  split; [lia|].
  apply Forall_forall. intros s Hin.
  pose proof (Hmax s Hin). destruct Hin as [<-|Hin]; [lia|].
  pose proof (Hfirst s Hin). lia.
Qed.

Lemma memory_map_drawn_witness :
  exists l,
    print_memory_map (Samples.model Samples.overlapping) true = Ok (Layout l)
    /\ Forall (drawn (region_total l)) (Visualizer.lines l)
    /\ 0 < region_total l.
Proof.
  destruct (print_memory_map (Samples.model Samples.overlapping) true)
    as [[| |l]|] eqn:E;
    [vm_compute in E; discriminate|vm_compute in E; discriminate|
    |vm_compute in E; discriminate].
  exists l. split; [reflexivity|].
  destruct (memory_map_drawn Samples.overlapping
              (Samples.model Samples.overlapping) true l)
    as (H1 & _ & _ & _ & H5 & _).
  - vm_compute; reflexivity.
  - exact E.
  - split; [exact H1|exact H5].
Defined.

(** ** The two views of the memory map *)

Lemma walk_same secs : forall region_total w,
  Forall (fun s => vma s = lma s) secs ->
  foldM (walk_step false region_total) secs w
  = foldM (walk_step true region_total) secs w.
Proof.
  induction secs as [|sec secs IH]; intros region_total w H;
    [reflexivity|].
  inversion H as [|? ? Hs Hrest]; subst. cbn [foldM].
  assert (E : walk_step false region_total w sec
              = walk_step true region_total w sec).
  { unfold walk_step, other. rewrite Hs, Z.eqb_refl. reflexivity. }
  rewrite E. destruct (walk_step true region_total w sec); cbn [bind];
    [apply IH, Hrest|reflexivity].
Qed.

Lemma walk_lines_plain_others use_vma : forall secs prev,
  Forall (fun s => vma s = lma s) secs ->
  Forall (fun pl => match pl with
                    | PSec _ o => o = None
                    | PGap _ _ _ => True
                    end)
    (walk_lines use_vma prev secs).
Proof.
  induction secs as [|sec secs IH]; intros prev H; [constructor|].
  inversion H as [|? ? Hs Hrest]; subst. cbn [walk_lines].
  apply Forall_app. split.
  - unfold gap_before. destruct (prev <? start sec); repeat constructor.
  - constructor; [|apply IH, Hrest].
    unfold other. rewrite Hs, Z.eqb_refl. destruct use_vma; reflexivity.
Qed.

(** X18: the two views of the memory map.  When no section has a load
    address that differs from its address, the view of the load
    addresses is the view of the runtime addresses, line for line, and
    no section is annotated with another address. *)
Theorem views_agree_without_load_addresses
        (p : MapFileParser.t) (use_vma : bool) :
  all_values (fun i => info.lma i = info.vma i) (section_addresses p) ->
  print_memory_map p false = print_memory_map p true
  /\ forall l,
       print_memory_map p use_vma = Ok (Layout l) ->
       Forall (fun line => match plain line with
                           | PSec _ o => o = None
                           | PGap _ _ _ => True
                           end)
         (Visualizer.lines l).
Proof.
  intros H.
  assert (Hc : forall uv,
             collect uv (section_addresses p)
             = collect true (section_addresses p)).
  { intros uv. unfold collect. apply map_ext_in. intros [n i] Hin.
    unfold all_values in H. rewrite Forall_forall in H.
    specialize (H _ Hin). cbn [snd] in H. destruct uv; [reflexivity|].
    rewrite H. reflexivity. }
  assert (Hv : forall uv,
             Forall (fun s => vma s = lma s)
               (Py.sorted start (collect uv (section_addresses p)))).
  { intros uv. apply Forall_forall. intros s Hin.
    apply (Permutation_in _ (sorted_perm start _)) in Hin.
    unfold collect in Hin. apply in_map_iff in Hin as ([n i] & <- & Hin).
    unfold all_values in H. rewrite Forall_forall in H.
    specialize (H _ Hin). cbn [snd vma lma] in *. congruence. }
  split.
  - unfold print_memory_map. rewrite (Hc false).
    destruct (section_addresses p) as [|a0 d] eqn:Ed; [reflexivity|].
    rewrite <- Ed in *.
    pose proof (Hv true) as Hs.
    destruct (Py.sorted start (collect true (section_addresses p)))
      as [|first rest]; [reflexivity|].
    cbv zeta. rewrite (walk_same _ _ _ Hs). reflexivity.
  - intros l Hl.
    destruct (print_memory_map_inv p use_vma l Hl)
      as (first & rest & Hs & _ & _ & _ & Hlines & _).
    pose proof (Hv use_vma) as Hsame. rewrite Hs in Hsame.
    pose proof (walk_lines_plain_others use_vma (first :: rest)
                  (start first) Hsame) as Hw.
    rewrite <- Hlines, Forall_map in Hw. exact Hw.
Qed.

Lemma views_agree_without_load_addresses_witness :
  print_memory_map (Samples.model Samples.two_ranges) false
  = print_memory_map (Samples.model Samples.two_ranges) true.
Proof.
  apply (views_agree_without_load_addresses
           (Samples.model Samples.two_ranges) true).
  repeat constructor.
Defined.

(** ** The program *)

Import Program.

Lemma print_section_summary_returns lines p :
  parse lines = Ok p -> get_summary p <> [] ->
  Py.sum (Py.values (get_summary p)) < 2 ^ 990 ->
  exists rows total_str,
    print_section_summary p
    = Ok (Summary rows (Py.sum (Py.values (get_summary p))) total_str).
Proof.
  intros Hp Hne Hsum. pose proof (parse_positive_sizes lines p Hp) as Hpos.
  unfold print_section_summary.
  destruct (get_summary p) as [|s0 rest] eqn:Es; [congruence|].
  rewrite <- Es in *.
  set (total := Py.sum (Py.values (get_summary p))) in *.
  set (max_size := Py.max (Py.values (get_summary p))).
  destruct (mapM_ok (summary_row_of total max_size)
              (fun _ _ => True) (Py.sorted_reverse snd (get_summary p)))
    as (rows & -> & _).
  - apply Forall_forall. intros [name v] Hin.
    apply (Permutation_in _ (sorted_reverse_perm snd (get_summary p)))
      in Hin.
    destruct (summary_section_bounds p name v Hpos Hin)
      as [[Hv Hmax] Hle].
    fold total in Hle.
    destruct (percentage_ok v total ltac:(lia)) as (q & _ & Hq).
    destruct (summary_bar_of p name v Hpos Hin) as (n & _ & Hbar & _).
    destruct (format_size_ok v ltac:(lia)) as (s & Hs).
    unfold summary_row_of. fold max_size in Hbar.
    rewrite Hq, Hbar, Hs. cbn [bind]. eauto.
  - cbn [bind]. destruct (format_size_ok total Hsum) as (s & ->).
    cbn [bind]. eauto.
Qed.

Lemma walk_lines_length use_vma : forall secs prev,
  length (walk_lines use_vma prev secs)
  = (length secs + length (gap_sizes (walk_lines use_vma prev secs)))%nat.
Proof.
  induction secs as [|sec secs IH]; intros prev; [reflexivity|].
  cbn [walk_lines]. rewrite length_app, gap_sizes_app, length_app.
  cbn [length gap_sizes]. rewrite (IH (end_ sec)).
  unfold gap_before. destruct (prev <? start sec); cbn [length gap_sizes];
    lia.
Qed.

(** X19: the two reports of [main] agree.  When [main] returns, the
    summary says "no sections" exactly when the memory map says "no
    layout"; otherwise the total under the summary is the number of
    bytes used under the memory map, and the memory map has one section
    line for every row of the summary, the other lines being its
    gaps. *)
Theorem main_reports_agree
        (lines : list str) (summary : summary_report)
        (memory_map : layout_report) :
  main lines = Ok (summary, memory_map) ->
  (summary = NoSections <-> memory_map = NoLayout)
  /\ memory_map <> Nothing
  /\ (forall rows total total_str l,
         summary = Summary rows total total_str ->
         memory_map = Layout l ->
         total = used l
         /\ (length rows + length (gap_sizes (map plain (Visualizer.lines l)))
             = length (Visualizer.lines l))%nat).
Proof.
  unfold main. destruct (parse lines) as [p|] eqn:Hp; [|discriminate].
  cbn [bind].
  destruct (print_section_summary p) as [s|] eqn:Hs; [|discriminate].
  cbn [bind].
  destruct (print_memory_map p true) as [m|] eqn:Hm; [|discriminate].
  cbn [bind]. intros H; injection H as <- <-.
  pose proof (parse_summary_of_addresses _ _ Hp) as Ht.
  assert (Hlen : length (get_summary p) = length (section_addresses p))
    by (unfold get_summary; rewrite Ht, length_map; reflexivity).
  split; [|split].
  - unfold print_section_summary in Hs. unfold print_memory_map in Hm.
    destruct (get_summary p) as [|s0 r0];
      destruct (section_addresses p) as [|a0 d0]; try discriminate.
    + injection Hs as <-. injection Hm as <-. split; reflexivity.
    + destruct (mapM _ _); cbn [bind] in Hs; [|discriminate].
      destruct (format_size _); cbn [bind] in Hs; [|discriminate].
      injection Hs as <-. split; [discriminate|]. intros ->.
      destruct (Py.sorted start (collect true (a0 :: d0)));
        [discriminate|].
      cbv zeta in Hm.
      destruct (format_size _); cbn [bind] in Hm; [|discriminate].
      destruct (foldM _ _ _); cbn [bind] in Hm; [|discriminate].
      destruct (format_size _); cbn [bind] in Hm; [|discriminate].
      destruct (format_size _); cbn [bind] in Hm; discriminate.
  - intros ->. unfold print_memory_map in Hm.
    destruct (section_addresses p) as [|a0 d0] eqn:Ed; [discriminate|].
    pose proof (sorted_perm start (collect true (a0 :: d0))) as Hperm.
    destruct (Py.sorted start (collect true (a0 :: d0))) as [|f r].
    + apply Permutation_nil in Hperm. discriminate.
    + cbv zeta in Hm.
      destruct (format_size _); cbn [bind] in Hm; [|discriminate].
      destruct (foldM _ _ _); cbn [bind] in Hm; [|discriminate].
      destruct (format_size _); cbn [bind] in Hm; [|discriminate].
      destruct (format_size _); cbn [bind] in Hm; discriminate.
  - intros rows total total_str l -> ->.
    destruct (print_memory_map_inv p true l Hm)
      as (first & rest & Hsort & _ & _ & _ & Hlines & Hused & _).
    pose proof (sorted_perm start (collect true (section_addresses p)))
      as Hperm.
    rewrite Hsort in Hperm.
    assert (Hrows : total = Py.sum (Py.values (get_summary p))
                    /\ length rows = length (get_summary p)).
    { unfold print_section_summary in Hs.
      destruct (get_summary p) as [|s0 r0] eqn:Es; [discriminate|].
      rewrite <- Es in *.
      destruct (mapM _ _) as [rows'|] eqn:Em; cbn [bind] in Hs;
        [|discriminate].
      destruct (format_size _); cbn [bind] in Hs; [|discriminate].
      injection Hs as <- <- _. split; [reflexivity|].
      apply mapM_inv, Forall2_length in Em. rewrite <- Em.
      apply Permutation_length, sorted_reverse_perm. }
    destruct Hrows as [-> Hr]. split.
    + rewrite (parse_summary_sum _ _ Hp), Hused.
      rewrite <- (collect_sizes true).
      apply sum_perm, Permutation_map, Permutation_sym, Hperm.
    + rewrite <- (length_map plain (Visualizer.lines l)), Hlines.
      rewrite walk_lines_length, Hr, Hlen.
      rewrite (Permutation_length Hperm). unfold collect.
      rewrite length_map. reflexivity.
Qed.

Lemma main_reports_agree_witness :
  exists rows total total_str l,
    main Samples.overlapping
    = Ok (Summary rows total total_str, Layout l)
    /\ total = used l.
Proof.
  destruct (main Samples.overlapping) as [[s m]|] eqn:E;
    [|vm_compute in E; discriminate].
  destruct s as [|rows total total_str]; [vm_compute in E; discriminate|].
  destruct m as [| |l];
    [vm_compute in E; discriminate|vm_compute in E; discriminate|].
  exists rows, total, total_str, l. split; [reflexivity|].
  destruct (main_reports_agree _ _ _ E) as (_ & _ & H).
  apply (H rows total total_str l eq_refl eq_refl).
Defined.

(** ** Files of ordinary size *)

Lemma hex_digit_range c d : hex_digit c = Some d -> 0 <= d < 16.
Proof.
  destruct c as [[] [] [] [] [] [] [] []]; vm_compute; intros H;
    try discriminate; injection H as <-; split; congruence.
Qed.

Lemma hex_digits_bound : forall ds acc v,
  hex_digits acc ds = Some v -> 0 <= acc ->
  0 <= v < (acc + 1) * 16 ^ Z.of_nat (length ds).
Proof.
  induction ds as [|c ds IH]; intros acc v H Hacc; cbn [hex_digits] in H.
  - injection H as <-. change (16 ^ Z.of_nat (length (@nil ascii))) with 1.
    lia.
  - destruct (hex_digit c) as [d|] eqn:Ed; [|discriminate].
    apply hex_digit_range in Ed.
    specialize (IH (16 * acc + d) v H ltac:(lia)).
    cbn [length]. rewrite Nat2Z.inj_succ, Z.pow_succ_r by lia.
    assert (Hp : 0 < 16 ^ Z.of_nat (length ds))
      by (apply Z.pow_pos_nonneg; lia).
    generalize dependent (16 ^ Z.of_nat (length ds)). intros T. nia.
Qed.

Lemma int16_bound w v :
  int16 w = Ok v -> 0 <= v < 16 ^ Z.of_nat (length w).
Proof.
  unfold int16. destruct w as [|z [|h [|c ds]]]; try discriminate.
  destruct (_ && _)%bool; [|discriminate].
  destruct (hex_digits 0 (c :: ds)) as [v'|] eqn:E; [|discriminate].
  intros H; injection H as <-.
  apply hex_digits_bound in E; [|lia].
  assert (16 ^ Z.of_nat (length (c :: ds))
          <= 16 ^ Z.of_nat (length (z :: h :: c :: ds)))
    by (apply Z.pow_le_mono_r; cbn [length]; lia).
  lia.
Qed.

Lemma header_bound line name i :
  header line name i ->
  info.vma i < 16 ^ Z.of_nat (length line)
  /\ info.lma i < 16 ^ Z.of_nat (length line)
  /\ info.size i < 16 ^ Z.of_nat (length line).
Proof.
  intros (m & Hm & _ & G2 & G3 & Hl).
  apply main_section_sound in Hm
    as (nm & ws1 & a & ws2 & sz & rest & E & _ & _ & _ & _ & _ & ->).
  unfold group_int, group_text in G2, G3. cbn in G2, G3.
  apply int16_bound in G2, G3.
  assert (Ha : 16 ^ Z.of_nat (length a) <= 16 ^ Z.of_nat (length line)).
  { apply Z.pow_le_mono_r; [lia|]. rewrite E, !length_app. lia. }
  assert (Hs : 16 ^ Z.of_nat (length sz) <= 16 ^ Z.of_nat (length line)).
  { apply Z.pow_le_mono_r; [lia|]. rewrite E, !length_app. lia. }
  split; [lia|]. split; [|lia].
  unfold load_address in Hl.
  destruct (re_search load_re line) as [lm|] eqn:Es.
  - apply load_sound in Es as (pre & h & post & E' & _ & ->).
    unfold group_int, group_text in Hl. cbn in Hl.
    apply int16_bound in Hl.
    assert (16 ^ Z.of_nat (length h) <= 16 ^ Z.of_nat (length line)).
    { apply Z.pow_le_mono_r; [lia|]. rewrite E', !length_app. lia. }
    lia.
  - injection Hl as <-. lia.
Qed.

Lemma set_length {V} k v (d : Py.dict V) :
  (length (Py.set k v d) <= S (length d))%nat.
Proof.
  induction d as [|[k' v'] d IH]; cbn [Py.set length]; [lia|].
  destruct (str_eqb k k'); cbn [length]; lia.
Qed.

Lemma bounded_loop (B : Z) (L : nat) : forall ls st st' n,
  16 ^ Z.of_nat L <= B ->
  Forall (fun line => (length line <= L)%nat) ls ->
  parse_loop st ls = Ok st' ->
  all_values (fun i => info.vma i < B /\ info.lma i < B /\ info.size i < B)
    (section_addresses (fst st)) ->
  (length (section_addresses (fst st)) <= n)%nat ->
  all_values (fun i => info.vma i < B /\ info.lma i < B /\ info.size i < B)
    (section_addresses (fst st'))
  /\ (length (section_addresses (fst st')) <= n + length ls)%nat.
Proof.
  induction ls as [|line ls IH]; intros st st' n HB Hls H Ha Hn;
    cbn [parse_loop] in H.
  - injection H as <-. cbn [length]. split; [exact Ha|lia].
  - inversion Hls as [|? ? Hline Hrest]; subst.
    destruct (parse_line st line) as [st1|] eqn:E; [|discriminate].
    cbn [bind] in H.
    destruct (IH st1 st' (S n) HB Hrest H) as [H1 H2].
    + destruct st as [self cur]. cbn [fst] in Ha |- *.
      destruct (parse_line_cases self cur line)
        as [(nm & i & Hh & _ & _ & E')
           |[(nm & e & _ & _ & _ & E')|(_ & _ & E')]];
        rewrite E' in E; injection E as <-; cbn [fst].
      * unfold store_section. destruct (0 <? info.size i); [|exact Ha].
        cbn [section_addresses]. apply all_values_set; [exact Ha|].
        pose proof (header_bound _ _ _ Hh) as Hb.
        assert (16 ^ Z.of_nat (length line) <= B).
        { apply (Z.le_trans _ (16 ^ Z.of_nat L)); [|exact HB].
          apply Z.pow_le_mono_r; lia. }
        lia.
      * destruct (store_item_tables self nm e) as [_ ->]. exact Ha.
      * exact Ha.
    + destruct st as [self cur]. cbn [fst] in Hn |- *.
      destruct (parse_line_cases self cur line)
        as [(nm & i & _ & _ & _ & E')
           |[(nm & e & _ & _ & _ & E')|(_ & _ & E')]];
        rewrite E' in E; injection E as <-; cbn [fst].
      * unfold store_section. destruct (0 <? info.size i); [|lia].
        cbn [section_addresses].
        pose proof (set_length nm i (section_addresses self)). lia.
      * destruct (store_item_tables self nm e) as [_ ->]. lia.
      * lia.
    + split; [exact H1|]. cbn [length]. lia.
Qed.

Lemma sum_below (B : Z) l :
  0 <= B -> Forall (fun v => v < B) l ->
  Py.sum l <= Z.of_nat (length l) * B.
Proof.
  intros HB H. induction H as [|v l Hv _ IH].
  - unfold Py.sum. cbn. lia.
  - rewrite sum_cons. cbn [length]. rewrite Nat2Z.inj_succ. nia.
Qed.

(** X20: [main] returns for every file of ordinary size.  When no line
    is longer than 200 characters and there are fewer than 2^100 lines,
    parsing and both reports go through without an exception.  The
    bound is needed: one header line whose size has 301 digits makes
    [main] raise [OverflowError]. *)
Theorem main_returns (lines : list str) :
  (Forall (fun line => (length line <= 200)%nat) lines ->
   Z.of_nat (length lines) < 2 ^ 100 ->
   exists summary memory_map, main lines = Ok (summary, memory_map))
  /\ main [str_of ".a 0x0 0x1" ++ repeat "0"%char 300 ++ [nl]]
     = Raise OverflowError.
Proof.
  split; [|vm_compute; reflexivity].
  intros Hls Hn. unfold main.
  destruct (parse_total lines) as (p & Hp). rewrite Hp. cbn [bind].
  pose proof Hp as Hloop. apply parse_loop_of_parse in Hloop as (cur & Hloop).
  set (B := 2 ^ 800).
  assert (HB : 16 ^ Z.of_nat 200 <= B) by (vm_compute; discriminate).
  assert (HBpos : 0 < B) by (unfold B; apply Z.pow_pos_nonneg; lia).
  assert (Hmul : 2 ^ 900 = 2 ^ 100 * B)
    by (unfold B; rewrite <- Z.pow_add_r by lia; reflexivity).
  assert (H801 : B + B < 2 ^ 960).
  { unfold B. replace (2 ^ 800 + 2 ^ 800) with (2 ^ 801)
      by (change 801 with (Z.succ 800); rewrite Z.pow_succ_r; lia).
    apply Z.pow_lt_mono_r; lia. }
  assert (H900 : 2 ^ 900 < 2 ^ 960) by (apply Z.pow_lt_mono_r; lia).
  pose proof pow_960_990 as H960.
  clearbody B.
  destruct (bounded_loop B 200 lines (init, None) (p, cur) 0 HB Hls Hloop)
    as [Hall Hlen]; [constructor|cbn; lia|].
  cbn [fst] in Hall, Hlen.
  assert (Hsum : Py.sum (map info.size (Py.values (section_addresses p)))
                 < 2 ^ 900).
  { assert (Hf : Forall (fun v => v < B)
                   (map info.size (Py.values (section_addresses p)))).
    { unfold Py.values. rewrite map_map. apply Forall_map.
      eapply Forall_impl; [|exact Hall]. intros kv (_ & _ & H). exact H. }
    pose proof (sum_below B _ ltac:(lia) Hf) as Hs.
    unfold Py.values in Hs. rewrite !length_map in Hs.
    rewrite Hmul. unfold Py.values.
    eapply Z.le_lt_trans; [exact Hs|].
    apply (Z.le_lt_trans _ (Z.of_nat (length lines) * B)).
    - apply Z.mul_le_mono_nonneg_r; [lia|].
      apply Nat2Z.inj_le. exact Hlen.
    - apply Z.mul_lt_mono_pos_r; [exact HBpos|exact Hn]. }
  assert (Hr : within_range p).
  { split; [|lia].
    eapply Forall_impl; [|exact Hall]. intros kv (H1 & H2 & H3).
    cbv beta. lia. }
  destruct (section_addresses p) as [|a0 d0] eqn:Ed.
  - assert (Es : get_summary p = [])
      by (unfold get_summary; rewrite (parse_summary_of_addresses _ _ Hp),
            Ed; reflexivity).
    unfold print_section_summary, print_memory_map. rewrite Es, Ed.
    cbn [bind]. eauto.
  - rewrite <- Ed in *.
    assert (Hne : get_summary p <> []).
    { unfold get_summary. rewrite (parse_summary_of_addresses _ _ Hp), Ed.
      discriminate. }
    destruct (print_section_summary_returns lines p Hp Hne)
      as (rows & ts & ->).
    { rewrite (parse_summary_sum _ _ Hp). lia. }
    cbn [bind].
    destruct (print_memory_map_returns lines p true Hp) as (l & ->);
      [rewrite Ed; discriminate|exact Hr|].
    cbn [bind]. eauto.
Qed.

Lemma main_returns_witness :
  exists summary memory_map,
    main (readlines Samples.text_ab) = Ok (summary, memory_map).
Proof.
  apply (proj1 (main_returns (readlines Samples.text_ab))).
  - repeat constructor.
  - vm_compute. reflexivity.
Defined.

(** ** Lines *)

Lemma readlines_from_concat : forall text cur,
  concat (readlines_from cur text) = rev cur ++ text.
Proof.
  induction text as [|c text IH]; intros cur; cbn [readlines_from].
  - destruct cur; cbn [concat]; rewrite ?app_nil_r; reflexivity.
  - destruct (is_code 10 c).
    + cbn [concat rev]. rewrite (IH []). cbn [rev app].
      rewrite <- app_assoc. reflexivity.
    + rewrite (IH (c :: cur)). cbn [rev]. rewrite <- app_assoc. reflexivity.
Qed.

Lemma readlines_from_shape : forall text cur,
  all not_newline (rev cur) ->
  Forall (fun line =>
            exists body,
              all not_newline body
              /\ (line = body ++ [nl] \/ (line = body /\ body <> [])))
    (readlines_from cur text).
Proof.
  induction text as [|c text IH]; intros cur Hcur; cbn [readlines_from].
  - destruct cur as [|d cur]; constructor; [|constructor].
    exists (rev (d :: cur)). split; [exact Hcur|]. right.
    split; [reflexivity|]. cbn [rev]. intros H.
    apply app_eq_nil in H as [_ H]. discriminate.
  - destruct (is_code 10 c) eqn:E.
    + constructor; [|apply IH; constructor].
      exists (rev cur). split; [exact Hcur|]. left. cbn [rev].
      unfold is_code, code in E. apply N.eqb_eq in E.
      replace c with nl; [reflexivity|].
      rewrite <- (ascii_N_embedding c), E. reflexivity.
    + apply IH. cbn [rev]. apply Forall_app. split; [exact Hcur|].
      repeat constructor. unfold not_newline. rewrite E. reflexivity.
Qed.

Lemma readlines_from_app : forall t1 cur t2,
  readlines_from cur (t1 ++ nl :: t2)
  = readlines_from cur (t1 ++ [nl]) ++ readlines t2.
Proof.
  induction t1 as [|c t1 IH]; intros cur t2; cbn [app readlines_from].
  - change (is_code 10 nl) with true. cbv iota. reflexivity.
  - destruct (is_code 10 c); [cbn [app]; f_equal|]; apply IH.
Qed.



(** ** Sub-entries go to the header above them *)

Lemma store_item_get self name e :
  0 < item.size e ->
  Py.get name (sections (store_item self name e))
  = Some (Py.get_default [] name (sections self) ++ [e]).
Proof.
  intros H. unfold store_item.
  replace (0 <? item.size e) with true by (symmetry; apply Z.ltb_lt, H).
  cbn [sections]. apply get_set_same.
Qed.

Lemma sub_entry_stored name : forall mid self sub e st',
  name <> [] ->
  Forall (fun l => re_match main_section_re l = None) mid ->
  sub_entry sub e -> 0 < item.size e ->
  parse_loop (self, Some name) (mid ++ [sub]) = Ok st' ->
  snd st' = Some name
  /\ exists before,
       Py.get name (sections (fst st')) = Some (before ++ [e])
       /\ forall items,
            Py.get name (sections self) = Some items ->
            exists more, before = items ++ more.
Proof.
  intros mid self sub e st' Hne Hmid Hsub Hpos H.
  rewrite parse_loop_app in H.
  destruct (parse_loop (self, Some name) mid) as [[self1 cur1]|] eqn:E1;
    [|discriminate].
  cbn [bind parse_loop] in H.
  pose proof (no_header_keeps_cursor mid _ _ _ Hmid E1) as Hc.
  cbn [snd] in Hc. subst cur1.
  assert (Ht : truthy (Some name) = Some name)
    by (destruct name; [congruence|reflexivity]).
  rewrite (parse_line_sub_entry self1 (Some name) sub name e Ht Hsub) in H.
  cbn [bind] in H. injection H as <-. cbn [fst snd].
  split; [reflexivity|].
  exists (Py.get_default [] name (sections self1)).
  split; [apply store_item_get, Hpos|].
  intros items G.
  destruct (items_grow name mid (self, Some name) (self1, Some name) items
              G E1) as (more & G1).
  cbn [fst] in G1. unfold Py.get_default. rewrite G1. eauto.
Qed.

(** X22: sub-entries go to the header above them, in the order of the
    file.  Two sub-entry lines of sizes above zero that follow a header
    line, with no other header line before them, are stored under the
    name of that header, whatever its size, the first before the
    second. *)
Theorem sub_entries_under_their_header
        (pre mid1 mid2 post : list str) (line sub1 sub2 name : str)
        (i : info.t) (e1 e2 : item.t) (p : MapFileParser.t) :
  header line name i ->
  Forall (fun l => re_match main_section_re l = None) mid1 ->
  Forall (fun l => re_match main_section_re l = None) mid2 ->
  sub_entry sub1 e1 -> 0 < item.size e1 ->
  sub_entry sub2 e2 -> 0 < item.size e2 ->
  parse (pre ++ line :: mid1 ++ sub1 :: mid2 ++ sub2 :: post) = Ok p ->
  exists a b c,
    Py.get name (sections p) = Some (a ++ e1 :: b ++ e2 :: c).
Proof.
  intros Hh Hm1 Hm2 Hs1 Hp1 Hs2 Hp2 Hp.
  destruct (header_facts line name i Hh) as (Hne & _).
  apply parse_loop_of_parse in Hp as (cur & Hp).
  rewrite parse_loop_app in Hp.
  destruct (parse_loop (init, None) pre) as [[self0 cur0]|] eqn:E0;
    [|discriminate].
  cbn [bind parse_loop] in Hp.
  rewrite (parse_line_header self0 cur0 line name i Hh) in Hp.
  cbn [bind] in Hp.
  change (mid1 ++ sub1 :: mid2 ++ sub2 :: post)
    with (mid1 ++ [sub1] ++ mid2 ++ [sub2] ++ post) in Hp.
  rewrite app_assoc, parse_loop_app in Hp.
  destruct (parse_loop _ (mid1 ++ [sub1])) as [[self1 cur1]|] eqn:E1;
    [|discriminate].
  cbn [bind] in Hp.
  destruct (sub_entry_stored name mid1 _ sub1 e1 _ Hne Hm1 Hs1 Hp1 E1)
    as (Hc1 & a & G1 & _).
  cbn [fst snd] in Hc1, G1. subst cur1.
  rewrite app_assoc, parse_loop_app in Hp.
  destruct (parse_loop _ (mid2 ++ [sub2])) as [[self2 cur2]|] eqn:E2;
    [|discriminate].
  cbn [bind] in Hp.
  destruct (sub_entry_stored name mid2 _ sub2 e2 _ Hne Hm2 Hs2 Hp2 E2)
    as (Hc2 & b' & G2 & Hb).
  cbn [fst snd] in Hc2, G2. subst cur2.
  destruct (Hb _ G1) as (b & ->).
  destruct (items_grow name post (self2, Some name) (p, cur) _ G2 Hp)
    as (c & G3).
  cbn [fst] in G3. exists a, b, c. rewrite G3. f_equal.
  rewrite <- !app_assoc. reflexivity.
Qed.

Lemma sub_entries_under_their_header_witness :
  exists a b c,
    Py.get (str_of ".text")
      (sections (Samples.model (readlines Samples.text_ab)))
    = Some (a ++ {| item.subsection := str_of ".text.foo";
                    item.address := 2621824; item.size := 80;
                    item.file := str_of "a.o" |}
              :: b ++ {| item.subsection := str_of ".text.bar";
                         item.address := 2621904; item.size := 80;
                         item.file := str_of "b.o" |} :: c).
Proof.
  apply (sub_entries_under_their_header [] [] [] []
           (ln ".text 0x00280180 0x000000a0")
           (ln "  .text.foo 0x00280180 0x00000050 a.o")
           (ln "  .text.bar 0x002801d0 0x00000050 b.o")
           (str_of ".text")
           {| info.vma := 2621824; info.lma := 2621824; info.size := 160 |}).
  - eexists. split; [vm_compute; reflexivity|].
    repeat split; vm_compute; reflexivity.
  - constructor.
  - constructor.
  - eexists. eexists. split; [vm_compute; reflexivity|].
    repeat split; vm_compute; reflexivity.
  - reflexivity.
  - eexists. eexists. split; [vm_compute; reflexivity|].
    repeat split; vm_compute; reflexivity.
  - reflexivity.
  - vm_compute; reflexivity.
Defined.

(** ** The sections of the memory map *)

Lemma shown_sections_app l1 l2 :
  shown_sections (l1 ++ l2) = shown_sections l1 ++ shown_sections l2.
Proof.
  induction l1 as [|[? ? ?|? ?] l1 IH]; cbn [app shown_sections];
    [reflexivity|exact IH|rewrite IH; reflexivity].
Qed.

Lemma shown_sections_walk use_vma : forall secs prev,
  shown_sections (walk_lines use_vma prev secs) = secs.
Proof.
  induction secs as [|sec secs IH]; intros prev; [reflexivity|].
  cbn [walk_lines]. rewrite shown_sections_app. cbn [shown_sections].
  rewrite IH. unfold gap_before. destruct (prev <? start sec); reflexivity.
Qed.



(** ** Limits of zero and below *)

(** X24: limits of zero and below.  With the limit 0 the top contributors
    of a section that has items say "no data", while its detailed
    breakdown prints a table without rows.  A limit below zero is a
    slice from the end: both reports leave out the last [-limit] of
    their rows. *)
Theorem limit_edges
        (p : MapFileParser.t) (section : str) (items : list item.t) :
  Py.get section (sections p) = Some items -> items <> [] ->
  print_top_contributors p section 0 = Ok (NoContributors section)
  /\ print_detailed_breakdown p section 0 = Ok (Breakdown [])
  /\ (forall limit,
         limit < 0 ->
         get_top_contributors p section limit
         = firstn (length (group_by_file items) - Z.to_nat (- limit))
             (Py.sorted_reverse snd (group_by_file items)))
  /\ (forall limit rows,
         limit < 0 ->
         print_detailed_breakdown p section limit = Ok (Breakdown rows) ->
         length rows = (length items - Z.to_nat (- limit))%nat).
Proof.
  intros G Hne. split; [|split; [|split]].
  - unfold print_top_contributors, get_top_contributors. rewrite G.
    reflexivity.
  - unfold print_detailed_breakdown, get_all_contributors. rewrite G.
    pose proof (sorted_reverse_not_nil item.size items Hne) as Hs.
    destruct (Py.sorted_reverse item.size items); [congruence|].
    reflexivity.
  - intros limit Hl. unfold get_top_contributors, Py.slice_to. rewrite G.
    replace (0 <=? limit) with false by (symmetry; apply Z.leb_gt; lia).
    rewrite (Permutation_length (sorted_reverse_perm snd _)). reflexivity.
  - intros limit rows Hl.
    unfold print_detailed_breakdown, get_all_contributors, Py.slice_to.
    rewrite G.
    pose proof (sorted_reverse_perm item.size items) as Hperm.
    destruct (Py.sorted_reverse item.size items) as [|a r] eqn:E;
      [intros H; discriminate|].
    rewrite <- E in *.
    replace (0 <=? limit) with false by (symmetry; apply Z.leb_gt; lia).
    destruct (mapM _ _) as [rows'|] eqn:Em; [|discriminate].
    cbn [bind]. intros H; injection H as <-.
    apply mapM_inv, Forall2_length in Em. rewrite <- Em, length_firstn.
    rewrite (Permutation_length Hperm). lia.
Qed.

Lemma limit_edges_witness :
  print_top_contributors (Samples.model (readlines Samples.text_ab))
    (str_of ".text") 0
  = Ok (NoContributors (str_of ".text"))
  /\ print_detailed_breakdown (Samples.model (readlines Samples.text_ab))
       (str_of ".text") 0
     = Ok (Breakdown []).
Proof.
  destruct (limit_edges (Samples.model (readlines Samples.text_ab))
              (str_of ".text")
              (Py.get_default [] (str_of ".text")
                 (sections (Samples.model (readlines Samples.text_ab)))))
    as (H1 & H2 & _).
  - vm_compute; reflexivity.
  - vm_compute; discriminate.
  - split; [exact H1|exact H2].
Defined.
